(** * alchemyjsonschema: a shallow embedding of the schema generator

    The development follows [src/alchemyjsonschema/__init__.py].  Python
    objects become records, dictionaries become insertion-ordered association
    lists (the order of keys is observable in the generated document), sets
    become [gset], exceptions become the [Raise] case of a result type, and the
    objects that the source mutates while they are shared (the traversal
    history, the root schema) live in an explicit store that every operation
    threads through. *)

From Stdlib Require Import ZArith String Ascii.
From stdpp Require Import base tactics option list strings gmap pretty.

Open Scope string_scope.
Open Scope list_scope.
Local Set Warnings "-register-all,-clear-no-such-hyp".

(** ** Python values *)

(** Dictionaries keep insertion order; assigning to a key that is present
    keeps its position. *)
Abbreviation dict V := (list (string * V)).

Section dict.
Context {V : Type}.

Fixpoint dict_get (k : string) (d : dict V) : option V :=
  match d with
  | [] => None
  | (k', v) :: d' => if decide (k' = k) then Some v else dict_get k d'
  end.

Definition dict_in (k : string) (d : dict V) : bool :=
  bool_decide (is_Some (dict_get k d)).

Fixpoint dict_set (k : string) (v : V) (d : dict V) : dict V :=
  match d with
  | [] => [(k, v)]
  | (k', v') :: d' =>
      if decide (k' = k) then (k, v) :: d' else (k', v') :: dict_set k v d'
  end.

Fixpoint dict_del (k : string) (d : dict V) : dict V :=
  match d with
  | [] => []
  | (k', v') :: d' =>
      if decide (k' = k) then d' else (k', v') :: dict_del k d'
  end.

(** [d.update(other)] *)
Definition dict_update (d other : dict V) : dict V :=
  foldl (λ acc kv, dict_set kv.1 kv.2 acc) d other.

Definition dict_keys (d : dict V) : list string := d.*1.
End dict.

(** The JSON-like values the generator assembles. *)
Inductive json : Type :=
| JNone
| JBool (b : bool)
| JInt (n : Z)
| JStr (s : string)
| JList (xs : list json)
| JDict (kvs : dict json).

(** [j == s] for a string [s] *)
Definition json_eq_str (j : json) (s : string) : bool :=
  match j with
  | JStr s' => bool_decide (s' = s)
  | _ => false
  end.

(** [name + splitter], [k.startswith(prefix)], [k.split(splitter, 1)[1]]. *)
Definition startswith (k pre : string) : bool := String.prefix pre k.

Fixpoint drop_chars (n : nat) (s : string) : string :=
  match n, s with
  | S n', String _ s' => drop_chars n' s'
  | _, _ => s
  end.

(** The part of [k] after the first occurrence of [sep]; [None] when [sep]
    does not occur. *)
Fixpoint after_first (sep k : string) : option string :=
  if String.prefix sep k then Some (drop_chars (String.length sep) k)
  else match k with
       | EmptyString => None
       | String _ k' => after_first sep k'
       end.

Fixpoint join (sep : string) (ws : list string) : string :=
  match ws with
  | [] => ""
  | [w] => w
  | w :: ws' => String.app w (String.app sep (join sep ws'))
  end.

(** A character of a string is a code point below 256.  [c.isspace()] holds
    of the code points 9 to 13, 28 to 31, 32, 133 and 160. *)
Definition isspace (c : ascii) : bool :=
  let n := nat_of_ascii c in
  (Nat.leb 9 n && Nat.leb n 13) || (Nat.leb 28 n && Nat.leb n 32)
  || Nat.eqb n 133 || Nat.eqb n 160.

(** [s.split()]: the maximal runs of characters that are not whitespace.
    [cur] holds the run being read, last character first. *)
Fixpoint split_whitespace (cur : list ascii) (s : string) : list string :=
  let word := match cur with
              | [] => []
              | _ :: _ => [string_of_list_ascii (rev cur)]
              end in
  match s with
  | EmptyString => word
  | String c s' =>
      if isspace c then word ++ split_whitespace [] s'
      else split_whitespace (c :: cur) s'
  end.

(** ** The reflection interface of the object-relational mapper *)

(** A class object: its name and the rest of its method resolution order.
    The name is the dotted path under which the source refers to the class
    ([t.String] with [import sqlalchemy.types as t] is
    ["sqlalchemy.types.String"]); it identifies the class object, so
    [sqlalchemy.types.JSON] and [sqlalchemy.dialects.postgresql.JSON] are
    different classes. *)
Inductive tclass : Type :=
| TClass (name : string) (ancestors : list tclass).

Definition cls_name (c : tclass) : string :=
  match c with TClass n _ => n end.

Definition mro (c : tclass) : list tclass :=
  match c with TClass _ anc => c :: anc end.

(** What [str(k)] does for a type instance [k]: it gives a text, or it
    raises (the exception is named; a type that has no rendering raises
    [CompileError]). *)
Inductive str_result : Type :=
| Str (text : string)
| StrRaises (exception : string).

(** An instance of a column type.  A [TypeDecorator] instance carries the
    instance it wraps in [impl] and forwards every attribute it does not
    define to it; it is rendered as the instance it wraps.  An attribute that
    the instance does not have is [None]; an attribute whose value is
    Python's [None] is [Some None]. *)
Inductive sqltype : Type :=
| TypeEngine (cls : tclass) (length : option (option Z))
    (enums : option (list string)) (item_type : option sqltype)
    (str : str_result)
| TypeDecorator (cls : tclass) (impl : sqltype).

Definition __class__ (k : sqltype) : tclass :=
  match k with
  | TypeEngine c _ _ _ _ => c
  | TypeDecorator c _ => c
  end.

Definition isinstance_TypeDecorator (k : sqltype) : bool :=
  match k with TypeDecorator _ _ => true | _ => false end.

Fixpoint ty_length (k : sqltype) : option (option Z) :=
  match k with
  | TypeEngine _ l _ _ _ => l
  | TypeDecorator _ i => ty_length i
  end.

Fixpoint ty_enums (k : sqltype) : option (list string) :=
  match k with
  | TypeEngine _ _ e _ _ => e
  | TypeDecorator _ i => ty_enums i
  end.

Fixpoint ty_item_type (k : sqltype) : option sqltype :=
  match k with
  | TypeEngine _ _ _ it _ => it
  | TypeDecorator _ i => ty_item_type i
  end.

(** [str(k)] *)
Fixpoint __str__ (k : sqltype) : str_result :=
  match k with
  | TypeEngine _ _ _ _ s => s
  | TypeDecorator _ i => __str__ i
  end.

(** [column.type] is an instance; the source also guards against a bare
    class object ([type(column.type) != VisitableType]). *)
Inductive coltype : Type :=
| TypeObject (t : sqltype)
| TypeClass (c : tclass).

Record Column : Type := {
  c_table : string;
  c_name : string;
  c_type : coltype;
  nullable : bool;
  default : option json;
  foreign_keys : list string;
  doc : option string;
}.

(** Column objects are compared by identity: the table and the name. *)
Definition column_id (c : Column) : string * string := (c_table c, c_name c).

Inductive direction : Type := ONETOMANY | MANYTOONE | MANYTOMANY.

Global Instance direction_eq_dec : EqDecision direction.
Proof. solve_decision. Defined.

Record ColumnProperty : Type := {
  cp_parent : string;
  cp_key : string;
  columns : list Column;
}.

Record RelationshipProperty : Type := {
  rp_parent : string;
  rp_key : string;
  rp_mapper : string;
  rp_direction : direction;
  back_populates : option string;
  backref : option string;
  local_columns : list Column;
  remote_side : list Column;
}.

Inductive MapperProperty : Type :=
| ColumnProp (c : ColumnProperty)
| RelationshipProp (r : RelationshipProperty).

Definition key (p : MapperProperty) : string :=
  match p with
  | ColumnProp c => cp_key c
  | RelationshipProp r => rp_key r
  end.

Definition parent (p : MapperProperty) : string :=
  match p with
  | ColumnProp c => cp_parent c
  | RelationshipProp r => rp_parent r
  end.

(** Property objects are compared by identity: the owning class and the
    key. *)
Definition prop_id (p : MapperProperty) : string * string := (parent p, key p).

Definition prop_in (p : MapperProperty) (ps : list MapperProperty) : bool :=
  bool_decide (prop_id p ∈ prop_id <$> ps).

(** [getattr(prop, "columns", Empty)] *)
Definition getattr_columns (p : MapperProperty) : list Column :=
  match p with
  | ColumnProp c => columns c
  | RelationshipProp _ => []
  end.

Record Mapper : Type := {
  class_name : string;
  _tablename : option string;
  mapped_table_name : string;
  class_doc : option string;
  local_table_columns : list Column;
  _props : dict MapperProperty;
  relationships : list RelationshipProperty;
}.

(** The mapped classes of the application, by class name: [prop.mapper] is
    looked up here. *)
Abbreviation registry := (dict Mapper).

(** ** Exceptions and results *)

Inductive invalid_status : Type :=
| Conflict (includes : list string) (excludes : list (option string))
| NotFound (k : string)
| InvalidOverrides (not_used_keys : gset string).

Inductive exn : Type :=
| InvalidStatus (m : invalid_status)
| KeyError (k : string)
| IndexError
| TypeError (what : string)
| ValueError (what : string)
| AttributeError (what : string)
| UnboundLocalError (what : string)
| PyException (what : string)
| UnmappedClass (name : string)
| RaisedByStr (exception : string).

Inductive result (A : Type) : Type :=
| Ok (a : A)
| Raise (e : exn).
Arguments Ok {A} a.
Arguments Raise {A} e.

Global Instance result_ret : MRet result := λ A a, Ok a.
Global Instance result_bind : MBind result := λ A B f m,
  match m with
  | Ok a => f a
  | Raise e => Raise e
  end.

Global Instance result_fmap : FMap result := λ A B f m,
  match m with
  | Ok a => Ok (f a)
  | Raise e => Raise e
  end.

(** ** Type classification *)

Definition default_column_to_schema : dict string := [
  ("sqlalchemy.dialects.postgresql.JSON", "object");
  ("sqlalchemy.dialects.postgresql.UUID", "string");
  ("sqlalchemy.types.String", "string");
  ("sqlalchemy.types.Text", "string");
  ("sqlalchemy.types.Integer", "integer");
  ("sqlalchemy.types.SmallInteger", "integer");
  ("sqlalchemy.types.BigInteger", "string");
  ("sqlalchemy.types.Numeric", "number");
  ("sqlalchemy.types.Float", "number");
  ("sqlalchemy.types.DateTime", "string");
  ("sqlalchemy.types.Date", "string");
  ("sqlalchemy.types.Time", "string");
  ("sqlalchemy.types.LargeBinary", "xxxLargeBinary");
  ("sqlalchemy.types.Binary", "xxxBinary");
  ("sqlalchemy.types.Boolean", "boolean");
  ("sqlalchemy.types.Unicode", "string");
  ("sqlalchemy.types.Concatenable", "array");
  ("sqlalchemy.types.UnicodeText", "string");
  ("sqlalchemy.types.Interval", "xxxInterval");
  ("sqlalchemy.types.Enum", "string")
].

Module Classifier.
(** [for sc in cls.mro(): if sc in self.mapping: return sc, self.mapping[sc]] *)
Fixpoint inheritance (mapping : dict string) (scs : list tclass)
  : option (tclass * string) :=
  match scs with
  | [] => None
  | sc :: scs' =>
      match dict_get (cls_name sc) mapping with
      | Some v => Some (sc, v)
      | None => inheritance mapping scs'
      end
  end.

Definition __getitem__ (mapping : dict string) (k : sqltype)
  : result (tclass * string) :=
  let k := match k with TypeDecorator _ impl => impl | _ => k end in
  let cls := __class__ k in
  match dict_get (cls_name cls) mapping with
  | Some v => Ok (cls, v)
  | None =>
      match inheritance mapping (mro cls) with
      | Some r => Ok r
      | None =>
          (* [InvalidStatus("notfound: {k}".format(k=k))] *)
          match __str__ k with
          | Str text => Raise (InvalidStatus (NotFound text))
          | StrRaises e => Raise (RaisedByStr e)
          end
      end
  end.
End Classifier.

(** ** The store

    Two kinds of objects are mutated while shared: the history lists (a
    walker keeps a reference to the list it was constructed with, and
    [_build_properties] appends to the list it was called with) and the root
    schema (every nesting level registers definitions in it).  A history
    list is addressed by its index in [lists]. *)

Record store : Type := {
  lists : list (list MapperProperty);
  root_schema : dict json;
}.

(** A computation on the store returns a value and a store or raises; it
    gives [None] when the fuel of a recursive definition has run out. *)
Definition M (A : Type) : Type := store → option (result (A * store)).

Global Instance M_ret : MRet M := λ A a st, Some (Ok (a, st)).
Global Instance M_bind : MBind M := λ A B f m st,
  match m st with
  | Some (Ok (a, st')) => f a st'
  | Some (Raise e) => Some (Raise e)
  | None => None
  end.

Definition raise {A} (e : exn) : M A := λ _, Some (Raise e).
Definition out_of_fuel {A} : M A := λ _, None.
Definition lift {A} (r : result A) : M A := λ st,
  match r with
  | Ok a => Some (Ok (a, st))
  | Raise e => Some (Raise e)
  end.

Notation "'Returns' x" := (Some (Ok x)) (at level 10, x at level 9).
Notation "'Raises' e" := (Some (Raise e)) (at level 10, e at level 9).

(** [[]]: a new list object *)
Definition new_list : M nat := λ st,
  Some (Ok (length (lists st),
            {| lists := lists st ++ [[]]; root_schema := root_schema st |})).

Definition deref (r : nat) (st : store) : list MapperProperty :=
  from_option id [] (lists st !! r).

Definition read_list (r : nat) : M (list MapperProperty) := λ st,
  Some (Ok (deref r st, st)).

(** [history.append(prop)] *)
Definition list_append (r : nat) (p : MapperProperty) : M unit := λ st,
  Some (Ok (tt, {| lists := alter (λ l, l ++ [p]) r (lists st);
                   root_schema := root_schema st |})).

Definition get_root_schema : M (dict json) := λ st,
  Some (Ok (root_schema st, st)).
Definition put_root_schema (d : dict json) : M unit := λ st,
  Some (Ok (tt, {| lists := lists st; root_schema := d |})).

Fixpoint foldM {A S} (f : S → A → M S) (s : S) (l : list A) : M S :=
  match l with
  | [] => mret s
  | a :: l' => s' ← f s a; foldM f s' l'
  end.

(** ** Dotted-path scoping *)

(** The argument of [get_children] is a mapping, a list, or anything else
    ([None] in every call of the source). *)
Inductive pyparams (V : Type) : Type :=
| ParamsDict (d : dict V)
| ParamsList (l : list string)
| ParamsNone.
Arguments ParamsDict {V} d.
Arguments ParamsList {V} l.
Arguments ParamsNone {V}.

(** [k.split(splitter, 1)[1]] *)
Definition split1 (splitter k : string) : result string :=
  if decide (splitter = "") then Raise (ValueError "empty separator")
  else match after_first splitter k with
       | Some rest => Ok rest
       | None => Raise IndexError
       end.

Fixpoint children_of_dict {V} (prefix splitter : string) (d : dict V)
  : result (dict V) :=
  match d with
  | [] => Ok []
  | (k, v) :: d' =>
      if startswith k prefix then
        k' ← split1 splitter k;
        rest ← children_of_dict prefix splitter d';
        Ok ((k', v) :: rest)
      else children_of_dict prefix splitter d'
  end.

Fixpoint children_of_list (prefix splitter : string) (l : list string)
  : result (list string) :=
  match l with
  | [] => Ok []
  | e :: l' =>
      if startswith e prefix then
        e' ← split1 splitter e;
        rest ← children_of_list prefix splitter l';
        Ok (e' :: rest)
      else children_of_list prefix splitter l'
  end.

Definition get_children {V} (name : string) (ps : pyparams V)
    (splitter : string) (default : pyparams V) : result (pyparams V) :=
  let prefix := String.app name splitter in
  match ps with
  | ParamsDict d =>
      kvs ← children_of_dict prefix splitter d;
      Ok (ParamsDict (foldl (λ acc kv, dict_set kv.1 kv.2 acc) [] kvs))
  | ParamsList l => ParamsList <$> children_of_list prefix splitter l
  | ParamsNone => Ok default
  end.

(** ** Walkers *)

Inductive walker_class : Type :=
| SingleModelWalker
| OneModelOnlyWalker
| AlsoChildrenWalker
| HandControlledWalker.

Record Walker : Type := {
  w_class : walker_class;
  mapper : Mapper;
  includes : option (list string);
  excludes : option (list (option string));
  history : nat;
  decisions : option (dict string);
  walking : list string;
}.

(** Truth value of an optional list: [None] and [[]] are false. *)
Definition truthy {A} (l : option (list A)) : bool :=
  match l with
  | Some (_ :: _) => true
  | _ => false
  end.

(** [set(includes).intersection(excludes)] is not empty *)
Definition intersects (inc : list string) (exc : list (option string)) : bool :=
  existsb (λ k, bool_decide (Some k ∈ exc)) inc.

Module BaseModelWalker.
(** [history or []]: the list passed in when it is not empty, and a new
    list otherwise. *)
Definition history_or_new (history : option nat) : M nat :=
  match history with
  | None => new_list
  | Some r =>
      h ← read_list r;
      match h with
      | [] => new_list
      | _ :: _ => mret r
      end
  end.

Definition __init__ (cls : walker_class) (model : Mapper)
    (includes : option (list string))
    (excludes : option (list (option string)))
    (history : option nat) (decisions : option (dict string)) : M Walker :=
  h ← history_or_new history;
  if truthy includes && truthy excludes
     && intersects (from_option id [] includes) (from_option id [] excludes)
  then raise (InvalidStatus
                (Conflict (from_option id [] includes)
                          (from_option id [] excludes)))
  else mret {| w_class := cls; mapper := model; includes := includes;
               excludes := excludes; history := h;
               decisions := decisions; walking := [] |}.
End BaseModelWalker.

(** What a walker's [iterate] does next: append a name to [self.walking],
    yield a property, or raise. *)
Inductive step : Type :=
| Mark (name : string)
| Yield (p : MapperProperty)
| Throw (e : exn).

(** [self.mapper._props[name]] *)
Definition lookup_prop (m : Mapper) (name : string) : step :=
  match dict_get name (_props m) with
  | Some p => Yield p
  | None => Throw (KeyError name)
  end.

(** [for c in self.mapper.local_table.columns: yield self.mapper._props[c.name]] *)
Definition iterate_columns (m : Mapper) : list step :=
  (λ c, lookup_prop m (c_name c)) <$> local_table_columns m.

Definition included (self : Walker) (prop : MapperProperty) : bool :=
  match includes self with
  | None => true
  | Some inc => bool_decide (key prop ∈ inc)
  end.

Definition not_excluded (self : Walker) (prop : MapperProperty) : bool :=
  match excludes self with
  | None => true
  | Some exc => bool_decide (Some (key prop) ∉ exc)
  end.

(** [any(c.foreign_keys for c in getattr(prop, "columns", Empty))] *)
Definition any_foreign_keys (prop : MapperProperty) : bool :=
  existsb (λ c, match foreign_keys c with [] => false | _ => true end)
          (getattr_columns prop).

(** For each walker class: the steps of [iterate], and the test that [walk]
    applies to a property that [iterate] yields, given the contents of
    [self.history] at that moment. *)
Module SingleModelWalker.
Definition iterate (self : Walker) : list step :=
  iterate_columns (mapper self).

Definition walk (self : Walker) (hist : list MapperProperty)
    (prop : MapperProperty) : bool :=
  included self prop && not_excluded self prop.
End SingleModelWalker.

Module OneModelOnlyWalker.
Definition iterate (self : Walker) : list step :=
  iterate_columns (mapper self).

Definition walk (self : Walker) (hist : list MapperProperty)
    (prop : MapperProperty) : bool :=
  included self prop && not_excluded self prop
  && negb (any_foreign_keys prop).
End OneModelOnlyWalker.

Module AlsoChildrenWalker.
Definition iterate (self : Walker) : list step :=
  iterate_columns (mapper self)
  ++ ((λ r, Yield (RelationshipProp r)) <$> relationships (mapper self)).

Definition walk (self : Walker) (hist : list MapperProperty)
    (prop : MapperProperty) : bool :=
  included self prop && not_excluded self prop
  && negb (prop_in prop hist)
  && negb (any_foreign_keys prop).
End AlsoChildrenWalker.

Module HandControlledWalker.
Definition treat_relationship (self : Walker) (prop : RelationshipProperty)
  : list step :=
  match decisions self with
  | None => [Throw (TypeError "'NoneType' object is not subscriptable")]
  | Some ds =>
      match dict_get (rp_key prop) ds with
      | None => [Throw (KeyError (rp_key prop))]
      | Some decision =>
          if decide (decision = "relationship")
          then [Yield (RelationshipProp prop)]
          else if decide (decision = "foreignkey")
          then c ← local_columns prop;
               [Mark (c_name c); lookup_prop (mapper self) (c_name c)]
          else [Throw (PyException decision)]
      end
  end.

Definition iterate (self : Walker) : list step :=
  iterate_columns (mapper self)
  ++ (r ← relationships (mapper self); treat_relationship self r).

Definition walk (self : Walker) (hist : list MapperProperty)
    (prop : MapperProperty) : bool :=
  included self prop && not_excluded self prop
  && negb (prop_in prop hist)
  && (bool_decide (key prop ∈ walking self)
      || negb (any_foreign_keys prop)).

(** [get_children(name, self.decisions)] *)
Definition clone_decisions (self : Walker) (name : string)
  : result (option (dict string)) :=
  ps ← get_children name
         (match decisions self with
          | Some d => ParamsDict d
          | None => ParamsNone
          end) "." ParamsNone;
  Ok (match ps with ParamsDict d => Some d | _ => None end).
End HandControlledWalker.

(** Dispatch on the class of the walker. *)
Definition iterate (self : Walker) : list step :=
  match w_class self with
  | SingleModelWalker => SingleModelWalker.iterate self
  | OneModelOnlyWalker => OneModelOnlyWalker.iterate self
  | AlsoChildrenWalker => AlsoChildrenWalker.iterate self
  | HandControlledWalker => HandControlledWalker.iterate self
  end.

Definition walk (self : Walker) (hist : list MapperProperty)
    (prop : MapperProperty) : bool :=
  match w_class self with
  | SingleModelWalker => SingleModelWalker.walk self hist prop
  | OneModelOnlyWalker => OneModelOnlyWalker.walk self hist prop
  | AlsoChildrenWalker => AlsoChildrenWalker.walk self hist prop
  | HandControlledWalker => HandControlledWalker.walk self hist prop
  end.

(** [self.__class__(mapper, includes, excludes, history)], with the
    decisions of a hand-controlled walker scoped to [name]. *)
Definition clone (self : Walker) (name : string) (mapper : Mapper)
    (includes : option (list string))
    (excludes : option (list (option string)))
    (history : option nat) : M Walker :=
  match w_class self with
  | HandControlledWalker =>
      ds ← lift (HandControlledWalker.clone_decisions self name);
      BaseModelWalker.__init__ HandControlledWalker mapper includes excludes
        history ds
  | cls => BaseModelWalker.__init__ cls mapper includes excludes history None
  end.

(** The contents of [self.history]. *)
Definition walker_history (self : Walker) : M (list MapperProperty) :=
  read_list (history self).

(** [for prop in walker.walk(): body]: the generator is resumed after every
    run of the body, so each test of [walk] sees the history and the
    [walking] list as the body left them. *)
Definition walk_step {S} (body : Walker → S → MapperProperty → M (Walker * S))
    (ws : Walker * S) (s : step) : M (Walker * S) :=
  let '(w, acc) := ws in
  match s with
  | Mark n =>
      mret ({| w_class := w_class w; mapper := mapper w;
               includes := includes w; excludes := excludes w;
               history := history w; decisions := decisions w;
               walking := walking w ++ [n] |}, acc)
  | Throw e => raise e
  | Yield prop =>
      hist ← walker_history w;
      if walk w hist prop then body w acc prop else mret (w, acc)
  end.

Definition for_walk {S} (body : Walker → S → MapperProperty → M (Walker * S))
    (walker : Walker) (acc : S) : M (Walker * S) :=
  foldM (walk_step body) (walker, acc) (iterate walker).

(** Everything that [walker.walk()] yields when it is run to its end. *)
Definition walk_all (walker : Walker) : M (Walker * list MapperProperty) :=
  for_walk (λ w acc prop, mret (w, acc ++ [prop])) walker [].

(** ** Overrides *)

Inductive ovalue : Type :=
| pop_marker
| Value (j : json).

Record CollectionForOverrides : Type := {
  params : dict ovalue;
  not_used_keys : gset string;
}.

Fixpoint fold_result {A S} (f : S → A → result S) (s : S) (l : list A)
  : result S :=
  match l with
  | [] => Ok s
  | a :: l' => s' ← f s a; fold_result f s' l'
  end.

Module CollectionForOverrides.
Definition __init__ (params : dict ovalue) : CollectionForOverrides :=
  {| params := params; not_used_keys := list_to_set (dict_keys params) |}.

Definition __contains__ (self : CollectionForOverrides) (k : string) : bool :=
  dict_in k (params self).

(** One turn of the loop of [overrides]. *)
Definition overrides_item (acc : dict json * gset string)
    (kv : string * ovalue) : result (dict json * gset string) :=
  let '(basedict, nu) := acc in
  let '(k, v) := kv in
  basedict' ← match v with
               | pop_marker =>
                   if dict_in k basedict then Ok (dict_del k basedict)
                   else Raise (KeyError k)
               | Value j => Ok (dict_set k j basedict)
               end;
  if decide (k ∈ nu) then Ok (basedict', nu ∖ {[ k ]})
  else Raise (KeyError k).

Definition overrides (self : CollectionForOverrides) (basedict : dict json)
  : result (dict json * CollectionForOverrides) :=
  '(basedict', nu) ← fold_result overrides_item
                       (basedict, not_used_keys self) (params self);
  Ok (basedict', {| params := params self; not_used_keys := nu |}).
End CollectionForOverrides.

(** ** Descending into a related model *)

Record ChildFactory : Type := {
  splitter : string;
  bidirectional : bool;
}.

(** [prop.mapper] *)
Definition rp_target (models : registry) (prop : RelationshipProperty)
  : result Mapper :=
  match dict_get (rp_mapper prop) models with
  | Some m => Ok m
  | None => Raise (UnmappedClass (rp_mapper prop))
  end.

Module ChildFactory.
Definition default_excludes (prop : RelationshipProperty)
  : list (option string) :=
  [back_populates prop; backref prop].

Definition child_overrides (self : ChildFactory)
    (prop : RelationshipProperty) (overrides : CollectionForOverrides)
  : result CollectionForOverrides :=
  let name := rp_key prop in
  children ← get_children name (ParamsDict (params overrides))
               (splitter self) ParamsNone;
  match children with
  | ParamsDict d => Ok (CollectionForOverrides.__init__ d)
  | _ => Raise (AttributeError "keys")
  end.

Definition list_param (l : option (list string)) : pyparams unit :=
  match l with
  | Some l => ParamsList l
  | None => ParamsNone
  end.

Definition child_walker (self : ChildFactory) (models : registry)
    (prop : RelationshipProperty) (walker : Walker) (history : option nat)
  : M Walker :=
  let name := rp_key prop in
  excludes ← lift (get_children name (list_param (includes walker))
                     (splitter self) (ParamsList []));
  let excludes :=
    match excludes with
    | ParamsList l => Some <$> l
    | _ => []
    end in
  let excludes :=
    if bidirectional self then excludes
    else excludes ++ default_excludes prop in
  includes ← lift (get_children name (list_param (includes walker))
                     (splitter self) ParamsNone);
  let includes :=
    match includes with
    | ParamsList l => Some l
    | _ => None
    end in
  target ← lift (rp_target models prop);
  clone walker name target includes (Some excludes) history.

(** [depth and depth - 1] *)
Definition decrement (depth : option Z) : option Z :=
  match depth with
  | None => None
  | Some d => if decide (d = 0%Z) then Some d else Some (d - 1)%Z
  end.

(** [schema_factory._build_properties] is the argument [build]. *)
Definition child_schema {W O}
    (build : W → O → option Z → option nat → bool → M (dict json))
    (prop : RelationshipProperty) (walker : W) (overrides : O)
    (depth : option Z) (history : nat) : M (dict json) :=
  subschema ← build walker overrides (decrement depth) (Some history) false;
  if decide (rp_direction prop = ONETOMANY)
  then mret [("type", JStr "array"); ("items", JDict subschema)]
  else mret [("type", JStr "object"); ("properties", JDict subschema)].
End ChildFactory.

(** ** Decision policies *)

Inductive action : Type :=
| RELATIONSHIP
| FOREIGNKEY
| Literal (schema : json).

(** What a policy's [desicion] does next: yield a triple, or raise. *)
Inductive decided : Type :=
| Decided (a : action) (prop : MapperProperty) (opts : dict json)
| DecideThrow (e : exn).

Module RelationDesicion.
Definition desicion (walker : Walker) (hist : list MapperProperty)
    (prop : MapperProperty) (toplevel : bool) : list decided :=
  match prop with
  | RelationshipProp _ => [Decided RELATIONSHIP prop []]
  | ColumnProp _ => [Decided FOREIGNKEY prop []]
  end.
End RelationDesicion.

(** A set of columns, as [local_columns] and [remote_side] are. *)
Definition column_set (cs : list Column) : gset (string * string) :=
  list_to_set (column_id <$> cs).

Module ComfortableDesicion.
(** [for c in prop.local_columns:
       yield FOREIGNKEY, walker.mapper._props[c.name], {"relation": prop.key}] *)
Definition flatten (walker : Walker) (prop : RelationshipProperty)
  : list decided :=
  (λ c, match dict_get (c_name c) (_props (mapper walker)) with
        | Some p => Decided FOREIGNKEY p [("relation", JStr (rp_key prop))]
        | None => DecideThrow (KeyError (c_name c))
        end) <$> local_columns prop.

Definition desicion (walker : Walker) (hist : list MapperProperty)
    (prop : MapperProperty) (toplevel : bool) : list decided :=
  match prop with
  | RelationshipProp r =>
      if decide (rp_direction r = MANYTOONE) then
        if toplevel then flatten walker r
        else match hist with
             | [] => [DecideThrow IndexError]
             | ColumnProp _ :: _ => [DecideThrow (AttributeError "remote_side")]
             | RelationshipProp rp :: _ =>
                 if decide (column_set (local_columns r)
                            ≠ column_set (remote_side rp))
                 then flatten walker r
                 else []
             end
      else if decide (rp_direction r = MANYTOMANY) then
        [Decided (Literal (JDict [("type", JStr "array");
                                 ("items", JDict [("type", JStr "string")])]))
                 prop []]
      else [Decided RELATIONSHIP prop []]
  | ColumnProp _ => [Decided FOREIGNKEY prop []]
  end.
End ComfortableDesicion.

(** ** Restrictions *)

(** [column.type], when it is an instance. *)
Definition type_of (column : Column) : result sqltype :=
  match c_type column with
  | TypeObject t => Ok t
  | TypeClass _ => Raise (AttributeError "type")
  end.

Definition string_max_length (column : Column) (sub : dict json)
  : result (dict json) :=
  t ← type_of column;
  match ty_length t with
  | None => Raise (AttributeError "length")
  | Some None => Ok sub
  | Some (Some n) => Ok (dict_set "maxLength" (JInt n) sub)
  end.

Definition enum_one_of (column : Column) (sub : dict json)
  : result (dict json) :=
  t ← type_of column;
  match ty_enums t with
  | None => Raise (AttributeError "enums")
  | Some es => Ok (dict_set "enum" (JList (JStr <$> es)) sub)
  end.

Definition datetime_format (column : Column) (sub : dict json)
  : result (dict json) :=
  Ok (dict_set "format" (JStr "date-time") sub).

Definition date_format (column : Column) (sub : dict json)
  : result (dict json) :=
  Ok (dict_set "format" (JStr "date") sub).

Definition time_format (column : Column) (sub : dict json)
  : result (dict json) :=
  Ok (dict_set "format" (JStr "time") sub).

Abbreviation restriction := (Column → dict json → result (dict json)).

Definition default_restriction_dict : dict restriction := [
  ("sqlalchemy.types.String", string_max_length);
  ("sqlalchemy.types.Enum", enum_one_of);
  ("sqlalchemy.types.DateTime", datetime_format);
  ("sqlalchemy.types.Date", date_format);
  ("sqlalchemy.types.Time", time_format)
].

(** ** The schema factory *)

Inductive walker_factory : Type :=
| WalkerClass (cls : walker_class)
| HandControlledWalkerFactory (decisions : dict string).

Inductive decision_policy : Type :=
| RelationDesicion
| ComfortableDesicion.

Record SchemaFactory : Type := {
  walker : walker_factory;
  classifier : dict string;
  restriction_dict : dict restriction;
  child_factory : ChildFactory;
  relation_decision : decision_policy;
  reference_files : bool;
}.

Record JSONSchema : Type := {
  name : string;
  schema : dict json;
}.

(** [self.relation_decision.desicion(walker, prop, toplevel)] *)
Definition desicion (self : SchemaFactory) (walker : Walker)
    (hist : list MapperProperty) (prop : MapperProperty) (toplevel : bool)
  : list decided :=
  match relation_decision self with
  | RelationDesicion => RelationDesicion.desicion walker hist prop toplevel
  | ComfortableDesicion => ComfortableDesicion.desicion walker hist prop toplevel
  end.

(** [self.walker(model, includes=includes, excludes=excludes)] *)
Definition new_walker (self : SchemaFactory) (model : Mapper)
    (includes : option (list string))
    (excludes : option (list (option string))) : M Walker :=
  match walker self with
  | WalkerClass cls =>
      BaseModelWalker.__init__ cls model includes excludes None None
  | HandControlledWalkerFactory ds =>
      BaseModelWalker.__init__ HandControlledWalker model includes excludes
        None (Some ds)
  end.

(** [" ".join(doc.split())] *)
Definition _clean_doc (doc : string) : string :=
  join " " (split_whitespace [] doc).

(** The local variables of [_build_properties] that its loop assigns:
    [prop_schema], the override collection it was called with, and [sub],
    which is unbound until the first column has been handled. *)
Record frame : Type := {
  fr_prop_schema : dict json;
  fr_overrides : CollectionForOverrides;
  fr_sub : option (dict json);
}.

Section SchemaFactory.
Variable self : SchemaFactory.
Variable models : registry.

Fixpoint restrict (column : Column) (D : dict json) (tclss : list tclass)
  : result (dict json) :=
  match tclss with
  | [] => Ok D
  | tcls :: rest =>
      if decide (cls_name tcls = "sqlalchemy.sql.type_api.TypeEngine")
      then Ok D
      else match dict_get (cls_name tcls) (restriction_dict self) with
           | Some fn => D' ← fn column D; restrict column D' rest
           | None => restrict column D rest
           end
  end.

Definition _add_restriction_if_found (D : dict json) (column : Column)
    (itype : tclass) : result (dict json) :=
  restrict column D (mro itype).

(** [any(not c.nullable and c.default is None for c in columns)] *)
Definition any_required (prop : MapperProperty) : bool :=
  let columns := getattr_columns prop in
  existsb (λ c, negb (nullable c) && bool_decide (default c = None)) columns.

Definition _detect_required (walker : Walker) : M (list string * Walker) :=
  '(walker', r) ←
    for_walk (λ w r prop,
                if any_required prop
                then mret (w, r ++ [key prop])
                else mret (w, r))
             walker [];
  mret (r, walker').

(** [val["type"]] *)
Definition val_type (val : dict json) : result json :=
  match dict_get "type" val with
  | Some t => Ok t
  | None => Raise (KeyError "type")
  end.

(** [root_schema["definitions"][clsname] = val] *)
Definition set_definition (clsname : string) (val : dict json) : M unit :=
  root ← get_root_schema;
  match dict_get "definitions" root with
  | Some (JDict defs) =>
      put_root_schema
        (dict_set "definitions" (JDict (dict_set clsname (JDict val) defs))
                  root)
  | _ => raise (TypeError "definitions")
  end.

(** The dictionary [val] is stored in [root_schema["definitions"]] before
    its [required] entry is assigned.  The stored value and [val] are the
    same object, so the assignment shows in the stored definition: the
    model writes the definition again. *)
Definition _add_property_with_reference (walker : Walker)
    (current_schema : dict json) (prop : RelationshipProperty)
    (val : dict json) : M (dict json * Walker) :=
  target ← lift (rp_target models prop);
  if reference_files self then
    let name := mapped_table_name target in
    let ref := JDict [("$ref", JStr (String.app name ".json#"))] in
    many ← (if bool_decide (rp_direction prop = MANYTOONE
                            ∨ rp_direction prop = MANYTOMANY)
            then mret true
            else t ← lift (val_type val);
                 mret (json_eq_str t "array"));
    let current_schema :=
      if many : bool
      then dict_set (rp_key prop)
             (JDict [("type", JStr "array"); ("items", ref)]) current_schema
      else dict_set (rp_key prop) ref current_schema in
    '(_, walker) ← _detect_required walker;
    mret (current_schema, walker)
  else
    root ← get_root_schema;
    let root :=
      if dict_in "definitions" root then root
      else dict_set "definitions" (JDict []) root in
    put_root_schema root;;
    let clsname := class_name target in
    let ref := JDict [("$ref", JStr (String.app "#/definitions/" clsname))] in
    t ← lift (val_type val);
    '(current_schema, val) ←
      (if json_eq_str t "object"
       then mret (dict_set (rp_key prop) ref current_schema, val)
       else
         match dict_get "items" val with
         | None => raise (KeyError "items")
         | Some items =>
             mret (dict_set (rp_key prop)
                     (JDict [("type", JStr "array"); ("items", ref)])
                     current_schema,
                   dict_set "properties" items
                     (dict_del "items" (dict_set "type" (JStr "object") val)))
         end);
    set_definition clsname val;;
    '(required, walker) ← _detect_required walker;
    set_definition clsname
      (dict_set "required" (JList (JStr <$> required)) val);;
    mret (current_schema, walker).

(** The array branch of the column schema: [sub["items"]]. *)
Definition array_items (t : sqltype) (sub : dict json) : result (dict json) :=
  match ty_item_type t with
  | None => Ok sub
  | Some item_type =>
      '(_, item_type_str) ← Classifier.__getitem__ (classifier self) item_type;
      let items := [("type", JStr item_type_str)] in
      if decide (item_type_str = "string") then
        match ty_length item_type with
        | None => Raise (AttributeError "length")
        | Some None => Raise (TypeError "'>' not supported")
        | Some (Some length) =>
            if decide (0 < length)%Z
            then Ok (dict_set "items"
                       (JDict (dict_update items
                                 [("maxLength", JStr (pretty length))])) sub)
            else Ok (dict_set "items" (JDict items) sub)
        end
      else Ok (dict_set "items" (JDict items) sub)
  end.

(** The body of [for column in prop.columns]; the result is [sub]. *)
Definition column_schema (column : Column) (opts : dict json)
    (overrides : CollectionForOverrides)
  : result (dict json * CollectionForOverrides) :=
  match c_type column with
  | TypeClass _ => Raise (TypeError "exceptions must derive from BaseException")
  | TypeObject t =>
      '(itype, ty) ← Classifier.__getitem__ (classifier self) t;
      let sub := [("type", JStr ty)] in
      sub ← (if decide (ty = "array") then array_items t sub else Ok sub);
      sub ← _add_restriction_if_found sub column itype;
      let sub :=
        match doc column with
        | Some d => if decide (d = "") then sub
                    else dict_set "description" (JStr (_clean_doc d)) sub
        | None => sub
        end in
      '(sub, overrides) ←
        (if CollectionForOverrides.__contains__ overrides (c_name column)
         then CollectionForOverrides.overrides overrides sub
         else Ok (sub, overrides));
      let sub := match opts with [] => sub | _ => dict_update sub opts end in
      Ok (sub, overrides)
  end.

Definition foreignkey_action (fr : frame) (prop : MapperProperty)
    (opts : dict json) : result frame :=
  match prop with
  | RelationshipProp _ => Raise (AttributeError "columns")
  | ColumnProp cp =>
      fr ← fold_result
             (λ fr column,
                '(sub, ov) ← column_schema column opts (fr_overrides fr);
                Ok {| fr_prop_schema := dict_set (c_name column) (JDict sub)
                                       (fr_prop_schema fr);
                      fr_overrides := ov; fr_sub := Some sub |})
             fr (columns cp);
      match fr_sub fr with
      | None => Raise (UnboundLocalError "sub")
      | Some s =>
          Ok {| fr_prop_schema := dict_set (cp_key cp) (JDict s) (fr_prop_schema fr);
                fr_overrides := fr_overrides fr; fr_sub := fr_sub fr |}
      end
  end.

Definition relationship_action
    (build : Walker → CollectionForOverrides → option Z → option nat → bool
             → M (dict json))
    (depth : option Z) (history : nat) (walker : Walker) (fr : frame)
    (prop : MapperProperty) : M (Walker * frame) :=
  match prop with
  | ColumnProp _ => raise (AttributeError "mapper")
  | RelationshipProp r =>
      list_append history prop;;
      subwalker ← ChildFactory.child_walker (child_factory self) models r
                    walker (Some history);
      suboverrides ← lift (ChildFactory.child_overrides (child_factory self)
                             r (fr_overrides fr));
      value ← ChildFactory.child_schema build r subwalker suboverrides
                depth history;
      '(ps, walker) ← _add_property_with_reference walker (fr_prop_schema fr)
                        r value;
      mret (walker, {| fr_prop_schema := ps; fr_overrides := fr_overrides fr;
                       fr_sub := fr_sub fr |})
  end.

(** The body of the inner loop of [_build_properties]. *)
Definition on_decided
    (build : Walker → CollectionForOverrides → option Z → option nat → bool
             → M (dict json))
    (depth : option Z) (history : nat) (wf : Walker * frame) (d : decided)
  : M (Walker * frame) :=
  let '(walker, fr) := wf in
  match d with
  | DecideThrow e => raise e
  | Decided RELATIONSHIP prop _ =>
      relationship_action build depth history walker fr prop
  | Decided FOREIGNKEY prop opts =>
      fr ← lift (foreignkey_action fr prop opts);
      mret (walker, fr)
  | Decided (Literal j) prop _ =>
      mret (walker, {| fr_prop_schema := dict_set (key prop) j (fr_prop_schema fr);
                       fr_overrides := fr_overrides fr; fr_sub := fr_sub fr |})
  end.

(** The body of the outer loop of [_build_properties]:
    [for action, prop, opts in self.relation_decision.desicion(...)]. *)
Definition on_walked
    (build : Walker → CollectionForOverrides → option Z → option nat → bool
             → M (dict json))
    (depth : option Z) (history : nat) (toplevel : bool)
    (walker : Walker) (fr : frame) (prop : MapperProperty)
  : M (Walker * frame) :=
  hist ← walker_history walker;
  foldM (on_decided build depth history) (walker, fr)
        (desicion self walker hist prop toplevel).

(** The recursion follows the relationships of the model graph; [fuel]
    bounds its depth.  The result carries the walker and the override
    collection as the call leaves them. *)
Fixpoint _build_properties (fuel : nat) (walker : Walker)
    (overrides : CollectionForOverrides) (depth : option Z)
    (history : option nat) (toplevel : bool)
  : M (dict json * Walker * CollectionForOverrides) :=
  match fuel with
  | 0 => out_of_fuel
  | S fuel' =>
      if match depth with
         | Some d => bool_decide (d ≤ 0)%Z
         | None => false
         end
      then mret ([], walker, overrides)
      else
        history ← match history with
                   | None => new_list
                   | Some h => mret h
                   end;
        '(walker, fr) ←
          for_walk
            (on_walked (λ w o d h t,
                          r ← _build_properties fuel' w o d h t;
                          mret r.1.1)
                       depth history toplevel)
            walker
            {| fr_prop_schema := []; fr_overrides := overrides; fr_sub := None |};
        mret (fr_prop_schema fr, walker, fr_overrides fr)
  end.

Definition initial_schema (model : Mapper) : dict json := [
  ("$schema", JStr "http://json-schema.org/draft-04/schema#");
  ("title", JStr (class_name model));
  ("type", JStr "object")
].

Definition generate (fuel : nat) (model : Mapper)
    (includes excludes : option (list string))
    (overrides : option (dict ovalue)) (depth : option Z) : M JSONSchema :=
  walker ← new_walker self model includes
              (fmap (M:=list) Some <$> excludes);
  let overrides :=
    CollectionForOverrides.__init__ (from_option id [] overrides) in
  put_root_schema (initial_schema model);;
  '(properties, walker, overrides) ←
    _build_properties fuel walker overrides depth None true;
  schema ← get_root_schema;
  put_root_schema (dict_set "properties" (JDict properties) schema);;
  if decide (not_used_keys overrides ≠ ∅)
  then raise (InvalidStatus (InvalidOverrides (not_used_keys overrides)))
  else
    schema ← get_root_schema;
    let schema :=
      match class_doc model with
      | Some d => if decide (d = "") then schema
                  else dict_set "description" (JStr (_clean_doc d)) schema
      | None => schema
      end in
    '(required, _) ← _detect_required walker;
    let schema :=
      match required with
      | [] => schema
      | _ => dict_set "required" (JList (JStr <$> required)) schema
      end in
    put_root_schema schema;;
    (* [model.__mapper__.class_._tablename] *)
    match _tablename model with
    | Some tablename => mret {| name := tablename; schema := schema |}
    | None => raise (AttributeError "_tablename")
    end.

Definition empty_store : store := {| lists := []; root_schema := [] |}.

Definition __call__ (fuel : nat) (model : Mapper)
    (includes excludes : option (list string))
    (overrides : option (dict ovalue)) (depth : option Z)
  : option (result JSONSchema) :=
  match generate fuel model includes excludes overrides depth empty_store with
  | Some (Ok (r, _)) => Some (Ok r)
  | Some (Raise e) => Some (Raise e)
  | None => None
  end.
End SchemaFactory.

(** ** Notions used in the statements *)

(** The filters are both given and have a key in common. *)
Definition share_a_key (includes : option (list string))
    (excludes : option (list (option string))) : Prop :=
  ∃ inc exc k,
    includes = Some inc ∧ excludes = Some exc ∧ k ∈ inc ∧ Some k ∈ exc.

(** The replacement values of an override mapping. *)
Definition replacements (ps : dict ovalue) : dict json :=
  omap (λ kv, match kv.2 with
              | Value j => Some (kv.1, j)
              | pop_marker => None
              end) ps.

(** The walker classes whose [walk] tests the history. *)
Definition guards_history (cls : walker_class) : bool :=
  match cls with
  | AlsoChildrenWalker | HandControlledWalker => true
  | SingleModelWalker | OneModelOnlyWalker => false
  end.

(** Every property that the mapper [m] can hand to a walker. *)
Definition mapper_props (m : Mapper) : list MapperProperty :=
  (_props m).*2 ++ (RelationshipProp <$> relationships m).

(** The properties of the model graph: those of the root model and of
    every mapped class. *)
Definition universe (models : registry) (model : Mapper)
  : gset (string * string) :=
  list_to_set (prop_id <$> (mapper_props model ++ (models.*2 ≫= mapper_props))).

(** The properties recorded in the history list [h]. *)
Definition visited (h : nat) (st : store) : gset (string * string) :=
  list_to_set (prop_id <$> deref h st).

(** A computation is quiet when it returns or raises in every store and
    leaves the history lists as they are. *)
Definition quiet {A} (m : M A) : Prop :=
  ∀ st, ∃ r, m st = Some r ∧ ∀ x st', r = Ok (x, st') → lists st' = lists st.

(** A walker keeps its class, its history list and its mapper. *)
Definition same_walker (w w' : Walker) : Prop :=
  w_class w' = w_class w ∧ history w' = history w ∧ mapper w' = mapper w.

(** The history list [h] exists in the store. *)
Definition valid (h : nat) (st : store) : Prop := (h < length (lists st))%nat.

(** The list [h] has grown from [st] to [st'] by properties that were not
    in it and that are pairwise distinct. *)
Definition extends (h : nat) (st st' : store) : Prop :=
  (length (lists st) ≤ length (lists st'))%nat
  ∧ ∃ added, deref h st' = deref h st ++ added
      ∧ NoDup (prop_id <$> added)
      ∧ ∀ p, p ∈ added → prop_id p ∉ prop_id <$> deref h st.

(** The decision asks for a descent into a relationship. *)
Definition is_relationship_decision (d : decided) : Prop :=
  match d with
  | Decided RELATIONSHIP _ _ => True
  | _ => False
  end.

(** The mapper belongs to the model graph. *)
Definition in_graph (models : registry) (model m : Mapper) : Prop :=
  m = model ∨ m ∈ models.*2.

(** The number of properties of the model graph that are not yet in the
    history list [h]. *)
Definition remaining (models : registry) (model : Mapper) (h : nat)
    (st : store) : nat :=
  size (universe models model ∖ visited h st).

(** The walker that the factory constructs tests the history. *)
Definition factory_guards_history (self : SchemaFactory) : bool :=
  match walker self with
  | WalkerClass cls => guards_history cls
  | HandControlledWalkerFactory _ => true
  end.

(** [e[len(prefix):]] when [e] starts with [prefix] *)
Definition strip_prefix (prefix e : string) : option string :=
  if startswith e prefix then Some (drop_chars (String.length prefix) e)
  else None.

(** The walker after [self.walking.append(...)] calls: the same walker
    with another [walking] list. *)
Definition set_walking (w : Walker) (wk : list string) : Walker :=
  {| w_class := w_class w; mapper := mapper w; includes := includes w;
     excludes := excludes w; history := history w; decisions := decisions w;
     walking := wk |}.

(** A computation ends, in a result or in an exception, in every store. *)
Definition total {A} (m : M A) : Prop := ∀ st, is_Some (m st).

(** The root schemas of two stores agree on the keys in [P]. *)
Definition root_agrees (P : string → Prop) (st st' : store) : Prop :=
  ∀ k, P k → dict_get k (root_schema st') = dict_get k (root_schema st).

(** A computation that returns leaves the root schema as it was on the keys
    in [P]. *)
Definition keeps_root (P : string → Prop) {A} (m : M A) : Prop :=
  ∀ st x st', m st = Returns (x, st') → root_agrees P st st'.

(** The document that [__call__] returns: the root schema as the build
    left it, with the properties, the description and the [required]
    list. *)
Definition finished_schema (model : Mapper) (props : dict json)
    (required : list string) (root : dict json) : dict json :=
  let schema := dict_set "properties" (JDict props) root in
  let schema :=
    match class_doc model with
    | Some d => if decide (d = "") then schema
                else dict_set "description" (JStr (_clean_doc d)) schema
    | None => schema
    end in
  match required with
  | [] => schema
  | _ => dict_set "required" (JList (JStr <$> required)) schema
  end.

(** ** Example models *)

Module Fixtures.
(** A part of the class hierarchy of the mapper's column types. *)
Definition object_ : tclass := TClass "builtins.object" [].
Definition Visitable : tclass :=
  TClass "sqlalchemy.sql.visitors.Visitable" [object_].
Definition TypeEngine_ : tclass :=
  TClass "sqlalchemy.sql.type_api.TypeEngine" [Visitable; object_].
Definition Integer : tclass :=
  TClass "sqlalchemy.types.Integer" [TypeEngine_; Visitable; object_].
Definition Concatenable : tclass :=
  TClass "sqlalchemy.types.Concatenable" [object_].
Definition String_ : tclass :=
  TClass "sqlalchemy.types.String"
    [Concatenable; TypeEngine_; Visitable; object_].
Definition TypeDecorator_ : tclass :=
  TClass "sqlalchemy.types.TypeDecorator" [TypeEngine_; Visitable; object_].
Definition GUID : tclass :=
  TClass "myapp.types.GUID" [TypeDecorator_; TypeEngine_; Visitable; object_].
Definition Wrapped : tclass :=
  TClass "myapp.types.Wrapped" [TypeDecorator_; TypeEngine_; Visitable; object_].

Definition integer : sqltype :=
  TypeEngine Integer None None None (Str "INTEGER").
Definition varchar (n : option Z) : sqltype :=
  TypeEngine String_ (Some n) None None
    (Str match n with
         | Some k => String.app "VARCHAR(" (String.app (pretty k) ")")
         | None => "VARCHAR"
         end).
(** A decorator over [String(32)], and a decorator over that decorator. *)
Definition guid : sqltype := TypeDecorator GUID (varchar (Some 32%Z)).
Definition wrapped_guid : sqltype := TypeDecorator Wrapped guid.

Definition column (table name : string) (ty : sqltype) (nullable : bool)
    (fks : list string) : Column :=
  {| c_table := table; c_name := name; c_type := TypeObject ty;
     nullable := nullable; default := None; foreign_keys := fks;
     doc := None |}.

Definition column_prop (cls : string) (c : Column)
  : string * MapperProperty :=
  (c_name c, ColumnProp {| cp_parent := cls; cp_key := c_name c;
                           columns := [c] |}).

Definition factory (cls : walker_class) (policy : decision_policy)
    (files : bool) : SchemaFactory :=
  {| walker := WalkerClass cls;
     classifier := default_column_to_schema;
     restriction_dict := default_restriction_dict;
     child_factory := {| splitter := "."; bidirectional := false |};
     relation_decision := policy;
     reference_files := files |}.

(** [User]: a non-nullable integer [id] and a nullable [name] of at most
    50 characters. *)
Definition users_id : Column := column "users" "id" integer false [].
Definition users_name : Column :=
  column "users" "name" (varchar (Some 50%Z)) true [].
Definition User : Mapper :=
  {| class_name := "User"; _tablename := Some "users";
     mapped_table_name := "users"; class_doc := None;
     local_table_columns := [users_id; users_name];
     _props := [column_prop "User" users_id; column_prop "User" users_name];
     relationships := [] |}.

(** [Manager] inherits from [Employee] with a table of its own; both
    tables have a [name] column, which the mapper combines into one
    property. *)
Definition managers_name : Column :=
  column "managers" "name" (varchar None) true [].
Definition employees_name : Column :=
  column "employees" "name" (varchar None) false [].
Definition Manager_name : MapperProperty :=
  ColumnProp {| cp_parent := "Manager"; cp_key := "name";
                columns := [managers_name; employees_name] |}.
Definition Manager : Mapper :=
  {| class_name := "Manager"; _tablename := Some "managers";
     mapped_table_name := "managers"; class_doc := None;
     local_table_columns := [managers_name];
     _props := [("name", Manager_name)];
     relationships := [] |}.

(** [Node]: two one-to-many relationships to itself, neither the reverse
    of the other. *)
Definition nodes_id : Column := column "nodes" "id" integer false [].
Definition self_relationship (key : string) : RelationshipProperty :=
  {| rp_parent := "Node"; rp_key := key; rp_mapper := "Node";
     rp_direction := ONETOMANY; back_populates := None; backref := None;
     local_columns := [nodes_id]; remote_side := [] |}.
Definition Node_first : RelationshipProperty := self_relationship "first".
Definition Node_second : RelationshipProperty := self_relationship "second".
Definition Node : Mapper :=
  {| class_name := "Node"; _tablename := Some "nodes";
     mapped_table_name := "nodes"; class_doc := None;
     local_table_columns := [nodes_id];
     _props := [column_prop "Node" nodes_id;
                ("first", RelationshipProp Node_first);
                ("second", RelationshipProp Node_second)];
     relationships := [Node_first; Node_second] |}.

(** [Owner] has many [Pet]s and many [Car]s; a [Car] has a many-to-one
    [owner] that is not declared as the reverse of [Owner.cars]. *)
Definition owners_id : Column := column "owners" "id" integer false [].
Definition pets_tag : Column := column "pets" "tag" integer false [].
Definition pets_nickname : Column :=
  column "pets" "nickname" (varchar (Some 20%Z)) true [].
Definition pets_owner_id : Column :=
  column "pets" "owner_id" integer true ["owners.id"].
Definition cars_plate : Column :=
  column "cars" "plate" (varchar (Some 8%Z)) false [].
Definition cars_owner_id : Column :=
  column "cars" "owner_id" integer true ["owners.id"].

Definition Owner_pets : RelationshipProperty :=
  {| rp_parent := "Owner"; rp_key := "pets"; rp_mapper := "Pet";
     rp_direction := ONETOMANY; back_populates := None; backref := None;
     local_columns := [owners_id]; remote_side := [pets_owner_id] |}.
Definition Owner_cars : RelationshipProperty :=
  {| rp_parent := "Owner"; rp_key := "cars"; rp_mapper := "Car";
     rp_direction := ONETOMANY; back_populates := None; backref := None;
     local_columns := [owners_id]; remote_side := [cars_owner_id] |}.
Definition Car_owner : RelationshipProperty :=
  {| rp_parent := "Car"; rp_key := "owner"; rp_mapper := "Owner";
     rp_direction := MANYTOONE; back_populates := None; backref := None;
     local_columns := [cars_owner_id]; remote_side := [owners_id] |}.

Definition Pet : Mapper :=
  {| class_name := "Pet"; _tablename := Some "pets";
     mapped_table_name := "pets"; class_doc := None;
     local_table_columns := [pets_tag; pets_nickname; pets_owner_id];
     _props := [column_prop "Pet" pets_tag; column_prop "Pet" pets_nickname;
                column_prop "Pet" pets_owner_id];
     relationships := [] |}.
Definition Car : Mapper :=
  {| class_name := "Car"; _tablename := Some "cars";
     mapped_table_name := "cars"; class_doc := None;
     local_table_columns := [cars_plate; cars_owner_id];
     _props := [column_prop "Car" cars_plate;
                column_prop "Car" cars_owner_id;
                ("owner", RelationshipProp Car_owner)];
     relationships := [Car_owner] |}.
(** [Owner] with the relationships [rels]. *)
Definition Owner_with (rels : list RelationshipProperty) : Mapper :=
  {| class_name := "Owner"; _tablename := Some "owners";
     mapped_table_name := "owners"; class_doc := None;
     local_table_columns := [owners_id];
     _props := column_prop "Owner" owners_id
               :: ((λ r, (rp_key r, RelationshipProp r)) <$> rels);
     relationships := rels |}.
Definition Owner : Mapper := Owner_with [Owner_pets; Owner_cars].

Definition garage : registry :=
  [("Owner", Owner); ("Pet", Pet); ("Car", Car)].
End Fixtures.

(** * Properties *)

(** ** Results and stores *)

Lemma bind_Ok {A B} (f : A → M B) (m : M A) st b st' :
  (m ≫= f) st = Returns (b, st') →
  ∃ a st1, m st = Returns (a, st1) ∧ f a st1 = Returns (b, st').
Proof.
  unfold mbind, M_bind. destruct (m st) as [[[a st1]|]|]; [eauto|done..].
Qed.

Lemma bind_unfold {A B} (f : A → M B) (m : M A) st :
  (m ≫= f) st = match m st with
                | Some (Ok (a, st')) => f a st'
                | Some (Raise e) => Some (Raise e)
                | None => None
                end.
Proof. reflexivity. Qed.

Lemma foldM_cons {A S} (f : S → A → M S) s a l st :
  foldM f s (a :: l) st = match f s a st with
                          | Some (Ok (s', st')) => foldM f s' l st'
                          | Some (Raise e) => Some (Raise e)
                          | None => None
                          end.
Proof. reflexivity. Qed.

Lemma walk_step_Mark {S} (body : Walker → S → MapperProperty → M (Walker * S))
    w acc n st :
  walk_step body (w, acc) (Mark n) st
  = Returns (({| w_class := w_class w; mapper := mapper w; includes := includes w;
            excludes := excludes w; history := history w;
            decisions := decisions w; walking := walking w ++ [n] |}, acc), st).
Proof. reflexivity. Qed.

Lemma walk_step_Yield {S} (body : Walker → S → MapperProperty → M (Walker * S))
    w acc p st :
  walk_step body (w, acc) (Yield p) st
  = if walk w (deref (history w) st) p then body w acc p st
    else Returns ((w, acc), st).
Proof.
  unfold walk_step. rewrite bind_unfold. unfold walker_history, read_list.
  by destruct (walk _ _ _).
Qed.

(** ** C9: classification of decorated types *)

Lemma inheritance_finds mapping scs sc :
  sc ∈ scs → dict_in (cls_name sc) mapping = true →
  is_Some (Classifier.inheritance mapping scs).
Proof.
  intros Hin Hm. induction Hin as [sc scs|sc sc' scs _ IH]; simpl.
  - apply bool_decide_eq_true in Hm as [v Hv]. rewrite Hv. eauto.
  - destruct (dict_get (cls_name sc') mapping); eauto.
Qed.

(** C9, as stated, fails: the classifier unwraps one level only.  With
    [GUID] registered in the mapping, a decorator that wraps the [GUID]
    decorator is classified by the class [GUID], while the wrapped [GUID]
    instance itself is classified by the [String] it wraps. *)
Lemma C9_decorator_over_decorator :
  let mapping := (cls_name Fixtures.GUID, "string")
                 :: default_column_to_schema in
  dict_in (cls_name (__class__ Fixtures.guid)) mapping = true
  ∧ Classifier.__getitem__ mapping Fixtures.wrapped_guid
    = Ok (Fixtures.GUID, "string")
  ∧ Classifier.__getitem__ mapping Fixtures.guid
    = Ok (Fixtures.String_, "string")
  ∧ Classifier.__getitem__ mapping Fixtures.wrapped_guid
    ≠ Classifier.__getitem__ mapping Fixtures.guid.
Proof. repeat split; try reflexivity. discriminate. Qed.

(** C9 (amended): a type decorator whose [impl] is not itself a type
    decorator, and whose [impl] has its class or an ancestor of it in the
    mapping, is classified exactly as [impl] is: both lookups return the same
    pair of matched class and primitive type name. *)
Theorem C9_classify_decorator mapping cls impl :
  isinstance_TypeDecorator impl = false →
  (∃ sc, sc ∈ mro (__class__ impl) ∧ dict_in (cls_name sc) mapping = true) →
  ∃ matched primitive,
    Classifier.__getitem__ mapping impl = Ok (matched, primitive)
    ∧ Classifier.__getitem__ mapping (TypeDecorator cls impl)
      = Ok (matched, primitive).
Proof.
  intros Hplain (sc & Hsc & Hm).
  destruct impl as [c l e it s|c i]; [|done].
  assert (Classifier.__getitem__ mapping
            (TypeDecorator cls (TypeEngine c l e it s))
          = Classifier.__getitem__ mapping (TypeEngine c l e it s)) as ->
    by reflexivity.
  unfold Classifier.__getitem__. cbn [__class__] in *.
  destruct (dict_get (cls_name c) mapping) as [v|] eqn:Hc; [by eauto|].
  destruct (inheritance_finds mapping (mro c) sc Hsc Hm) as [[m p] Hr].
  rewrite Hr. eauto.
Qed.

Lemma C9_classify_decorator_witness :
  isinstance_TypeDecorator (Fixtures.varchar (Some 32%Z)) = false
  ∧ ∃ matched primitive,
      Classifier.__getitem__ default_column_to_schema
        (Fixtures.varchar (Some 32%Z)) = Ok (matched, primitive)
      ∧ Classifier.__getitem__ default_column_to_schema Fixtures.guid
        = Ok (matched, primitive).
Proof.
  split; [reflexivity|].
  apply (C9_classify_decorator default_column_to_schema Fixtures.GUID
           (Fixtures.varchar (Some 32%Z))); [reflexivity|].
  exists Fixtures.String_. split; [apply list_elem_of_here|reflexivity].
Defined.

(** ** C7: conflicting filters *)

Lemma intersects_spec inc exc :
  intersects inc exc = true ↔ ∃ k, k ∈ inc ∧ Some k ∈ exc.
Proof.
  unfold intersects. rewrite existsb_exists. split.
  - intros (k & Hk & Hx). exists k. split; [by apply list_elem_of_In|].
    by apply bool_decide_eq_true in Hx.
  - intros (k & Hk & Hx). exists k. split; [by apply list_elem_of_In|].
    by apply bool_decide_eq_true.
Qed.

Lemma conflict_test_spec includes excludes :
  truthy includes && truthy excludes
  && intersects (from_option id [] includes) (from_option id [] excludes) = true
  ↔ share_a_key includes excludes.
Proof.
  split.
  - intros H. apply andb_true_iff in H as [H Hi].
    apply andb_true_iff in H as [Hinc Hexc].
    destruct includes as [[|k inc]|], excludes as [[|x exc]|]; try done.
    apply intersects_spec in Hi as (k' & ? & ?). by exists (k :: inc), (x :: exc), k'.
  - intros (inc & exc & k & -> & -> & Hk & Hx). simpl.
    assert (intersects inc exc = true) as -> by (apply intersects_spec; eauto).
    destruct inc; [by apply elem_of_nil in Hk|].
    destruct exc; [by apply elem_of_nil in Hx|]. done.
Qed.

Lemma history_or_new_Ok history st :
  ∃ h st', BaseModelWalker.history_or_new history st = Returns (h, st')
           ∧ root_schema st' = root_schema st.
Proof.
  destruct history as [r|]; simpl; [|by eauto].
  unfold mbind, M_bind, read_list. destruct (deref r st); simpl; eauto.
Qed.

(** C7: constructing a walker of any class, with any model, history and
    store, raises [InvalidStatus] when [includes] and [excludes] are both
    given and share a key, and returns a walker otherwise.  The schema
    factory constructs its walker first: with filters that share a key it
    raises the same error whatever the model and without entering the
    traversal (even with no fuel at all). *)
Theorem C7_walker_construction cls model includes excludes hist decisions st :
  (share_a_key includes excludes →
     BaseModelWalker.__init__ cls model includes excludes hist decisions st
     = Raises (InvalidStatus (Conflict (from_option id [] includes)
                                      (from_option id [] excludes)))
     ∧ ∀ self models fuel overrides depth ks,
         excludes = Some (Some <$> ks) →
         __call__ self models fuel model includes (Some ks) overrides depth
         = Raises (InvalidStatus (Conflict (from_option id [] includes)
                                          (Some <$> ks))))
  ∧ (¬ share_a_key includes excludes →
     ∃ w st',
       BaseModelWalker.__init__ cls model includes excludes hist decisions st
       = Returns (w, st')
       ∧ w = {| w_class := cls; mapper := model; includes := includes;
                excludes := excludes; history := history w;
                decisions := decisions; walking := [] |}).
Proof.
  split; intros Hshare.
  - apply conflict_test_spec in Hshare.
    assert (∀ c h d s,
      BaseModelWalker.__init__ c model includes excludes h d s
      = Raises (InvalidStatus (Conflict (from_option id [] includes)
                                       (from_option id [] excludes)))) as Hinit.
    { intros c h d s. unfold BaseModelWalker.__init__.
      destruct (history_or_new_Ok h s) as (r & s' & Hh & _).
      unfold mbind, M_bind at 1. rewrite Hh, Hshare. done. }
    split; [apply Hinit|].
    intros self models fuel overrides depth ks ->.
    unfold __call__, generate, new_walker.
    unfold mbind at 1, M_bind at 1. simpl in Hinit.
    destruct (walker self); rewrite Hinit; done.
  - unfold BaseModelWalker.__init__.
    destruct (history_or_new_Ok hist st) as (r & s' & Hh & _).
    unfold mbind, M_bind at 1. rewrite Hh.
    destruct (_ && _) eqn:Ht; [by apply conflict_test_spec in Ht|].
    eexists _, _. split; [done|]. done.
Qed.

Lemma C7_walker_construction_witness :
  share_a_key (Some ["id"]) (Some [Some "id"])
  ∧ ∀ fuel,
      __call__ (Fixtures.factory SingleModelWalker RelationDesicion false) []
        fuel Fixtures.User (Some ["id"]) (Some ["id"]) None None
      = Raises (InvalidStatus (Conflict ["id"] [Some "id"])).
Proof.
  assert (share_a_key (Some ["id"]) (Some [Some "id"])) as Hshare.
  { exists ["id"], [Some "id"], "id".
    repeat split; apply list_elem_of_here. }
  split; [exact Hshare|]. intros fuel.
  destruct (C7_walker_construction SingleModelWalker Fixtures.User
              (Some ["id"]) (Some [Some "id"]) None None empty_store)
    as [Hconflict _].
  destruct (Hconflict Hshare) as [_ Hcall].
  apply (Hcall _ _ fuel None None ["id"]). reflexivity.
Defined.

(** ** C1: the [required] list *)

(** [_detect_required] keeps, of the properties that the walk yields, the
    keys of those for which [any_required] holds. *)
Lemma foldM_detect steps : ∀ w acc r st w' ps' st',
  foldM (walk_step (λ w acc prop, mret (w, acc ++ [prop]))) (w, acc) steps st
  = Returns ((w', ps'), st') →
  ∃ qs, ps' = acc ++ qs
    ∧ foldM (walk_step (λ w r prop, if any_required prop
                                    then mret (w, r ++ [key prop])
                                    else mret (w, r)))
            (w, r) steps st
      = Returns ((w', r ++ (key <$> filter (λ p, any_required p = true) qs)), st').
Proof.
  induction steps as [|s steps IH]; intros w acc r st w' ps' st'.
  - intros [= <- <- <-]. exists []. by rewrite !app_nil_r.
  - rewrite !foldM_cons. destruct s as [n|p|e]; [| |done].
    + rewrite !walk_step_Mark. intros Hrest.
      destruct (IH _ _ r _ _ _ _ Hrest) as (qs & -> & Hd). eauto.
    + rewrite !walk_step_Yield.
      destruct (walk w (deref (history w) st) p) eqn:Hw.
      * intros Hrest. destruct (any_required p) eqn:Hp; cbn.
        -- destruct (IH _ _ (r ++ [key p]) _ _ _ _ Hrest) as (qs & -> & Hd).
           exists (p :: qs). split; [by rewrite <-app_assoc|].
           rewrite filter_cons_True by done. rewrite Hd.
           by rewrite fmap_cons, <-app_assoc.
        -- destruct (IH _ _ r _ _ _ _ Hrest) as (qs & -> & Hd).
           exists (p :: qs). split; [by rewrite <-app_assoc|].
           rewrite filter_cons_False by (by rewrite Hp). by rewrite Hd.
      * intros Hrest. destruct (IH _ _ r _ _ _ _ Hrest) as (qs & -> & Hd).
        eauto.
Qed.

Lemma detect_required_walk_all walker st walker' ps st' :
  walk_all walker st = Returns ((walker', ps), st') →
  _detect_required walker st
  = Returns ((key <$> filter (λ p, any_required p = true) ps, walker'), st').
Proof.
  intros Hrun. destruct (foldM_detect _ _ _ [] _ _ _ _ Hrun) as (qs & -> & Hd).
  unfold _detect_required, for_walk. unfold mbind, M_bind.
  simpl in Hd. rewrite Hd. done.
Qed.

Lemma any_required_spec p :
  any_required p = true
  ↔ ∃ c, c ∈ getattr_columns p ∧ nullable c = false ∧ default c = None.
Proof.
  unfold any_required. rewrite existsb_exists. split.
  - intros (c & Hc & Ht). exists c. apply andb_true_iff in Ht as [Hn Hd].
    apply negb_true_iff in Hn. apply bool_decide_eq_true in Hd.
    by rewrite <-list_elem_of_In in Hc.
  - intros (c & Hc & Hn & Hd). exists c. rewrite <-list_elem_of_In.
    split; [done|]. rewrite Hn. simpl. by apply bool_decide_eq_true.
Qed.

(** C1, as stated, fails: [Manager.name] has the nullable column
    [managers.name] and the non-nullable, default-less column
    [employees.name]; only some of its columns qualify, and its key is
    listed in [required]. *)
Lemma C1_listed_with_a_nullable_column :
  let self := Fixtures.factory SingleModelWalker RelationDesicion false in
  ∃ walker st,
    new_walker self Fixtures.Manager None None empty_store = Returns (walker, st)
    ∧ walk_all walker st = Returns ((walker, [Fixtures.Manager_name]), st)
    ∧ _detect_required walker st = Returns ((["name"], walker), st)
    ∧ getattr_columns Fixtures.Manager_name
      = [Fixtures.managers_name; Fixtures.employees_name]
    ∧ nullable Fixtures.managers_name = true
    ∧ __call__ self [] 1 Fixtures.Manager None None None None
      = Returns {| name := "managers";
              schema := [
                ("$schema", JStr "http://json-schema.org/draft-04/schema#");
                ("title", JStr "Manager"); ("type", JStr "object");
                ("properties",
                 JDict [("name", JDict [("type", JStr "string")])]);
                ("required", JList [JStr "name"])] |}.
Proof. eexists _, _. repeat split; reflexivity. Qed.

(** C1 (amended): for every walker and every property that its walk yields,
    the key of the property is in the [required] list exactly when at least
    one of the columns of the property is non-nullable and has no default.
    (Keys identify the yielded properties, as they are the keys of one
    mapper.) *)
Theorem C1_required_any_column walker st walker' ps st' p :
  walk_all walker st = Returns ((walker', ps), st') →
  p ∈ ps →
  (∀ q, q ∈ ps → key q = key p → q = p) →
  ∃ required,
    _detect_required walker st = Returns ((required, walker'), st')
    ∧ (key p ∈ required
       ↔ ∃ c, c ∈ getattr_columns p ∧ nullable c = false ∧ default c = None).
Proof.
  intros Hrun Hp Huniq. eexists. split; [by apply detect_required_walk_all|].
  rewrite <-any_required_spec, list_elem_of_fmap. split.
  - intros (q & Hk & Hq). apply list_elem_of_filter in Hq as [Hq Hin].
    by rewrite <-(Huniq q Hin (eq_sym Hk)).
  - intros Hreq. exists p. split; [done|]. by apply list_elem_of_filter.
Qed.

Lemma C1_required_any_column_witness :
  ∃ walker st required,
    walk_all walker st = Returns ((walker, [Fixtures.Manager_name]), st)
    ∧ _detect_required walker st = Returns ((required, walker), st)
    ∧ (key Fixtures.Manager_name ∈ required
       ↔ ∃ c, c ∈ getattr_columns Fixtures.Manager_name
              ∧ nullable c = false ∧ default c = None).
Proof.
  set (walker := {| w_class := SingleModelWalker; mapper := Fixtures.Manager;
                    includes := None; excludes := None; history := 0;
                    decisions := None; walking := [] |}).
  set (st := {| lists := [[]]; root_schema := [] |}).
  destruct (C1_required_any_column walker st walker [Fixtures.Manager_name] st
              Fixtures.Manager_name) as (required & Hd & Hiff).
  - reflexivity.
  - apply list_elem_of_here.
  - intros q Hq _. by apply list_elem_of_singleton in Hq.
  - exists walker, st, required. split; [reflexivity|]. split; assumption.
Defined.

(** ** C4: the filters of a child walker *)

(** The parent's [excludes] play no part in the construction of the child
    walker: [child_walker] reads [walker.includes] twice. *)
Lemma child_walker_ignores_excludes cf models prop w exc hist st :
  ChildFactory.child_walker cf models prop
    {| w_class := w_class w; mapper := mapper w; includes := includes w;
       excludes := exc; history := history w; decisions := decisions w;
       walking := walking w |} hist st
  = ChildFactory.child_walker cf models prop w hist st.
Proof. by destruct w as [[] ? ? ? ? ? ?]. Qed.

(** C4 at a failing input.  [Owner] is walked with [excludes =
    ["pets.tag"]]: the walker for [Pet] receives no [tag] among its excludes
    (they are the two back-reference names only, here both [None]), and [tag]
    is generated.  [Owner] is walked with [includes = ["id"; "pets";
    "pets.tag"]]: [tag] becomes both an include and an exclude of the child
    walker, whose construction raises. *)
Lemma C4_child_excludes_from_includes :
  let self := Fixtures.factory AlsoChildrenWalker RelationDesicion false in
  let Owner := Fixtures.Owner_with [Fixtures.Owner_pets] in
  let parent := {| w_class := AlsoChildrenWalker; mapper := Owner;
                   includes := None; excludes := Some [Some "pets.tag"];
                   history := 0; decisions := None; walking := [] |} in
  let st := {| lists := [[]; [RelationshipProp Fixtures.Owner_pets]];
               root_schema := [] |} in
  ChildFactory.child_walker (child_factory self) Fixtures.garage
    Fixtures.Owner_pets parent (Some 1) st
  = Returns ({| w_class := AlsoChildrenWalker; mapper := Fixtures.Pet;
           includes := None; excludes := Some [None; None];
           history := 1; decisions := None; walking := [] |}, st)
  ∧ (∃ doc defs pet props,
       __call__ self Fixtures.garage 3 Owner None (Some ["pets.tag"]) None None
       = Returns doc
       ∧ dict_get "definitions" (schema doc) = Some (JDict defs)
       ∧ dict_get "Pet" defs = Some (JDict pet)
       ∧ dict_get "properties" pet = Some (JDict props)
       ∧ dict_get "tag" props = Some (JDict [("type", JStr "integer")]))
  ∧ __call__ self Fixtures.garage 3 Owner (Some ["id"; "pets"; "pets.tag"])
      None None None
    = Raises (InvalidStatus (Conflict ["tag"] [Some "tag"; None; None])).
Proof.
  split; [reflexivity|]. split; [|reflexivity].
  eexists _, _, _, _. repeat split; reflexivity.
Qed.

(** ** C5: a field override *)

(** C5 at a failing input.  With the override [{"name": F}] on [User], the
    entry of [properties] for [name] is the generated schema of the field
    with [F] stored inside it under the key [name]; it is not [F]. *)
Lemma C5_override_is_nested :
  let self := Fixtures.factory SingleModelWalker RelationDesicion false in
  let F := JDict [("type", JStr "string"); ("maxLength", JInt 10)] in
  ∃ doc props,
    __call__ self [] 1 Fixtures.User None None (Some [("name", Value F)]) None
    = Returns doc
    ∧ dict_get "properties" (schema doc) = Some (JDict props)
    ∧ dict_get "name" props
      = Some (JDict [("type", JStr "string"); ("maxLength", JInt 50);
                     ("name", F)])
    ∧ dict_get "name" props ≠ Some F.
Proof. eexists _, _. repeat split; [reflexivity..|discriminate]. Qed.

(** ** C8: the [required] list of a definition *)

(** C8 at a failing input.  [Owner] has the required column [id]; [Pet] has
    the required column [tag] and no column [id].  The definition stored
    for [Pet] gets the [required] list of [Owner], the model on the parent
    side of the relationship, while the walker of [Pet] itself gives
    [["tag"]]. *)
Lemma C8_definition_required_of_parent :
  let self := Fixtures.factory AlsoChildrenWalker RelationDesicion false in
  let Owner := Fixtures.Owner_with [Fixtures.Owner_pets] in
  let st := {| lists := [[]; [RelationshipProp Fixtures.Owner_pets]];
               root_schema := [] |} in
  (∃ doc defs pet,
     __call__ self Fixtures.garage 3 Owner None None None None = Returns doc
     ∧ dict_get "definitions" (schema doc) = Some (JDict defs)
     ∧ dict_get "Pet" defs = Some (JDict pet)
     ∧ dict_get "required" pet = Some (JList [JStr "id"]))
  ∧ (∃ parent child,
       new_walker self Owner None None empty_store = Returns (parent, {|
         lists := [[]]; root_schema := [] |})
       ∧ ChildFactory.child_walker (child_factory self) Fixtures.garage
           Fixtures.Owner_pets parent (Some 1) st = Returns (child, st)
       ∧ _detect_required child st = Returns ((["tag"], child), st)
       ∧ _detect_required parent st = Returns ((["id"], parent), st)).
Proof.
  split.
  - eexists _, _, _. repeat split; reflexivity.
  - eexists _, _. split; [reflexivity|]. split; [by vm_compute|].
    split; by vm_compute.
Qed.

(** ** C2: termination, and descents into relationship properties *)

(** Every descent appends the relationship to the history list of the call
    immediately before it recurses, so the list records the descents. *)

(** C2, as stated, fails.  [Node] has the relationships [first] and
    [second] to itself.  The walker of the root is constructed without a
    history and keeps an empty list of its own (list 0); the list that the
    build appends to (list 1) is shared with the walkers below the root only.
    [second] is descended into below [first], and once more from the root. *)
Lemma C2_second_descent_from_root :
  let self := Fixtures.factory AlsoChildrenWalker RelationDesicion false in
  ∃ doc st,
    generate self [("Node", Fixtures.Node)] 4 Fixtures.Node None None None None
      empty_store = Returns (doc, st)
    ∧ lists st = [[];
                  [RelationshipProp Fixtures.Node_first;
                   RelationshipProp Fixtures.Node_second;
                   RelationshipProp Fixtures.Node_second]].
Proof. eexists _, _. split; [by vm_compute|reflexivity]. Qed.

Lemma quiet_Returns {A} (m : M A) st x st' :
  quiet m → m st = Returns (x, st') → lists st' = lists st.
Proof.
  intros Hq Hm. destruct (Hq st) as (r & Hr & Hl). apply (Hl x). congruence.
Qed.

Lemma quiet_ret {A} (a : A) : quiet (mret a).
Proof. intros st. eexists. split; [done|]. by intros x st' [= _ <-]. Qed.

Lemma quiet_raise {A} e : quiet (raise (A:=A) e).
Proof. intros st. eexists. split; done. Qed.

Lemma quiet_lift {A} (r : result A) : quiet (lift r).
Proof.
  intros st. destruct r; eexists; (split; [done|]); [|done].
  by intros x st' [= _ <-].
Qed.

Lemma quiet_bind {A B} (m : M A) (f : A → M B) :
  quiet m → (∀ a, quiet (f a)) → quiet (m ≫= f).
Proof.
  intros Hm Hf st. rewrite bind_unfold.
  destruct (Hm st) as (r & -> & Hr). destruct r as [[a st1]|e].
  - destruct (Hf a st1) as (r' & -> & Hr'). eexists. split; [done|].
    intros x st' ->. rewrite (Hr' _ _ eq_refl). by apply (Hr a st1).
  - eexists. split; done.
Qed.

Lemma quiet_foldM {A S} (f : S → A → M S) l : ∀ s,
  (∀ s a, quiet (f s a)) → quiet (foldM f s l).
Proof.
  induction l as [|a l IH]; intros s Hf; [apply quiet_ret|].
  simpl. apply quiet_bind; [apply Hf|]. intros s'. by apply IH.
Qed.

Lemma quiet_get_root_schema : quiet get_root_schema.
Proof. intros st. eexists. split; [done|]. by intros x st' [= _ <-]. Qed.

Lemma quiet_put_root_schema d : quiet (put_root_schema d).
Proof. intros st. eexists. split; [done|]. by intros x st' [= _ <-]. Qed.

Lemma quiet_walker_history w : quiet (walker_history w).
Proof. intros st. eexists. split; [done|]. by intros x st' [= _ <-]. Qed.

Lemma quiet_walk_step {S} (body : Walker → S → MapperProperty → M (Walker * S))
    ws s :
  (∀ w acc p, quiet (body w acc p)) → quiet (walk_step body ws s).
Proof.
  intros Hb. destruct ws as [w acc], s as [n|p|e]; simpl.
  - apply quiet_ret.
  - apply quiet_bind; [apply quiet_walker_history|]. intros hist.
    destruct (walk w hist p); [apply Hb|apply quiet_ret].
  - apply quiet_raise.
Qed.

Lemma quiet_for_walk {S} (body : Walker → S → MapperProperty → M (Walker * S))
    w acc :
  (∀ w acc p, quiet (body w acc p)) → quiet (for_walk body w acc).
Proof. intros Hb. apply quiet_foldM. intros. by apply quiet_walk_step. Qed.

Lemma quiet_detect_required w : quiet (_detect_required w).
Proof.
  apply quiet_bind.
  - apply quiet_for_walk. intros w' acc p.
    destruct (any_required p); apply quiet_ret.
  - intros [w' r]. apply quiet_ret.
Qed.

Lemma quiet_set_definition clsname val : quiet (set_definition clsname val).
Proof.
  apply quiet_bind; [apply quiet_get_root_schema|]. intros root.
  destruct (dict_get "definitions" root) as [[]|];
    first [apply quiet_put_root_schema|apply quiet_raise].
Qed.

Lemma quiet_add_property_with_reference self models w cs prop val :
  quiet (_add_property_with_reference self models w cs prop val).
Proof.
  unfold _add_property_with_reference.
  apply quiet_bind; [apply quiet_lift|]. intros target.
  destruct (reference_files self).
  - apply quiet_bind.
    + destruct (bool_decide _); [apply quiet_ret|].
      apply quiet_bind; [apply quiet_lift|]. intros t. apply quiet_ret.
    + intros many. apply quiet_bind; [apply quiet_detect_required|].
      intros [r w']. apply quiet_ret.
  - apply quiet_bind; [apply quiet_get_root_schema|]. intros root.
    apply quiet_bind; [apply quiet_put_root_schema|]. intros _.
    apply quiet_bind; [apply quiet_lift|]. intros t.
    apply quiet_bind.
    + destruct (json_eq_str t "object"); [apply quiet_ret|].
      destruct (dict_get "items" val); [apply quiet_ret|apply quiet_raise].
    + intros [cs' val']. apply quiet_bind; [apply quiet_set_definition|].
      intros _. apply quiet_bind; [apply quiet_detect_required|].
      intros [r w']. apply quiet_bind; [apply quiet_set_definition|].
      intros _. apply quiet_ret.
Qed.

Lemma same_walker_trans w1 w2 w3 :
  same_walker w1 w2 → same_walker w2 w3 → same_walker w1 w3.
Proof. intros (?&?&?) (?&?&?). repeat split; congruence. Qed.

Lemma foldM_walk_same_walker {S}
    (body : Walker → S → MapperProperty → M (Walker * S)) steps :
  (∀ w acc p st w1 acc1 st1,
     body w acc p st = Returns ((w1, acc1), st1) → same_walker w w1) →
  ∀ w acc st w' acc' st',
    foldM (walk_step body) (w, acc) steps st = Returns ((w', acc'), st') →
    same_walker w w'.
Proof.
  intros Hb. induction steps as [|s steps IH]; intros w acc st w' acc' st'.
  - by intros [= <- _ _].
  - rewrite foldM_cons. destruct s as [n|p|e]; [| |done].
    + rewrite walk_step_Mark. intros Hrest. by apply IH in Hrest.
    + rewrite walk_step_Yield. destruct (walk _ _ _); [|by apply IH].
      destruct (body w acc p st) as [[[[w1 acc1] st1]|]|] eqn:Hbody; [|done..].
      intros Hrest. eapply same_walker_trans; [by eapply Hb|by eapply IH].
Qed.

Lemma detect_required_same_walker w st r w' st' :
  _detect_required w st = Returns ((r, w'), st') → same_walker w w'.
Proof.
  unfold _detect_required, for_walk. rewrite bind_unfold.
  destruct (foldM _ _ _ st) as [[[[w1 r1] st1]|]|] eqn:Hf; [|done..].
  intros [= _ <- _]. revert Hf. apply foldM_walk_same_walker.
  intros w0 acc p st0 w2 acc2 st2.
  by destruct (any_required p); intros [= <- _ _].
Qed.

Lemma add_property_same_walker self models w cs prop val st cs' w' st' :
  _add_property_with_reference self models w cs prop val st
  = Returns ((cs', w'), st') → same_walker w w'.
Proof.
  unfold _add_property_with_reference. intros Hrun.
  repeat match type of Hrun with
  | (_ ≫= _) _ = Returns _ =>
      apply bind_Ok in Hrun as (? & ? & ? & Hrun)
  | (if ?b then _ else _) _ = Returns _ => destruct b
  | (let '(_, _) := ?x in _) _ = Returns _ => destruct x
  | (match ?x with _ => _ end) _ = Returns _ => destruct x
  | mret _ _ = Returns _ => injection Hrun as <- <- <-
  end;
  repeat match goal with
  | H : _detect_required _ _ = Returns _ |- _ =>
      apply detect_required_same_walker in H
  end; done.
Qed.

Lemma list_append_spec h p st :
  valid h st →
  ∃ st_a, list_append h p st = Returns (tt, st_a)
    ∧ deref h st_a = deref h st ++ [p]
    ∧ length (lists st_a) = length (lists st).
Proof.
  intros Hv. eexists. split; [done|]. unfold deref. simpl.
  rewrite list_lookup_alter_eq, length_alter.
  destruct (lookup_lt_is_Some_2 _ _ Hv) as [l ->]. split; reflexivity.
Qed.

Lemma init_with_history cls model inc exc h ds st :
  deref h st ≠ [] →
  (∃ e, BaseModelWalker.__init__ cls model inc exc (Some h) ds st = Raises e)
  ∨ BaseModelWalker.__init__ cls model inc exc (Some h) ds st
    = Returns ({| w_class := cls; mapper := model; includes := inc;
                  excludes := exc; history := h; decisions := ds;
                  walking := [] |}, st).
Proof.
  intros Hne. unfold BaseModelWalker.__init__, BaseModelWalker.history_or_new.
  rewrite !bind_unfold. unfold read_list. destruct (deref h st); [done|].
  simpl. destruct (_ && _); eauto.
Qed.

Lemma child_walker_spec cf models r w h st :
  deref h st ≠ [] →
  (∃ e, ChildFactory.child_walker cf models r w (Some h) st = Raises e)
  ∨ ∃ child, ChildFactory.child_walker cf models r w (Some h) st
             = Returns (child, st)
      ∧ history child = h ∧ w_class child = w_class w
      ∧ rp_target models r = Ok (mapper child).
Proof.
  intros Hne. unfold ChildFactory.child_walker.
  rewrite bind_unfold. destruct (get_children _ _ _ _) as [exc|e]; [|by eauto].
  simpl. rewrite bind_unfold.
  destruct (get_children _ _ _ _) as [inc|e]; [|by eauto].
  simpl. rewrite bind_unfold.
  destruct (rp_target models r) as [target|e]; [|by eauto]. simpl.
  unfold clone. destruct (w_class w) eqn:Hcls.
  1-3: match goal with
       | |- context [BaseModelWalker.__init__ ?c ?m ?i ?x _ ?d _] =>
           destruct (init_with_history c m i x h d st Hne) as [[e ->]| ->]
       end; eauto 10.
  rewrite bind_unfold.
  destruct (HandControlledWalker.clone_decisions w (rp_key r)) as [ds|e];
    [|by eauto].
  simpl.
  match goal with
  | |- context [BaseModelWalker.__init__ ?c ?m ?i ?x _ ?d _] =>
      destruct (init_with_history c m i x h d st Hne) as [[e ->]| ->]
  end; eauto 10.
Qed.

Lemma extends_same h st st' : lists st' = lists st → extends h st st'.
Proof.
  intros Hl. split; [by rewrite Hl|]. exists []. unfold deref. rewrite Hl.
  rewrite app_nil_r. repeat split; [constructor|]. by intros p ?%elem_of_nil.
Qed.

Lemma extends_trans h st1 st2 st3 :
  extends h st1 st2 → extends h st2 st3 → extends h st1 st3.
Proof.
  intros (Hl1 & a1 & E1 & N1 & D1) (Hl2 & a2 & E2 & N2 & D2).
  split; [lia|]. exists (a1 ++ a2). rewrite E2, E1, <-app_assoc.
  split; [done|]. rewrite fmap_app. split.
  - apply NoDup_app. split; [done|]. split; [|done].
    intros i Hi1 Hi2. apply list_elem_of_fmap in Hi2 as (p & -> & Hp).
    apply (D2 p Hp). rewrite E1, fmap_app. apply elem_of_app. by right.
  - intros p [Hp|Hp]%elem_of_app; [by apply D1|].
    intros Hin. apply (D2 p Hp). rewrite E1, fmap_app.
    apply elem_of_app. by left.
Qed.

Lemma extends_valid h st st' : extends h st st' → valid h st → valid h st'.
Proof. intros [Hl _]. unfold valid. lia. Qed.

Lemma extends_visited h st st' : extends h st st' → visited h st ⊆ visited h st'.
Proof.
  intros (_ & a & E & _). unfold visited. rewrite E, fmap_app. set_solver.
Qed.

(** A policy decides on a descent for the property it was asked about, and
    then for nothing else. *)
Lemma desicion_shape self w hist p toplevel :
  desicion self w hist p toplevel = [Decided RELATIONSHIP p []]
  ∨ Forall (λ d, ¬ is_relationship_decision d)
           (desicion self w hist p toplevel).
Proof.
  assert (∀ r, Forall (λ d, ¬ is_relationship_decision d)
                      (ComfortableDesicion.flatten w r)) as Hflat.
  { intros r. apply Forall_fmap, Forall_forall. intros c _. simpl.
    destruct (dict_get _ _); simpl; tauto. }
  unfold desicion, RelationDesicion.desicion, ComfortableDesicion.desicion.
  destruct (relation_decision self), p as [c|r]; auto;
    try (right; repeat constructor; simpl; tauto).
  destruct (decide (rp_direction r = MANYTOONE)).
  - right. destruct toplevel; [done|].
    destruct hist as [|[c|rp] hist];
      try (repeat constructor; simpl; tauto).
    destruct (decide (_ ≠ _)); [done|constructor].
  - destruct (decide (rp_direction r = MANYTOMANY)); auto;
      try (right; repeat constructor; simpl; tauto).
Qed.

Lemma walk_guard w hist p :
  guards_history (w_class w) = true → walk w hist p = true →
  prop_id p ∉ prop_id <$> hist.
Proof.
  unfold walk, AlsoChildrenWalker.walk, HandControlledWalker.walk, prop_in.
  destruct (w_class w); [done..| |]; intros _ Hw.
  - apply andb_true_iff in Hw as [Hw _]. apply andb_true_iff in Hw as [_ Hw].
    apply negb_true_iff in Hw. by apply bool_decide_eq_false in Hw.
  - apply andb_true_iff in Hw as [Hw _]. apply andb_true_iff in Hw as [_ Hw].
    apply negb_true_iff in Hw. by apply bool_decide_eq_false in Hw.
Qed.

Section below_the_root.
Variable self : SchemaFactory.
Variable models : registry.
Variable h : nat.
Variable build : Walker → CollectionForOverrides → option Z → option nat
                 → bool → M (dict json).
Variable depth : option Z.

Lemma foldM_on_decided_quiet ds : ∀ w fr st,
  Forall (λ d, ¬ is_relationship_decision d) ds →
  ∃ r, foldM (on_decided self models build depth h) (w, fr) ds st = Some r
    ∧ ∀ w' fr' st', r = Ok ((w', fr'), st') → st' = st ∧ w' = w.
Proof.
  induction ds as [|d ds IH]; intros w fr st Hds.
  - eexists. split; [done|]. by intros w' fr' st' [= <- _ <-].
  - apply Forall_cons in Hds as [Hd Hds]. rewrite foldM_cons.
    destruct d as [[| |j] p opts|e]; simpl in *.
    + tauto.
    + rewrite bind_unfold.
      destruct (foreignkey_action self fr p opts) as [fr1|e]; simpl.
      * apply IH, Hds.
      * eexists. split; [reflexivity|]. intros; discriminate.
    + apply IH, Hds.
    + eexists. split; [reflexivity|]. intros; discriminate.
Qed.

Hypothesis build_extends : ∀ w ov d toplevel st x st',
  guards_history (w_class w) = true → history w = h → valid h st →
  build w ov d (Some h) toplevel st = Returns (x, st') → extends h st st'.

Lemma relationship_action_extends w fr r st w1 fr1 st1 :
  guards_history (w_class w) = true → valid h st →
  relationship_action self models build depth h w fr (RelationshipProp r) st
  = Returns ((w1, fr1), st1) →
  same_walker w w1
  ∧ ∃ st_a, deref h st_a = deref h st ++ [RelationshipProp r]
      ∧ length (lists st_a) = length (lists st)
      ∧ extends h st_a st1.
Proof.
  intros Hg Hv. unfold relationship_action. rewrite bind_unfold.
  destruct (list_append_spec h (RelationshipProp r) st Hv)
    as (st_a & -> & Hd & Hl).
  cbn beta iota. rewrite bind_unfold.
  destruct (child_walker_spec (child_factory self) models r w h st_a)
    as [[e ->]|(child & -> & Hh & Hc & _)]; [|done|].
  { rewrite Hd. by destruct (deref h st). }
  cbn beta iota. rewrite bind_unfold.
  destruct (ChildFactory.child_overrides _ r _) as [subov|e]; [|done].
  cbn [lift]. rewrite bind_unfold. unfold ChildFactory.child_schema at 1.
  rewrite bind_unfold.
  destruct (build child subov _ (Some h) false st_a)
    as [[[sub st_c]|e]|] eqn:Hb; [|done..].
  apply build_extends in Hb; [|congruence|done|unfold valid in *; lia].
  destruct (decide (rp_direction r = ONETOMANY)); cbn [mret M_ret];
    rewrite bind_unfold;
    (destruct (_add_property_with_reference _ _ _ _ _ _ st_c)
       as [[[[ps w'] st_d]|e']|] eqn:Ha; [|done..]);
    intros [= <- <- <-];
    (split; [by eapply add_property_same_walker|]);
    exists st_a; (split; [done|]); (split; [done|]).
    all: (eapply extends_trans; [done|]); apply extends_same;
    eapply quiet_Returns, Ha; apply quiet_add_property_with_reference.
Qed.

Lemma on_walked_extends toplevel w fr p st w1 fr1 st1 :
  guards_history (w_class w) = true → history w = h → valid h st →
  walk w (deref h st) p = true →
  on_walked self models build depth h toplevel w fr p st
  = Returns ((w1, fr1), st1) →
  same_walker w w1 ∧ extends h st st1.
Proof.
  intros Hg Hh Hv Hw. unfold on_walked. rewrite bind_unfold.
  unfold walker_history, read_list. rewrite Hh.
  destruct (desicion_shape self w (deref h st) p toplevel) as [->|Hds].
  - rewrite foldM_cons. cbn [on_decided].
    destruct p as [c|r]; [done|].
    destruct (relationship_action _ _ _ _ _ _ _ _ st)
      as [[[[w2 fr2] st2]|e]|] eqn:Hr; [|done..].
    intros [= <- <- <-].
    apply relationship_action_extends in Hr
      as (Hsame & st_a & Hd & Hl & Hl' & added & E & N & D); [|done..].
    split; [done|]. split; [lia|].
    exists (RelationshipProp r :: added). rewrite E, Hd, <-app_assoc.
    split; [done|]. rewrite fmap_cons. split.
    + apply NoDup_cons. split; [|done].
      intros Hin. apply list_elem_of_fmap in Hin as (q & Hq & Hin).
      apply (D q Hin). rewrite Hd, fmap_app, <-Hq.
      apply elem_of_app. right. apply list_elem_of_here.
    + intros q [->|Hq]%elem_of_cons; [by eapply walk_guard|].
      intros Hin. apply (D q Hq). rewrite Hd, fmap_app.
      apply elem_of_app. by left.
  - destruct (foldM_on_decided_quiet _ w fr st Hds) as (res & -> & Hq).
    intros [= ->]. destruct (Hq _ _ _ eq_refl) as [-> ->].
    split; [done|]. by apply extends_same.
Qed.

Lemma foldM_walk_extends toplevel steps : ∀ w fr st w' fr' st',
  guards_history (w_class w) = true → history w = h → valid h st →
  foldM (walk_step (on_walked self models build depth h toplevel))
        (w, fr) steps st = Returns ((w', fr'), st') →
  extends h st st'.
Proof.
  induction steps as [|s steps IH]; intros w fr st w' fr' st' Hg Hh Hv.
  - intros [= _ _ <-]. by apply extends_same.
  - rewrite foldM_cons. destruct s as [n|p|e]; [| |done].
    + rewrite walk_step_Mark. by apply IH.
    + rewrite walk_step_Yield. rewrite Hh.
      destruct (walk w (deref h st) p) eqn:Hw; [|by apply IH].
      destruct (on_walked _ _ _ _ _ _ w fr p st)
        as [[[[w1 fr1] st1]|e]|] eqn:Hb; [|done..].
      apply on_walked_extends in Hb as [(Hc & Hh1 & _) Hext]; [|done..].
      intros Hrest. eapply extends_trans; [done|].
      eapply (IH w1 fr1 st1);
        [by rewrite Hc|by rewrite Hh1|by eapply extends_valid|done].
Qed.
End below_the_root.

(** Below the root, a build appends to the history only properties that
    are not in it. *)
Lemma build_extends self models fuel : ∀ w ov depth toplevel h st x st',
  guards_history (w_class w) = true → history w = h → valid h st →
  _build_properties self models fuel w ov depth (Some h) toplevel st
  = Returns (x, st') →
  extends h st st'.
Proof.
  induction fuel as [|fuel IH]; intros w ov depth toplevel h st x st' Hg Hh Hv;
    [done|].
  cbn [_build_properties].
  destruct (match depth with Some d => bool_decide (d ≤ 0)%Z | None => false end).
  { intros [= _ <-]. by apply extends_same. }
  rewrite bind_unfold. cbn [mret M_ret]. rewrite bind_unfold.
  destruct (for_walk _ _ _ st) as [[[[w1 fr1] st1]|e]|] eqn:Hf; [|done..].
  intros [= _ <-]. revert Hf. apply foldM_walk_extends; [|done..].
  intros w2 ov2 d2 t2 st2 x2 st2' Hg2 Hh2 Hv2. rewrite bind_unfold.
  destruct (_build_properties _ _ fuel _ _ _ _ _ st2)
    as [[[y st3]|e]|] eqn:Hb; [|done..].
  intros [= _ <-]. by eapply IH.
Qed.

(** *** Termination *)

Lemma dict_get_elem_of {V} k (d : dict V) v : dict_get k d = Some v → v ∈ d.*2.
Proof.
  induction d as [|[k' v'] d IH]; [done|]. simpl.
  destruct (decide (k' = k)).
  - intros [= ->]. apply list_elem_of_here.
  - intros Hv. apply list_elem_of_further, IH, Hv.
Qed.

Lemma lookup_prop_yields m n p :
  lookup_prop m n = Yield p → p ∈ mapper_props m.
Proof.
  unfold lookup_prop, mapper_props.
  destruct (dict_get n (_props m)) eqn:Hget; [|done].
  intros [= <-]. apply elem_of_app. left. by eapply dict_get_elem_of.
Qed.

Lemma iterate_yields w p : Yield p ∈ iterate w → p ∈ mapper_props (mapper w).
Proof.
  assert (∀ m, Yield p ∈ iterate_columns m → p ∈ mapper_props m) as Hcols.
  { intros m Hin. apply list_elem_of_fmap in Hin as (c & Hc & _).
    by eapply lookup_prop_yields. }
  assert (∀ r, r ∈ relationships (mapper w) →
               RelationshipProp r ∈ mapper_props (mapper w)) as Hrel.
  { intros r Hr. apply elem_of_app. right. by apply list_elem_of_fmap_2. }
  unfold iterate, SingleModelWalker.iterate, OneModelOnlyWalker.iterate,
    AlsoChildrenWalker.iterate, HandControlledWalker.iterate.
  destruct (w_class w); [by auto..| |].
  - intros [Hin|Hin]%elem_of_app; [by auto|].
    apply list_elem_of_fmap in Hin as (r & [= ->] & Hr). by auto.
  - intros [Hin|Hin]%elem_of_app; [by auto|].
    apply list_elem_of_bind in Hin as (r & Hin & Hr).
    unfold HandControlledWalker.treat_relationship in Hin.
    destruct (decisions w) as [ds|]; [|by apply list_elem_of_singleton in Hin].
    destruct (dict_get (rp_key r) ds) as [d|];
      [|by apply list_elem_of_singleton in Hin].
    destruct (decide (d = "relationship")).
    { apply list_elem_of_singleton in Hin as [= ->]. by auto. }
    destruct (decide (d = "foreignkey"));
      [|by apply list_elem_of_singleton in Hin].
    apply list_elem_of_bind in Hin as (c & Hin & _).
    apply elem_of_cons in Hin as [?|Hin]; [done|].
    apply list_elem_of_singleton in Hin. by eapply lookup_prop_yields.
Qed.

Lemma universe_elem_of models model m p :
  in_graph models model m → p ∈ mapper_props m →
  prop_id p ∈ universe models model.
Proof.
  intros Hm Hp. unfold universe. apply elem_of_list_to_set.
  apply list_elem_of_fmap_2, elem_of_app. destruct Hm as [->|Hm]; [by left|].
  right. apply list_elem_of_bind. eauto.
Qed.

Lemma rp_target_in_graph models model r m :
  rp_target models r = Ok m → in_graph models model m.
Proof.
  unfold rp_target. destruct (dict_get _ models) eqn:Hget; [|done].
  intros [= <-]. right. by eapply dict_get_elem_of.
Qed.

Lemma remaining_le_universe models model h st :
  (remaining models model h st ≤ size (universe models model))%nat.
Proof. apply subseteq_size. set_solver. Qed.

Lemma remaining_mono models model h st st' :
  extends h st st' →
  (remaining models model h st' ≤ remaining models model h st)%nat.
Proof.
  intros Hext%extends_visited. apply subseteq_size. revert Hext.
  generalize (universe models model), (visited h st), (visited h st').
  set_solver.
Qed.

Lemma remaining_decreases models model h st st_a p :
  deref h st_a = deref h st ++ [p] →
  prop_id p ∈ universe models model →
  prop_id p ∉ prop_id <$> deref h st →
  (remaining models model h st_a < remaining models model h st)%nat.
Proof.
  intros Hd HU Hnot. apply subset_size. unfold visited.
  rewrite Hd, fmap_app, list_to_set_app_L.
  apply (not_elem_of_list_to_set (C:=gset (string * string))) in Hnot.
  revert HU Hnot. simpl.
  generalize (universe models model), (prop_id p),
    (list_to_set (prop_id <$> deref h st) : gset (string * string)).
  intros U i V HU Hnot. split; [set_solver|]. intros Hsub.
  specialize (Hsub i). set_solver.
Qed.

Lemma is_Some_bind {A B} (m : M A) (f : A → M B) st :
  is_Some (m st) →
  (∀ a st1, m st = Returns (a, st1) → is_Some (f a st1)) →
  is_Some ((m ≫= f) st).
Proof.
  intros [r Hr] Hf. rewrite bind_unfold, Hr.
  destruct r as [[a st1]|e]; [by apply Hf|done].
Qed.

Lemma quiet_is_Some {A} (m : M A) st : quiet m → is_Some (m st).
Proof. intros Hq. destruct (Hq st) as (r & -> & _). done. Qed.

Section termination.
Variable self : SchemaFactory.
Variable models : registry.
Variable model : Mapper.
Variable h : nat.
Variable build : Walker → CollectionForOverrides → option Z → option nat
                 → bool → M (dict json).
Variable depth : option Z.
Variable fuel : nat.

Hypothesis build_extends : ∀ w ov d toplevel st x st',
  guards_history (w_class w) = true → history w = h → valid h st →
  build w ov d (Some h) toplevel st = Returns (x, st') → extends h st st'.

Hypothesis build_total : ∀ w ov d toplevel st,
  guards_history (w_class w) = true → history w = h → valid h st →
  in_graph models model (mapper w) →
  (remaining models model h st < fuel)%nat →
  is_Some (build w ov d (Some h) toplevel st).

Lemma relationship_action_total w fr r st :
  guards_history (w_class w) = true → valid h st →
  (∀ st_a, deref h st_a = deref h st ++ [RelationshipProp r] →
           (remaining models model h st_a < fuel)%nat) →
  is_Some (relationship_action self models build depth h w fr
             (RelationshipProp r) st).
Proof.
  intros Hg Hv Hfuel. unfold relationship_action. rewrite bind_unfold.
  destruct (list_append_spec h (RelationshipProp r) st Hv)
    as (st_a & -> & Hd & Hl).
  cbn beta iota. rewrite bind_unfold.
  destruct (child_walker_spec (child_factory self) models r w h st_a)
    as [[e ->]|(child & -> & Hh & Hc & Ht)]; [|done|].
  { rewrite Hd. by destruct (deref h st). }
  cbn beta iota. rewrite bind_unfold.
  destruct (ChildFactory.child_overrides _ r _) as [subov|e]; [|done].
  cbn [lift]. apply is_Some_bind.
  - unfold ChildFactory.child_schema. apply is_Some_bind.
    + apply build_total; [congruence|done|unfold valid in *; lia| |by apply Hfuel].
      by eapply rp_target_in_graph.
    + intros sub st_c _. by destruct (decide _).
  - intros val st_c _. apply is_Some_bind.
    + apply quiet_is_Some, quiet_add_property_with_reference.
    + by intros [ps w'] st_d _.
Qed.

Lemma on_walked_total toplevel w fr p st :
  guards_history (w_class w) = true → valid h st →
  (∀ st_a, deref h st_a = deref h st ++ [p] →
           (remaining models model h st_a < fuel)%nat) →
  is_Some (on_walked self models build depth h toplevel w fr p st).
Proof.
  intros Hg Hv Hfuel. unfold on_walked. rewrite bind_unfold.
  unfold walker_history, read_list.
  destruct (desicion_shape self w (deref (history w) st) p toplevel)
    as [->|Hds].
  - rewrite foldM_cons. cbn [on_decided]. destruct p as [c|r]; [done|].
    pose proof (relationship_action_total w fr r st Hg Hv Hfuel) as [res Hres].
    rewrite Hres. by destruct res as [[[w1 fr1] st1]|e].
  - destruct (foldM_on_decided_quiet self models h build depth _ w fr st Hds)
      as (res & -> & _). done.
Qed.

(** At any level, a turn of the loop leaves the list [h] in the store. *)
Lemma on_walked_valid toplevel w fr p st w1 fr1 st1 :
  guards_history (w_class w) = true → valid h st →
  on_walked self models build depth h toplevel w fr p st
  = Returns ((w1, fr1), st1) →
  same_walker w w1 ∧ valid h st1.
Proof.
  intros Hg Hv. unfold on_walked. rewrite bind_unfold.
  unfold walker_history, read_list.
  destruct (desicion_shape self w (deref (history w) st) p toplevel)
    as [->|Hds].
  - rewrite foldM_cons. cbn [on_decided]. destruct p as [c|r]; [done|].
    destruct (relationship_action _ _ _ _ _ _ _ _ st)
      as [[[[w2 fr2] st2]|e]|] eqn:Hr; [|done..].
    intros [= <- <- <-].
    apply (relationship_action_extends self models h build depth build_extends)
      in Hr as (Hsame & st_a & _ & Hl & Hl' & _); [|done..].
    split; [done|]. unfold valid in *. lia.
  - destruct (foldM_on_decided_quiet self models h build depth _ w fr st Hds)
      as (res & -> & Hq).
    intros [= ->]. by destruct (Hq _ _ _ eq_refl) as [-> ->].
Qed.

(** Below the root the walker tests the list [h]: every descent takes a
    property out of those that remain. *)
Lemma foldM_walk_total_below toplevel steps : ∀ w fr st,
  guards_history (w_class w) = true → history w = h → valid h st →
  in_graph models model (mapper w) →
  Forall (λ s, ∀ p, s = Yield p → p ∈ mapper_props (mapper w)) steps →
  (remaining models model h st ≤ fuel)%nat →
  is_Some (foldM (walk_step (on_walked self models build depth h toplevel))
                 (w, fr) steps st).
Proof.
  induction steps as [|s steps IH]; intros w fr st Hg Hh Hv Hm Hsteps Hfuel;
    [done|].
  apply Forall_cons in Hsteps as [Hs Hsteps]. rewrite foldM_cons.
  destruct s as [n|p|e]; [| |done].
  - rewrite walk_step_Mark. by apply IH.
  - rewrite walk_step_Yield, Hh.
    destruct (walk w (deref h st) p) eqn:Hw; [|by apply IH].
    assert (is_Some (on_walked self models build depth h toplevel w fr p st))
      as [res Hres].
    { apply on_walked_total; [done..|]. intros st_a Hd.
      eapply Nat.lt_le_trans; [|exact Hfuel].
      eapply remaining_decreases; [done| |by eapply walk_guard].
      eapply universe_elem_of; eauto. }
    rewrite Hres. destruct res as [[[w1 fr1] st1]|e]; [|done].
    apply (on_walked_extends self models h build depth build_extends) in Hres
      as [(Hc & Hh1 & Hm1) Hext]; [|done..].
    apply IH; [by rewrite Hc|by rewrite Hh1|by eapply extends_valid
              |by rewrite Hm1|by rewrite Hm1|].
    etrans; [by apply remaining_mono|done].
Qed.

(** The walker of the root tests a list of its own; its loop is finite, and
    each of its descents starts with all the fuel of the level below. *)
Lemma foldM_walk_total_root toplevel steps : ∀ w fr st,
  guards_history (w_class w) = true → valid h st →
  (size (universe models model) < fuel)%nat →
  is_Some (foldM (walk_step (on_walked self models build depth h toplevel))
                 (w, fr) steps st).
Proof.
  induction steps as [|s steps IH]; intros w fr st Hg Hv Hfuel; [done|].
  rewrite foldM_cons. destruct s as [n|p|e]; [| |done].
  - rewrite walk_step_Mark. by apply IH.
  - rewrite walk_step_Yield.
    destruct (walk w _ p) eqn:Hw; [|by apply IH].
    assert (is_Some (on_walked self models build depth h toplevel w fr p st))
      as [res Hres].
    { apply on_walked_total; [done..|]. intros st_a _.
      eapply Nat.le_lt_trans; [apply remaining_le_universe|done]. }
    rewrite Hres. destruct res as [[[w1 fr1] st1]|e]; [|done].
    apply on_walked_valid in Hres as [(Hc & _) Hv1]; [|done..].
    apply IH; [by rewrite Hc|done..].
Qed.
End termination.

Lemma iterate_Forall_yields w :
  Forall (λ s, ∀ p, s = Yield p → p ∈ mapper_props (mapper w)) (iterate w).
Proof.
  apply Forall_forall. intros s Hs p ->. by apply iterate_yields.
Qed.

(** The wrapper under which [_build_properties] is handed to
    [child_schema]. *)
Lemma build_wrapper_Returns self models fuel w ov d ho t st x st' :
  (r ← _build_properties self models fuel w ov d ho t; mret r.1.1) st
  = Returns (x, st') →
  ∃ y, _build_properties self models fuel w ov d ho t st = Returns (y, st').
Proof.
  rewrite bind_unfold.
  destruct (_build_properties _ _ _ _ _ _ _ _ st) as [[[y st1]|e]|]; [|done..].
  intros [= _ <-]. eauto.
Qed.

(** Below the root, a build returns or raises as soon as its fuel exceeds
    the number of properties that are not in the history. *)
Lemma build_total_below self models model fuel :
  ∀ w ov depth toplevel h st,
    guards_history (w_class w) = true → history w = h → valid h st →
    in_graph models model (mapper w) →
    (remaining models model h st < fuel)%nat →
    is_Some (_build_properties self models fuel w ov depth (Some h) toplevel st).
Proof.
  induction fuel as [|fuel IH]; intros w ov depth toplevel h st Hg Hh Hv Hm Hfuel;
    [lia|].
  cbn [_build_properties].
  destruct (match depth with Some d => bool_decide (d ≤ 0)%Z | None => false end);
    [done|].
  rewrite bind_unfold. cbn [mret M_ret]. apply is_Some_bind.
  - apply (foldM_walk_total_below self models model h _ depth fuel);
      [| |done..|apply iterate_Forall_yields|lia].
    + intros w2 ov2 d2 t2 st2 x2 st2' Hg2 Hh2 Hv2 [y Hb]%build_wrapper_Returns.
      by eapply build_extends.
    + intros w2 ov2 d2 t2 st2 Hg2 Hh2 Hv2 Hm2 Hf2.
      apply is_Some_bind; [by apply IH|]. by intros [[y w3] ov3] st3 _.
  - by intros [w1 fr1] st1 _.
Qed.

Lemma init_without_history cls model inc exc ds st :
  (∃ e, BaseModelWalker.__init__ cls model inc exc None ds st = Raises e)
  ∨ BaseModelWalker.__init__ cls model inc exc None ds st
    = Returns ({| w_class := cls; mapper := model; includes := inc;
                  excludes := exc; history := length (lists st);
                  decisions := ds; walking := [] |},
               {| lists := lists st ++ [[]]; root_schema := root_schema st |}).
Proof.
  unfold BaseModelWalker.__init__, BaseModelWalker.history_or_new.
  rewrite !bind_unfold. unfold new_list. destruct (_ && _); eauto.
Qed.

Lemma new_walker_spec self model inc exc st :
  (∃ e, new_walker self model inc exc st = Raises e)
  ∨ ∃ w st', new_walker self model inc exc st = Returns (w, st')
      ∧ mapper w = model
      ∧ guards_history (w_class w) = factory_guards_history self.
Proof.
  unfold new_walker, factory_guards_history.
  destruct (walker self) as [cls|ds].
  - destruct (init_without_history cls model inc exc None st) as [?| ->];
      eauto 10.
  - destruct (init_without_history HandControlledWalker model inc exc
                (Some ds) st) as [?| ->]; eauto 10.
Qed.

(** At the root, a build returns or raises as soon as its fuel exceeds the
    number of properties of the model graph by two. *)
Lemma build_total_root self models model fuel w ov depth toplevel st :
  guards_history (w_class w) = true →
  (size (universe models model) + 2 ≤ fuel)%nat →
  is_Some (_build_properties self models fuel w ov depth None toplevel st).
Proof.
  intros Hg Hfuel. destruct fuel as [|fuel]; [lia|].
  cbn [_build_properties].
  destruct (match depth with Some d => bool_decide (d ≤ 0)%Z | None => false end);
    [done|].
  rewrite bind_unfold. unfold new_list. cbn beta iota. apply is_Some_bind.
  - apply (foldM_walk_total_root self models model _ _ depth fuel);
      [| |done|unfold valid; simpl; rewrite length_app; simpl; lia|lia].
    + intros w2 ov2 d2 t2 st2 x2 st2' Hg2 Hh2 Hv2 [y Hb]%build_wrapper_Returns.
      by eapply build_extends.
    + intros w2 ov2 d2 t2 st2 Hg2 Hh2 Hv2 Hm2 Hf2.
      apply is_Some_bind; [by eapply build_total_below|].
      by intros [[y w3] ov3] st3 _.
  - by intros [w1 fr1] st1 _.
Qed.

Lemma generate_total self models model fuel incl excl ovr depth st :
  factory_guards_history self = true →
  (size (universe models model) + 2 ≤ fuel)%nat →
  is_Some (generate self models fuel model incl excl ovr depth st).
Proof.
  intros Hg Hfuel. unfold generate. apply is_Some_bind.
  { destruct (new_walker_spec self model incl (fmap (M:=list) Some <$> excl) st)
      as [[e ->]|(w & st' & -> & _)]; done. }
  intros w st1 Hw. apply is_Some_bind; [done|]. intros _ st2 _.
  apply is_Some_bind.
  { apply (build_total_root self models model); [|done].
    destruct (new_walker_spec self model incl (fmap (M:=list) Some <$> excl) st)
      as [[e He]|(w' & st' & Hw' & _ & Hc)]; [congruence|].
    rewrite Hw in Hw'. injection Hw' as <- <-. by rewrite Hc. }
  intros [[props w'] ov'] st3 _. apply quiet_is_Some.
  apply quiet_bind; [apply quiet_get_root_schema|]. intros sch.
  apply quiet_bind; [apply quiet_put_root_schema|]. intros _.
  destruct (decide _); [apply quiet_raise|].
  apply quiet_bind; [apply quiet_get_root_schema|]. intros sch'.
  apply quiet_bind; [apply quiet_detect_required|]. intros [req w''].
  apply quiet_bind; [apply quiet_put_root_schema|]. intros _.
  destruct (_tablename model); [apply quiet_ret|apply quiet_raise].
Qed.

(** C2 (amended): for every model graph, cyclic or not, a generation call
    of a factory whose walker descends into relationships (the
    include-children and the hand-controlled walker) terminates, for every
    depth setting including unset: it returns or raises as soon as the fuel
    exceeds the number of properties of the graph by two.  Below the root no
    relationship property is descended into more than once: a build whose
    walker shares the history list it appends to, as every walker below the
    root does, extends that list only by properties that were not in it,
    each of them once. *)
Theorem C2_terminates_and_guards_below_the_root self models model :
  (factory_guards_history self = true →
   ∀ fuel incl excl ovr depth,
     (size (universe models model) + 2 ≤ fuel)%nat →
     ∃ r, __call__ self models fuel model incl excl ovr depth = Some r)
  ∧ (∀ fuel w ov depth toplevel h st x st',
       guards_history (w_class w) = true → history w = h → valid h st →
       _build_properties self models fuel w ov depth (Some h) toplevel st
       = Returns (x, st') →
       extends h st st').
Proof.
  split.
  - intros Hg fuel incl excl ovr depth Hfuel. unfold __call__.
    destruct (generate_total self models model fuel incl excl ovr depth
                empty_store Hg Hfuel) as [[[doc st]|e] ->]; eauto.
  - intros fuel w ov depth toplevel h st x st'. apply build_extends.
Qed.

Lemma C2_terminates_and_guards_below_the_root_witness :
  let self := Fixtures.factory AlsoChildrenWalker RelationDesicion false in
  ∃ r, __call__ self [("Node", Fixtures.Node)] 8 Fixtures.Node None None None
         None = Some r.
Proof.
  intros self.
  destruct (C2_terminates_and_guards_below_the_root self
              [("Node", Fixtures.Node)] Fixtures.Node) as [Hterm _].
  apply Hterm; [reflexivity|]. vm_compute. lia.
Defined.

(** ** C3: many-to-one relationships under the comfortable policy *)

(** Below the top level the policy compares the local columns of a
    many-to-one relationship with the remote side of the first entry of the
    walker's history, whatever the relationship through which the walker's
    model was reached. *)
Lemma desicion_many_to_one_below_top self walker st rp rest r :
  relation_decision self = ComfortableDesicion →
  rp_direction r = MANYTOONE →
  deref (history walker) st = RelationshipProp rp :: rest →
  desicion self walker (deref (history walker) st) (RelationshipProp r) false
  = if decide (column_set (local_columns r) ≠ column_set (remote_side rp))
    then (λ c, match dict_get (c_name c) (_props (mapper walker)) with
               | Some p => Decided FOREIGNKEY p [("relation", JStr (rp_key r))]
               | None => DecideThrow (KeyError (c_name c))
               end) <$> local_columns r
    else [].
Proof.
  intros Hpolicy Hdir ->. unfold desicion. rewrite Hpolicy.
  unfold ComfortableDesicion.desicion. rewrite Hdir.
  destruct (decide (MANYTOONE = MANYTOONE)); [|done].
  by destruct (decide (_ ≠ _)).
Qed.

(** C3 at a failing input.  [Car] is reached through [Owner.cars], and the
    local columns of its many-to-one [owner] are the remote-side columns of
    [cars]: by the claim the policy yields nothing for [owner].

    [Owner] has the one-to-many relationships [pets] and [cars].  When
    they are walked in that order, the history that the walker of [Car]
    shares starts with [pets]; the policy compares [owner] with the remote
    side of [pets], finds the columns different and flattens [owner]: the
    definition of [Car] gets the field [owner_id].  When [cars] is walked
    first, the same relationship below the same parent yields nothing. *)
Lemma C3_flattened_below_its_own_parent :
  let self := Fixtures.factory AlsoChildrenWalker ComfortableDesicion false in
  let hist := [RelationshipProp Fixtures.Owner_pets;
               RelationshipProp Fixtures.Owner_cars] in
  let st := {| lists := [[]; hist]; root_schema := [] |} in
  let fk := [("type", JStr "integer"); ("relation", JStr "owner")] in
  column_set (local_columns Fixtures.Car_owner)
  = column_set (remote_side Fixtures.Owner_cars)
  ∧ (∃ parent child,
       new_walker self Fixtures.Owner None None empty_store
       = Returns (parent, {| lists := [[]]; root_schema := [] |})
       ∧ ChildFactory.child_walker (child_factory self) Fixtures.garage
           Fixtures.Owner_cars parent (Some 1) st = Returns (child, st)
       ∧ deref (history child) st = hist
       ∧ desicion self child hist (RelationshipProp Fixtures.Car_owner) false
         = [Decided FOREIGNKEY
              (ColumnProp {| cp_parent := "Car"; cp_key := "owner_id";
                             columns := [Fixtures.cars_owner_id] |})
              [("relation", JStr "owner")]])
  ∧ (∃ doc defs car props,
       __call__ self Fixtures.garage 3 Fixtures.Owner None None None None
       = Returns doc
       ∧ dict_get "definitions" (schema doc) = Some (JDict defs)
       ∧ dict_get "Car" defs = Some (JDict car)
       ∧ dict_get "properties" car = Some (JDict props)
       ∧ dict_get "owner_id" props = Some (JDict fk))
  ∧ (∃ doc defs car props,
       __call__ self Fixtures.garage 3
         (Fixtures.Owner_with [Fixtures.Owner_cars; Fixtures.Owner_pets])
         None None None None
       = Returns doc
       ∧ dict_get "definitions" (schema doc) = Some (JDict defs)
       ∧ dict_get "Car" defs = Some (JDict car)
       ∧ dict_get "properties" car = Some (JDict props)
       ∧ dict_keys props = ["plate"]).
Proof.
  split; [by vm_compute|]. split; [|split].
  - eexists _, _. split; [reflexivity|]. split; [by vm_compute|].
    split; by vm_compute.
  - eexists _, _, _, _. split; [by vm_compute|]. repeat split; reflexivity.
  - eexists _, _, _, _. split; [by vm_compute|]. repeat split; reflexivity.
Qed.

(** ** C6: overrides that are left over *)

(** C6 at two failing inputs.  The call decides on [not_used_keys] of the
    caller's collection, and [overrides] removes every key of the mapping
    from it as soon as one column is named by a key.

    With the overrides [{"name": F, "bogus": "x"}] on [User], the column
    [name] is named by a key: both pairs are written into its field, both
    keys are removed, and the call returns a document although no field
    [bogus] is produced.

    With the override [{"pets.tag": F}] on [Owner], the key is handed to the
    collection of the child, which has a [not_used_keys] of its own: the
    field [tag] of [Pet] is produced with the override, the key stays in the
    caller's collection, and the call raises. *)
Lemma C6_unused_key_accepted_and_used_key_left_over :
  let F := JDict [("maxLength", JInt 10)] in
  (let self := Fixtures.factory SingleModelWalker RelationDesicion false in
   ∃ doc props,
     __call__ self [] 1 Fixtures.User None None
       (Some [("name", Value F); ("bogus", Value (JStr "x"))]) None
     = Returns doc
     ∧ dict_get "properties" (schema doc) = Some (JDict props)
     ∧ dict_keys props = ["id"; "name"]
     ∧ dict_get "name" props
       = Some (JDict [("type", JStr "string"); ("maxLength", JInt 50);
                      ("name", F); ("bogus", JStr "x")]))
  ∧ (let self := Fixtures.factory AlsoChildrenWalker RelationDesicion false in
     let ov := CollectionForOverrides.__init__ [("pets.tag", Value F)] in
     (ChildFactory.child_overrides (child_factory self) Fixtures.Owner_pets ov
      ≫= column_schema self Fixtures.pets_tag [])
     = Ok ([("type", JStr "integer"); ("tag", F)],
           {| params := [("tag", Value F)]; not_used_keys := ∅ |})
     ∧ __call__ self Fixtures.garage 3
         (Fixtures.Owner_with [Fixtures.Owner_pets])
         None None (Some [("pets.tag", Value F)]) None
       = Raises (InvalidStatus (InvalidOverrides {[ "pets.tag" ]}))).
Proof.
  split.
  - eexists _, _. split; [by vm_compute|]. repeat split; reflexivity.
  - split; by vm_compute.
Qed.

(** ** C10: what [overrides] writes and consumes *)

Lemma dict_get_set_eq {V} k (v : V) d : dict_get k (dict_set k v d) = Some v.
Proof.
  induction d as [|[k' v'] d IH]; simpl.
  - by destruct (decide (k = k)).
  - destruct (decide (k' = k)) as [->|Hne]; simpl.
    + by destruct (decide (k = k)).
    + by destruct (decide (k' = k)).
Qed.

Lemma dict_get_set_ne {V} k k' (v : V) d :
  k ≠ k' → dict_get k' (dict_set k v d) = dict_get k' d.
Proof.
  intros Hne. induction d as [|[k0 v0] d IH]; simpl.
  - by destruct (decide (k = k')).
  - destruct (decide (k0 = k)) as [->|Hk]; simpl.
    + by destruct (decide (k = k')).
    + by rewrite IH.
Qed.

Lemma dict_get_None {V} k (d : dict V) : k ∉ dict_keys d → dict_get k d = None.
Proof.
  induction d as [|[k' v'] d IH]; [done|]. simpl. intros Hk.
  apply not_elem_of_cons in Hk as [Hne Hk].
  destruct (decide (k' = k)); [congruence|]. by apply IH.
Qed.

Lemma dict_get_update_None {V} k (other : dict V) : ∀ d,
  dict_get k other = None → dict_get k (dict_update d other) = dict_get k d.
Proof.
  unfold dict_update.
  induction other as [|[k' v'] other IH]; intros d Hk; [done|].
  simpl in *. destruct (decide (k' = k)); [done|].
  rewrite IH by done. by apply dict_get_set_ne.
Qed.

Lemma dict_keys_cons {V} k (v : V) d :
  dict_keys ((k, v) :: d) = k :: dict_keys d.
Proof. reflexivity. Qed.

Lemma replacements_keys ps k :
  k ∈ dict_keys (replacements ps) → k ∈ dict_keys ps.
Proof.
  unfold dict_keys, replacements. rewrite !list_elem_of_fmap.
  intros ([k' j] & -> & Hin). apply list_elem_of_omap in Hin as ([k0 v0] & Hin & Hv).
  exists (k0, v0). destruct v0; simplify_eq/=. done.
Qed.

Lemma dict_get_replacements ps : ∀ d k v,
  NoDup (dict_keys ps) → (k, Value v) ∈ ps →
  dict_get k (dict_update d (replacements ps)) = Some v.
Proof.
  induction ps as [|[k' v'] ps IH]; intros d k v Hnd Hin.
  - by apply elem_of_nil in Hin.
  - apply NoDup_cons in Hnd as [Hk' Hnd].
    apply elem_of_cons in Hin as [[= <- <-]|Hin].
    + simpl. change (dict_get k (dict_update (dict_set k v d) (replacements ps))
                     = Some v).
      rewrite dict_get_update_None; [apply dict_get_set_eq|].
      apply dict_get_None. intros Hin. by apply Hk', replacements_keys.
    + destruct v' as [|j']; [by apply IH|].
      change (dict_get k (dict_update (dict_set k' j' d) (replacements ps))
              = Some v).
      by apply IH.
Qed.

(** On a mapping without pop markers whose keys are all still unused,
    [overrides] succeeds: it writes every pair and removes every key. *)
Lemma overrides_items ps : ∀ basedict nu,
  NoDup (dict_keys ps) →
  Forall (λ kv, kv.2 ≠ pop_marker) ps →
  list_to_set (dict_keys ps) ⊆ nu →
  fold_result CollectionForOverrides.overrides_item (basedict, nu) ps
  = Ok (dict_update basedict (replacements ps),
        nu ∖ list_to_set (dict_keys ps)).
Proof.
  induction ps as [|[k v] ps IH]; intros basedict nu Hnd Hpop Hsub.
  - simpl. f_equal. f_equal. set_solver.
  - rewrite dict_keys_cons in Hnd, Hsub. rewrite dict_keys_cons.
    rewrite list_to_set_cons in Hsub. rewrite list_to_set_cons.
    apply NoDup_cons in Hnd as [Hk Hnd].
    apply Forall_cons in Hpop as [Hv Hpop].
    destruct v as [|j]; [done|].
    cbn [fold_result CollectionForOverrides.overrides_item].
    cbn [mbind result_bind].
    destruct (decide (k ∈ nu)) as [_|Hnot]; [|set_solver].
    cbn [mbind result_bind]. rewrite IH; [|done|done|].
    + f_equal. f_equal. set_solver.
    + assert (k ∉ (list_to_set (dict_keys ps) : gset string))
        by by rewrite not_elem_of_list_to_set.
      set_solver.
Qed.

Lemma overrides_fresh ps basedict :
  NoDup (dict_keys ps) →
  Forall (λ kv, kv.2 ≠ pop_marker) ps →
  CollectionForOverrides.overrides (CollectionForOverrides.__init__ ps) basedict
  = Ok (dict_update basedict (replacements ps),
        {| params := ps; not_used_keys := ∅ |}).
Proof.
  intros Hnd Hpop. unfold CollectionForOverrides.overrides. simpl.
  rewrite overrides_items by done. simpl. f_equal. f_equal. f_equal.
  set_solver.
Qed.

Lemma result_bind_Ok {A B} (f : A → result B) (m : result A) b :
  m ≫= f = Ok b → ∃ a, m = Ok a ∧ f a = Ok b.
Proof. destruct m; simpl; [eauto|done..]. Qed.

(** C10: when the name of a produced column is a key of the caller's
    override mapping (a mapping of replacement values), the schema of that
    one field receives every pair of the mapping, except where the
    decision's options overwrite it afterwards, and every key of the mapping
    is consumed at once; and there is a model with two scalar columns, each
    named by an override key, for which generation raises [KeyError] when
    the second column is reached. *)
Theorem C10_overrides_whole_mapping :
  (∀ self column opts ps field ov',
     NoDup (dict_keys ps) →
     Forall (λ kv, kv.2 ≠ pop_marker) ps →
     CollectionForOverrides.__contains__ (CollectionForOverrides.__init__ ps)
       (c_name column) = true →
     column_schema self column opts (CollectionForOverrides.__init__ ps)
     = Ok (field, ov') →
     not_used_keys ov' = ∅
     ∧ ∀ k v, (k, Value v) ∈ ps → dict_get k opts = None →
              dict_get k field = Some v)
  ∧ (let self := Fixtures.factory SingleModelWalker RelationDesicion false in
     __call__ self [] 1 Fixtures.User None None
       (Some [("id", Value (JDict [("type", JStr "string")]));
              ("name", Value (JDict [("maxLength", JInt 10)]))]) None
     = Raises (KeyError "id")).
Proof.
  split; [|by vm_compute].
  intros self column opts ps field ov' Hnd Hpop Hin Hcol.
  unfold column_schema in Hcol. destruct (c_type column) as [t|]; [|done].
  apply result_bind_Ok in Hcol as ([itype ty] & _ & Hcol).
  apply result_bind_Ok in Hcol as (sub1 & _ & Hcol).
  apply result_bind_Ok in Hcol as (sub2 & _ & Hcol).
  rewrite Hin, overrides_fresh in Hcol by done. simpl in Hcol.
  injection Hcol as <- <-. split; [done|].
  intros k v Hk Hopts.
  destruct opts as [|o opts].
  - by apply dict_get_replacements.
  - rewrite dict_get_update_None by done. by apply dict_get_replacements.
Qed.

Lemma C10_overrides_whole_mapping_witness :
  let self := Fixtures.factory SingleModelWalker RelationDesicion false in
  let ps := [("id", Value (JDict [("type", JStr "string")]));
             ("name", Value (JDict [("maxLength", JInt 10)]))] in
  ∃ field ov',
    column_schema self Fixtures.users_id [] (CollectionForOverrides.__init__ ps)
    = Ok (field, ov')
    ∧ not_used_keys ov' = ∅
    ∧ dict_get "name" field = Some (JDict [("maxLength", JInt 10)]).
Proof.
  intros self ps.
  destruct (column_schema self Fixtures.users_id []
              (CollectionForOverrides.__init__ ps))
    as [[field ov']|] eqn:Hcol; [|by vm_compute in Hcol].
  exists field, ov'. split; [reflexivity|].
  destruct C10_overrides_whole_mapping as [Hall _].
  destruct (Hall self Fixtures.users_id [] ps field ov') as [Hnu Hget].
  - repeat constructor; set_solver.
  - repeat constructor; done.
  - reflexivity.
  - exact Hcol.
  - split; [exact Hnu|]. apply Hget; [|reflexivity].
    apply list_elem_of_further, list_elem_of_here.
Defined.

(** * Further properties *)

(** ** Strings *)

Lemma app_String a s t : String.app (String a s) t = String a (String.app s t).
Proof. reflexivity. Qed.

Lemma prefix_refl_app p e : String.prefix p (String.app p e) = true.
Proof.
  induction p as [|a p IH]; [by destruct e|].
  rewrite app_String. simpl. by destruct (ascii_dec a a).
Qed.

Lemma prefix_split p : ∀ e,
  String.prefix p e = true → e = String.app p (drop_chars (String.length p) e).
Proof.
  induction p as [|a p IH]; intros e He; [by destruct e|].
  destruct e as [|b e]; [done|]. simpl in He.
  destruct (ascii_dec a b) as [->|]; [|done].
  rewrite app_String. simpl. f_equal. by apply IH.
Qed.

Lemma drop_chars_app p e : drop_chars (String.length p) (String.app p e) = e.
Proof. induction p as [|a p IH]; [by destruct e|]. by rewrite app_String. Qed.

Lemma after_first_unfold sep k :
  after_first sep k
  = if String.prefix sep k then Some (drop_chars (String.length sep) k)
    else match k with
         | EmptyString => None
         | String _ k' => after_first sep k'
         end.
Proof. by destruct k. Qed.

(** The separator occurs in every string that starts with
    [name + separator]. *)
Lemma after_first_is_Some sep name : ∀ rest,
  is_Some (after_first sep (String.app name (String.app sep rest))).
Proof.
  induction name as [|a name IH]; intros rest; rewrite after_first_unfold.
  - change (String.app "" ?s) with s. rewrite prefix_refl_app. eauto.
  - destruct (String.prefix sep _); [by eauto|]. rewrite app_String. apply IH.
Qed.

(** Where the separator is one character that does not occur in [name], its
    first occurrence is the one after [name]. *)
Lemma after_first_char c name : ∀ rest,
  c ∉ list_ascii_of_string name →
  after_first (String c "") (String.app name (String c rest)) = Some rest.
Proof.
  induction name as [|a name IH]; intros rest Hc; rewrite after_first_unfold.
  - change (String.app "" ?s) with s. simpl.
    destruct (ascii_dec c c); [|done]. by destruct rest.
  - simpl in Hc. apply not_elem_of_cons in Hc as [Hne Hc].
    rewrite app_String. simpl. destruct (ascii_dec c a); [done|]. by apply IH.
Qed.

Lemma string_app_assoc s t u :
  String.app (String.app s t) u = String.app s (String.app t u).
Proof. induction s as [|a s IH]; [done|]. by rewrite !app_String, IH. Qed.

Lemma string_app_empty s : String.app s "" = s.
Proof. induction s as [|a s IH]; [done|]. by rewrite app_String, IH. Qed.

(** ** Dotted-path scoping ([get_children]) *)

Lemma split1_prefixed splitter name k :
  splitter ≠ "" → startswith k (String.app name splitter) = true →
  ∃ rest, split1 splitter k = Ok rest.
Proof.
  intros Hne Hk. apply prefix_split in Hk. rewrite Hk, string_app_assoc.
  unfold split1. destruct (decide (splitter = "")); [done|].
  destruct (after_first_is_Some splitter name
              (drop_chars (String.length (String.app name splitter)) k))
    as [rest ->]. eauto.
Qed.

Lemma children_of_list_total splitter name l :
  splitter ≠ "" →
  ∃ r, children_of_list (String.app name splitter) splitter l = Ok r.
Proof.
  intros Hne. induction l as [|e l [r IH]]; simpl; [by eauto|].
  destruct (startswith e _) eqn:He; [|by eauto].
  destruct (split1_prefixed splitter name e Hne He) as [rest ->].
  simpl. rewrite IH. simpl. eauto.
Qed.

Lemma children_of_dict_total {V} splitter name (d : dict V) :
  splitter ≠ "" →
  ∃ r, children_of_dict (String.app name splitter) splitter d = Ok r.
Proof.
  intros Hne. induction d as [|[k v] d [r IH]]; simpl; [by eauto|].
  destruct (startswith k _) eqn:Hk; [|by eauto].
  destruct (split1_prefixed splitter name k Hne Hk) as [rest ->].
  simpl. rewrite IH. simpl. eauto.
Qed.

(** X1: with a splitter that is not empty, [get_children] returns for every
    name and every argument: a key that passes [startswith(prefix)] contains
    the splitter, so [k.split(splitter, 1)[1]] exists. *)
Theorem X1_get_children_returns {V} name (ps : pyparams V) splitter default :
  splitter ≠ "" → ∃ r, get_children name ps splitter default = Ok r.
Proof.
  intros Hne. unfold get_children. destruct ps as [d|l|]; [| |by eauto].
  - destruct (children_of_dict_total splitter name d Hne) as [r ->].
    simpl. eauto.
  - destruct (children_of_list_total splitter name l Hne) as [r ->].
    simpl. eauto.
Qed.

Lemma X1_get_children_returns_witness :
  ∃ r, get_children "pets" (ParamsList (V:=unit) ["id"; "pets.tag"]) "."
         ParamsNone = Ok r.
Proof. apply X1_get_children_returns. discriminate. Defined.

(** X2: with the empty splitter, [get_children] on a list raises
    [ValueError] as soon as an entry starts with [name]: the prefix is
    [name] itself, and [split] rejects an empty separator. *)
Theorem X2_get_children_empty_splitter name l1 e l2 (default : pyparams unit) :
  Forall (λ e', startswith e' name = false) l1 →
  startswith e name = true →
  get_children name (ParamsList (l1 ++ e :: l2)) "" default
  = Raise (ValueError "empty separator").
Proof.
  intros Hl1 He. unfold get_children.
  rewrite string_app_empty.
  induction Hl1 as [|e' l1 He' _ IH]; simpl.
  - by rewrite He.
  - by rewrite He'.
Qed.

Lemma X2_get_children_empty_splitter_witness :
  get_children "pets" (ParamsList ["id"; "pets.tag"]) "" (ParamsNone (V:=unit))
  = Raise (ValueError "empty separator").
Proof.
  apply (X2_get_children_empty_splitter "pets" ["id"] "pets.tag" []).
  - repeat constructor.
  - reflexivity.
Defined.

Lemma split1_char c name k :
  c ∉ list_ascii_of_string name →
  startswith k (String.app name (String c "")) = true →
  split1 (String c "") k
  = Ok (drop_chars (String.length (String.app name (String c ""))) k).
Proof.
  intros Hc Hk. apply prefix_split in Hk. rewrite Hk at 1.
  rewrite string_app_assoc. unfold split1.
  destruct (decide (String c "" = "")); [done|].
  change (String.app (String c "") ?r) with (String c r).
  by rewrite after_first_char.
Qed.

Lemma children_of_list_char name c l :
  c ∉ list_ascii_of_string name →
  children_of_list (String.app name (String c "")) (String c "") l
  = Ok (omap (strip_prefix (String.app name (String c ""))) l).
Proof.
  intros Hc. induction l as [|e l IH]; [done|]. simpl. unfold strip_prefix at 1.
  destruct (startswith e _) eqn:He; [|done].
  rewrite (split1_char c name e Hc He), IH. done.
Qed.

Lemma children_of_dict_char {V} name c (d : dict V) :
  c ∉ list_ascii_of_string name →
  children_of_dict (String.app name (String c "")) (String c "") d
  = Ok (omap (λ kv, (λ k, (k, kv.2))
                    <$> strip_prefix (String.app name (String c "")) kv.1) d).
Proof.
  intros Hc. induction d as [|[k v] d IH]; [done|]. simpl.
  unfold strip_prefix at 1.
  destruct (startswith k _) eqn:Hk; [|done].
  rewrite (split1_char c name k Hc Hk), IH. done.
Qed.

(** X3: where the splitter is one character that does not occur in [name],
    [get_children] on a list keeps, in order, the entries that start with
    [name + splitter], each without that prefix, and drops the others. *)
Theorem X3_get_children_list name c l (default : pyparams unit) :
  c ∉ list_ascii_of_string name →
  get_children name (ParamsList l) (String c "") default
  = Ok (ParamsList (omap (strip_prefix (String.app name (String c ""))) l)).
Proof.
  intros Hc. unfold get_children. by rewrite children_of_list_char.
Qed.

Lemma X3_get_children_list_witness :
  get_children "pets" (ParamsList ["id"; "pets.tag"; "petstore"; "pets.owner.id"])
    "." (ParamsNone (V:=unit))
  = Ok (ParamsList ["tag"; "owner.id"]).
Proof.
  rewrite (X3_get_children_list "pets" "."%char); [reflexivity|].
  vm_compute. set_solver.
Defined.

(** X4: the same for a mapping: the result is the mapping built, in order,
    from the entries whose key starts with [name + splitter], under the key
    without that prefix. *)
Theorem X4_get_children_dict {V} name c (d default_ : dict V) :
  c ∉ list_ascii_of_string name →
  get_children name (ParamsDict d) (String c "") (ParamsDict default_)
  = Ok (ParamsDict
          (foldl (λ acc kv, dict_set kv.1 kv.2 acc) []
             (omap (λ kv, (λ k, (k, kv.2))
                          <$> strip_prefix (String.app name (String c "")) kv.1)
                   d))).
Proof.
  intros Hc. unfold get_children. by rewrite children_of_dict_char.
Qed.

Lemma X4_get_children_dict_witness :
  get_children "pets" (ParamsDict [("pets.tag", 1); ("id", 2); ("pets.a.b", 3)])
    "." (ParamsDict [])
  = Ok (ParamsDict [("tag", 1); ("a.b", 3)]).
Proof.
  rewrite (X4_get_children_dict "pets" "."%char); [reflexivity|].
  vm_compute. set_solver.
Defined.

(** X5: a round trip: paths put under [name + splitter] come back unchanged
    when the list is narrowed to [name]. *)
Theorem X5_get_children_round_trip name c rs (default : pyparams unit) :
  c ∉ list_ascii_of_string name →
  get_children name
    (ParamsList ((λ r, String.app name (String c r)) <$> rs))
    (String c "") default
  = Ok (ParamsList rs).
Proof.
  intros Hc. unfold get_children. rewrite children_of_list_char by done.
  simpl. do 2 f_equal.
  induction rs as [|r rs IH]; [done|]. simpl. unfold strip_prefix at 1.
  assert (String.app name (String c r)
          = String.app (String.app name (String c "")) r) as ->
    by by rewrite string_app_assoc.
  unfold startswith. rewrite prefix_refl_app, drop_chars_app.
  simpl. f_equal. exact IH.
Qed.

Lemma X5_get_children_round_trip_witness :
  get_children "pets" (ParamsList ["pets.tag"; "pets.owner.id"]) "."
    (ParamsNone (V:=unit))
  = Ok (ParamsList ["tag"; "owner.id"]).
Proof.
  apply (X5_get_children_round_trip "pets" "."%char ["tag"; "owner.id"]).
  vm_compute. set_solver.
Defined.

(** ** Walkers *)

Lemma set_walking_id w : set_walking w (walking w) = w.
Proof. by destruct w. Qed.

Lemma set_walking_twice w wk wk' :
  set_walking (set_walking w wk) wk' = set_walking w wk'.
Proof. done. Qed.

(** What a run of [walk] to its end yields: the store is as before, the
    walker has only marked names, and every property passed the test of
    [walk] with the names marked so far. *)
Lemma foldM_collect steps : ∀ w acc st w' ps' st',
  foldM (walk_step (λ w acc prop, mret (w, acc ++ [prop]))) (w, acc) steps st
  = Returns ((w', ps'), st') →
  st' = st
  ∧ ∃ ms qs,
      w' = set_walking w (walking w ++ ms) ∧ ps' = acc ++ qs
      ∧ (∀ n, n ∈ ms → Mark n ∈ steps)
      ∧ Forall (λ p, Yield p ∈ steps
                     ∧ ∃ ms0, ms0 `prefix_of` ms
                         ∧ walk (set_walking w (walking w ++ ms0))
                                (deref (history w) st) p = true) qs.
Proof.
  induction steps as [|s steps IH]; intros w acc st w' ps' st'.
  - intros [= <- <- <-]. split; [done|]. exists [], [].
    rewrite !app_nil_r, set_walking_id. split_and!; [done..| |constructor].
    intros n Hn. by apply elem_of_nil in Hn.
  - rewrite foldM_cons. destruct s as [n|p|e]; [| |done].
    + rewrite walk_step_Mark. intros Hrest.
      apply IH in Hrest as (-> & ms & qs & -> & -> & Hms & Hqs).
      split; [done|]. exists (n :: ms), qs. simpl.
      rewrite <-app_assoc. split_and!; [done..| |].
      * intros n' [->|Hn']%elem_of_cons; [apply list_elem_of_here|].
        by apply list_elem_of_further, Hms.
      * eapply Forall_impl; [exact Hqs|]. simpl.
        intros q (Hq & ms0 & Hpre & Hwalk). split; [by apply list_elem_of_further|].
        exists (n :: ms0). split; [by apply prefix_cons|].
        by rewrite <-app_assoc in Hwalk.
    + rewrite walk_step_Yield.
      destruct (walk w (deref (history w) st) p) eqn:Hw; cbn; intros Hrest;
        apply IH in Hrest as (-> & ms & qs & -> & -> & Hms & Hqs);
        (split; [done|]).
      * exists ms, (p :: qs). rewrite <-app_assoc. split_and!; [done..| |].
        -- intros n Hn. by apply list_elem_of_further, Hms.
        -- constructor.
           ++ split; [apply list_elem_of_here|]. exists [].
              split; [apply prefix_nil|]. by rewrite app_nil_r, set_walking_id.
           ++ eapply Forall_impl; [exact Hqs|]. simpl.
              intros q (Hq & Hrest). split; [by apply list_elem_of_further|done].
      * exists ms, qs. split_and!; [done..| |].
        -- intros n Hn. by apply list_elem_of_further, Hms.
        -- eapply Forall_impl; [exact Hqs|]. simpl.
           intros q (Hq & Hrest). split; [by apply list_elem_of_further|done].
Qed.

Lemma walk_all_collect w st w' ps st' :
  walk_all w st = Returns ((w', ps), st') →
  st' = st
  ∧ ∃ ms,
      w' = set_walking w (walking w ++ ms)
      ∧ (∀ n, n ∈ ms → Mark n ∈ iterate w)
      ∧ Forall (λ p, Yield p ∈ iterate w
                     ∧ ∃ ms0, ms0 `prefix_of` ms
                         ∧ walk (set_walking w (walking w ++ ms0))
                                (deref (history w) st) p = true) ps.
Proof.
  intros Hrun. apply foldM_collect in Hrun as (-> & ms & qs & -> & -> & Hms & Hqs).
  split; [done|]. exists ms. done.
Qed.

Lemma walk_filters w hist p :
  walk w hist p = true → included w p = true ∧ not_excluded w p = true.
Proof.
  unfold walk, SingleModelWalker.walk, OneModelOnlyWalker.walk,
    AlsoChildrenWalker.walk, HandControlledWalker.walk.
  destruct (w_class w); intros Hw;
    repeat (apply andb_true_iff in Hw as [Hw ?]); done.
Qed.

(** X6: for a walker of any class, a run of [walk] to its end leaves the
    store as it was, and every property it yields is a property of the
    walker's mapper, is named in [includes] when that is given, and is not
    named in [excludes] when that is given. *)
Theorem X6_walk_yields_filtered w st w' ps st' :
  walk_all w st = Returns ((w', ps), st') →
  st' = st
  ∧ Forall (λ p, p ∈ mapper_props (mapper w)
                 ∧ (∀ inc, includes w = Some inc → key p ∈ inc)
                 ∧ (∀ exc, excludes w = Some exc → Some (key p) ∉ exc)) ps.
Proof.
  intros Hrun. apply walk_all_collect in Hrun as (-> & ms & -> & _ & Hps).
  split; [done|]. eapply Forall_impl; [exact Hps|]. simpl.
  intros p (Hp & ms0 & _ & Hw). split; [by apply iterate_yields|].
  apply walk_filters in Hw as [Hinc Hexc].
  unfold included, not_excluded in *. simpl in *. split.
  - intros inc Hi. rewrite Hi in Hinc. by apply bool_decide_eq_true in Hinc.
  - intros exc He. rewrite He in Hexc. by apply bool_decide_eq_true in Hexc.
Qed.

Lemma X6_walk_yields_filtered_witness :
  let w := {| w_class := AlsoChildrenWalker; mapper := Fixtures.Owner;
              includes := Some ["id"; "pets"]; excludes := Some [Some "cars"];
              history := 0; decisions := None; walking := [] |} in
  let st := {| lists := [[]]; root_schema := [] |} in
  ∃ w' ps st',
    walk_all w st = Returns ((w', ps), st')
    ∧ st' = st
    ∧ Forall (λ p, p ∈ mapper_props (mapper w)
                   ∧ (∀ inc, includes w = Some inc → key p ∈ inc)
                   ∧ (∀ exc, excludes w = Some exc → Some (key p) ∉ exc)) ps.
Proof.
  intros w st. eexists _, _, _. split; [reflexivity|].
  eapply X6_walk_yields_filtered. reflexivity.
Defined.

(** X7: the walkers [OneModelOnlyWalker] and [AlsoChildrenWalker] never
    yield a property that has a column with a foreign key, and the walkers
    that test the history never yield a property that is in it. *)
Theorem X7_walk_skips_foreign_keys_and_history w st w' ps st' :
  walk_all w st = Returns ((w', ps), st') →
  ((w_class w = OneModelOnlyWalker ∨ w_class w = AlsoChildrenWalker) →
     Forall (λ p, ∀ c, c ∈ getattr_columns p → foreign_keys c = []) ps)
  ∧ (guards_history (w_class w) = true →
     Forall (λ p, prop_id p ∉ prop_id <$> deref (history w) st) ps).
Proof.
  intros Hrun. apply walk_all_collect in Hrun as (-> & ms & -> & _ & Hps).
  split.
  - intros Hcls. eapply Forall_impl; [exact Hps|]. simpl.
    intros p (_ & ms0 & _ & Hw) c Hc.
    assert (any_foreign_keys p = false) as Hfk.
    { unfold walk in Hw. simpl in Hw.
      destruct Hcls as [Hcls|Hcls]; rewrite Hcls in Hw;
        apply andb_true_iff in Hw as [_ Hw]; by apply negb_true_iff in Hw. }
    unfold any_foreign_keys in Hfk.
    destruct (foreign_keys c) eqn:Hf; [done|].
    assert (existsb (λ c, match foreign_keys c with [] => false | _ => true end)
                    (getattr_columns p) = true) as Ht; [|congruence].
    apply existsb_exists. exists c. rewrite <-list_elem_of_In, Hf. done.
  - intros Hg. eapply Forall_impl; [exact Hps|]. simpl.
    intros p (_ & ms0 & _ & Hw). eapply walk_guard; [|exact Hw]. exact Hg.
Qed.

Lemma X7_walk_skips_foreign_keys_and_history_witness :
  let w := {| w_class := AlsoChildrenWalker; mapper := Fixtures.Pet;
              includes := None; excludes := None;
              history := 0; decisions := None; walking := [] |} in
  let st := {| lists := [[]]; root_schema := [] |} in
  ∃ w' ps st',
    walk_all w st = Returns ((w', ps), st')
    ∧ Forall (λ p, ∀ c, c ∈ getattr_columns p → foreign_keys c = []) ps
    ∧ Forall (λ p, prop_id p ∉ prop_id <$> deref (history w) st) ps.
Proof.
  intros w st. eexists _, _, _. split; [reflexivity|].
  destruct (X7_walk_skips_foreign_keys_and_history w st _ _ _ eq_refl)
    as [Hfk Hhist].
  split; [apply Hfk; by right|by apply Hhist].
Defined.

Lemma foldM_app {A S} (f : S → A → M S) l1 l2 : ∀ s st,
  foldM f s (l1 ++ l2) st = match foldM f s l1 st with
                            | Some (Ok (s', st')) => foldM f s' l2 st'
                            | Some (Raise e) => Some (Raise e)
                            | None => None
                            end.
Proof.
  induction l1 as [|a l1 IH]; intros s st; [done|]. simpl.
  rewrite !bind_unfold. destruct (f s a st) as [[[s1 st1]|e]|]; [|done..].
  apply IH.
Qed.

(** A step that raises ends the walk: a walk that returns has met none. *)
Lemma foldM_collect_no_Throw steps : ∀ w acc st r,
  foldM (walk_step (λ w acc prop, mret (w, acc ++ [prop]))) (w, acc) steps st
  = Returns r →
  ∀ e, Throw e ∉ steps.
Proof.
  induction steps as [|s steps IH]; intros w acc st r Hrun e.
  - apply not_elem_of_nil.
  - rewrite foldM_cons in Hrun. destruct s as [n|p|e']; [| |done].
    + rewrite walk_step_Mark in Hrun. apply IH with (e:=e) in Hrun.
      by intros [?|?]%elem_of_cons.
    + rewrite walk_step_Yield in Hrun.
      destruct (walk _ _ _); cbn in Hrun; apply IH with (e:=e) in Hrun;
        by intros [?|?]%elem_of_cons.
Qed.

Lemma foldM_collect_yields ps : ∀ w acc st,
  ∃ acc', foldM (walk_step (λ w acc prop, mret (w, acc ++ [prop]))) (w, acc)
                (Yield <$> ps) st
          = Returns ((w, acc'), st).
Proof.
  induction ps as [|p ps IH]; intros w acc st; [by eexists|].
  rewrite fmap_cons, foldM_cons, walk_step_Yield.
  destruct (walk _ _ _); cbn; apply IH.
Qed.

Lemma iterate_starts_with_columns w :
  ∃ rest, iterate w = iterate_columns (mapper w) ++ rest.
Proof.
  unfold iterate, SingleModelWalker.iterate, OneModelOnlyWalker.iterate,
    AlsoChildrenWalker.iterate, HandControlledWalker.iterate.
  destruct (w_class w); eauto; exists []; by rewrite app_nil_r.
Qed.

(** X8: every walker looks the columns of the table up in the mapper's
    properties by the column's name.  Where the first column that has no
    property under its name is [c], the walk of any walker class raises
    [KeyError] for the name of [c], whatever the filters. *)
Theorem X8_walk_column_without_property w st cs1 c cs2 :
  local_table_columns (mapper w) = cs1 ++ c :: cs2 →
  Forall (λ c', is_Some (dict_get (c_name c') (_props (mapper w)))) cs1 →
  dict_get (c_name c) (_props (mapper w)) = None →
  walk_all w st = Raises (KeyError (c_name c)).
Proof.
  intros Hcols Hcs1 Hc. unfold walk_all, for_walk.
  destruct (iterate_starts_with_columns w) as [rest ->].
  unfold iterate_columns. rewrite Hcols, fmap_app, fmap_cons, <-!app_assoc.
  assert (∃ ps, (λ c, lookup_prop (mapper w) (c_name c)) <$> cs1 = Yield <$> ps)
    as [ps ->].
  { clear Hcols. induction Hcs1 as [|c' cs1 [p Hp] _ [ps IH]]; [by exists []|].
    exists (p :: ps). rewrite !fmap_cons, IH. unfold lookup_prop. by rewrite Hp. }
  rewrite foldM_app. destruct (foldM_collect_yields ps w [] st) as [acc' ->].
  simpl. rewrite bind_unfold. unfold lookup_prop. by rewrite Hc.
Qed.

Lemma X8_walk_column_without_property_witness :
  let Renamed :=
    {| class_name := "User"; _tablename := Some "users";
       mapped_table_name := "users"; class_doc := None;
       local_table_columns := [Fixtures.users_id; Fixtures.users_name];
       _props := [Fixtures.column_prop "User" Fixtures.users_id;
                  ("full_name",
                   ColumnProp {| cp_parent := "User"; cp_key := "full_name";
                                 columns := [Fixtures.users_name] |})];
       relationships := [] |} in
  walk_all {| w_class := SingleModelWalker; mapper := Renamed;
              includes := Some ["id"]; excludes := None; history := 0;
              decisions := None; walking := [] |}
           {| lists := [[]]; root_schema := [] |}
  = Raises (KeyError "name").
Proof.
  intros Renamed.
  apply (X8_walk_column_without_property _ _ [Fixtures.users_id]
           Fixtures.users_name []).
  - reflexivity.
  - repeat constructor. by eexists.
  - reflexivity.
Defined.

Lemma Mark_in_iterate w n :
  Mark n ∈ iterate w →
  w_class w = HandControlledWalker
  ∧ ∃ r c ds, r ∈ relationships (mapper w) ∧ decisions w = Some ds
      ∧ dict_get (rp_key r) ds = Some "foreignkey"
      ∧ c ∈ local_columns r ∧ n = c_name c.
Proof.
  assert (∀ m, Mark n ∉ iterate_columns m) as Hcols.
  { intros m (c & Hc & _)%list_elem_of_fmap. unfold lookup_prop in Hc.
    by destruct (dict_get _ _). }
  unfold iterate, SingleModelWalker.iterate, OneModelOnlyWalker.iterate,
    AlsoChildrenWalker.iterate, HandControlledWalker.iterate.
  destruct (w_class w); try (intros Hin; by apply Hcols in Hin).
  - intros [Hin|Hin]%elem_of_app; [by apply Hcols in Hin|].
    by apply list_elem_of_fmap in Hin as (r & ? & _).
  - intros [Hin|Hin]%elem_of_app; [by apply Hcols in Hin|].
    split; [done|].
    apply list_elem_of_bind in Hin as (r & Hin & Hr).
    unfold HandControlledWalker.treat_relationship in Hin.
    destruct (decisions w) as [ds|]; [|by apply list_elem_of_singleton in Hin].
    destruct (dict_get (rp_key r) ds) as [d|] eqn:Hd;
      [|by apply list_elem_of_singleton in Hin].
    destruct (decide (d = "relationship"));
      [by apply list_elem_of_singleton in Hin|].
    destruct (decide (d = "foreignkey")) as [->|];
      [|by apply list_elem_of_singleton in Hin].
    apply list_elem_of_bind in Hin as (c & Hin & Hc).
    apply elem_of_cons in Hin as [[= ->]|Hin].
    + by exists r, c, ds.
    + apply list_elem_of_singleton in Hin. unfold lookup_prop in Hin.
      by destruct (dict_get (c_name c) _).
Qed.

(** X9: a hand-controlled walker that starts with an empty [walking] list
    yields a property that has a column with a foreign key only when its key
    is the name of a local column of a relationship that the decisions map to
    ["foreignkey"]. *)
Theorem X9_hand_controlled_foreign_keys w st w' ps st' :
  w_class w = HandControlledWalker → walking w = [] →
  walk_all w st = Returns ((w', ps), st') →
  Forall (λ p, (∃ c, c ∈ getattr_columns p ∧ foreign_keys c ≠ []) →
               ∃ r c ds, r ∈ relationships (mapper w) ∧ decisions w = Some ds
                 ∧ dict_get (rp_key r) ds = Some "foreignkey"
                 ∧ c ∈ local_columns r ∧ key p = c_name c) ps.
Proof.
  intros Hcls Hwk Hrun.
  apply walk_all_collect in Hrun as (-> & ms & -> & Hms & Hps).
  eapply Forall_impl; [exact Hps|]. simpl.
  intros p (_ & ms0 & Hpre & Hw) (c & Hc & Hfk).
  assert (any_foreign_keys p = true) as Hany.
  { apply existsb_exists. exists c. rewrite <-list_elem_of_In.
    split; [done|]. by destruct (foreign_keys c). }
  unfold walk in Hw. simpl in Hw. rewrite Hcls in Hw.
  unfold HandControlledWalker.walk in Hw. simpl in Hw.
  rewrite Hany, Hwk, orb_false_r in Hw.
  apply andb_true_iff in Hw as [_ Hw]. apply bool_decide_eq_true in Hw.
  destruct Hpre as [ms1 ->].
  assert (Mark (key p) ∈ iterate w) as Hmark.
  { apply Hms, elem_of_app. by left. }
  by apply Mark_in_iterate in Hmark as [_ Hmark].
Qed.

Lemma X9_hand_controlled_foreign_keys_witness :
  let w := {| w_class := HandControlledWalker; mapper := Fixtures.Car;
              includes := None; excludes := None; history := 0;
              decisions := Some [("owner", "foreignkey")]; walking := [] |} in
  let st := {| lists := [[]]; root_schema := [] |} in
  ∃ w' ps st',
    walk_all w st = Returns ((w', ps), st')
    ∧ (Fixtures.column_prop "Car" Fixtures.cars_owner_id).2 ∈ ps
    ∧ Forall (λ p, (∃ c, c ∈ getattr_columns p ∧ foreign_keys c ≠ []) →
                   ∃ r c ds, r ∈ relationships (mapper w)
                     ∧ decisions w = Some ds
                     ∧ dict_get (rp_key r) ds = Some "foreignkey"
                     ∧ c ∈ local_columns r ∧ key p = c_name c) ps.
Proof.
  intros w st. eexists _, _, _. split; [reflexivity|].
  split; [apply list_elem_of_further, list_elem_of_here|].
  eapply (X9_hand_controlled_foreign_keys w st); reflexivity.
Defined.

(** X10: the walk of a hand-controlled walker returns only if the decisions
    map the key of every relationship of the mapper to ["relationship"] or
    to ["foreignkey"]. *)
Theorem X10_hand_controlled_decides_every_relationship w st r :
  w_class w = HandControlledWalker →
  walk_all w st = Returns r →
  ∀ rel, rel ∈ relationships (mapper w) →
    ∃ ds, decisions w = Some ds
      ∧ (dict_get (rp_key rel) ds = Some "relationship"
         ∨ dict_get (rp_key rel) ds = Some "foreignkey").
Proof.
  intros Hcls Hrun rel Hrel.
  assert (∀ e, Throw e ∉ HandControlledWalker.treat_relationship w rel) as Hno.
  { intros e Hin. eapply foldM_collect_no_Throw with (e:=e) in Hrun.
    apply Hrun. unfold iterate. rewrite Hcls.
    unfold HandControlledWalker.iterate. apply elem_of_app. right.
    apply list_elem_of_bind. eauto. }
  unfold HandControlledWalker.treat_relationship in Hno.
  destruct (decisions w) as [ds|];
    [|by destruct (Hno _ (list_elem_of_here _ _))].
  exists ds. split; [done|].
  destruct (dict_get (rp_key rel) ds) as [d|];
    [|by destruct (Hno _ (list_elem_of_here _ _))].
  destruct (decide (d = "relationship")) as [->|]; [by left|].
  destruct (decide (d = "foreignkey")) as [->|]; [by right|].
  by destruct (Hno _ (list_elem_of_here _ _)).
Qed.

Lemma X10_hand_controlled_decides_every_relationship_witness :
  let w := {| w_class := HandControlledWalker; mapper := Fixtures.Owner;
              includes := None; excludes := None; history := 0;
              decisions := Some [("pets", "relationship");
                                 ("cars", "foreignkey")];
              walking := [] |} in
  let st := {| lists := [[]]; root_schema := [] |} in
  ∃ r, walk_all w st = Returns r
    ∧ ∀ rel, rel ∈ relationships (mapper w) →
        ∃ ds, decisions w = Some ds
          ∧ (dict_get (rp_key rel) ds = Some "relationship"
             ∨ dict_get (rp_key rel) ds = Some "foreignkey").
Proof.
  intros w st. eexists. split; [reflexivity|].
  eapply (X10_hand_controlled_decides_every_relationship w st); reflexivity.
Defined.

(** ** The depth limit *)

Lemma total_ret {A} (a : A) : total (mret a).
Proof. by intros st. Qed.

Lemma total_raise {A} e : total (raise (A:=A) e).
Proof. by intros st. Qed.

Lemma total_lift {A} (r : result A) : total (lift r).
Proof. intros st. by destruct r. Qed.

Lemma total_bind {A B} (m : M A) (f : A → M B) :
  total m → (∀ a, total (f a)) → total (m ≫= f).
Proof.
  intros Hm Hf st. apply is_Some_bind; [apply Hm|]. intros a st1 _. apply Hf.
Qed.

Lemma total_foldM {A S} (f : S → A → M S) l : ∀ s,
  (∀ s a, total (f s a)) → total (foldM f s l).
Proof.
  induction l as [|a l IH]; intros s Hf; [apply total_ret|].
  simpl. apply total_bind; [apply Hf|]. intros s'. by apply IH.
Qed.

Lemma quiet_total {A} (m : M A) : quiet m → total m.
Proof. intros Hq st. by apply quiet_is_Some. Qed.

Lemma total_for_walk {S} (body : Walker → S → MapperProperty → M (Walker * S))
    w acc :
  (∀ w acc p, total (body w acc p)) → total (for_walk body w acc).
Proof.
  intros Hb. apply total_foldM. intros [w' acc'] [n|p|e]; simpl.
  - apply total_ret.
  - apply total_bind; [by intros st|]. intros hist.
    destruct (walk w' hist p); [apply Hb|apply total_ret].
  - apply total_raise.
Qed.

Lemma total_init cls model inc exc hist ds :
  total (BaseModelWalker.__init__ cls model inc exc hist ds).
Proof.
  apply total_bind.
  - intros st. destruct (history_or_new_Ok hist st) as (h & st' & -> & _). done.
  - intros h. destruct (_ && _); [apply total_raise|apply total_ret].
Qed.

Lemma total_child_walker cf models r w hist :
  total (ChildFactory.child_walker cf models r w hist).
Proof.
  unfold ChildFactory.child_walker.
  apply total_bind; [apply total_lift|]. intros exc.
  apply total_bind; [apply total_lift|]. intros inc.
  apply total_bind; [apply total_lift|]. intros target.
  unfold clone. destruct (w_class w); try apply total_init.
  apply total_bind; [apply total_lift|]. intros ds. apply total_init.
Qed.

Section depth_limit.
Variable self : SchemaFactory.
Variable models : registry.
Variable build : Walker → CollectionForOverrides → option Z → option nat
                 → bool → M (dict json).
Variable depth : option Z.

Hypothesis build_total : ∀ w ov ho t,
  total (build w ov (ChildFactory.decrement depth) ho t).

Lemma on_walked_total_depth h toplevel w fr p :
  total (on_walked self models build depth h toplevel w fr p).
Proof.
  unfold on_walked. apply total_bind; [by intros st|]. intros hist.
  apply total_foldM. intros [w1 fr1] [[| |j] q opts|e]; simpl.
  - destruct q as [c|r]; [apply total_raise|].
    unfold relationship_action.
    apply total_bind; [by intros st|]. intros _.
    apply total_bind; [apply total_child_walker|]. intros child.
    apply total_bind; [apply total_lift|]. intros subov.
    apply total_bind.
    + unfold ChildFactory.child_schema.
      apply total_bind; [apply build_total|]. intros sub.
      destruct (decide _); apply total_ret.
    + intros val. apply total_bind.
      * apply quiet_total, quiet_add_property_with_reference.
      * intros [ps w2]. apply total_ret.
  - apply total_bind; [apply total_lift|]. intros fr2. apply total_ret.
  - apply total_ret.
  - apply total_raise.
Qed.
End depth_limit.

(** Every call one level further down has a depth limit that is smaller by
    one, and a call whose limit is not positive returns at once: fuel above
    the limit is enough. *)
Lemma build_total_depth self models fuel : ∀ d w ov ho t,
  (Z.to_nat d < fuel)%nat →
  total (_build_properties self models fuel w ov (Some d) ho t).
Proof.
  induction fuel as [|fuel IH]; intros d w ov ho t Hfuel; [lia|].
  cbn [_build_properties]. destruct (bool_decide (d ≤ 0)%Z) eqn:Hd.
  { apply total_ret. }
  apply bool_decide_eq_false in Hd.
  apply total_bind.
  { destruct ho; [apply total_ret|by intros st]. }
  intros h. apply total_bind.
  - apply total_for_walk. intros w1 fr1 p.
    apply on_walked_total_depth. intros w2 ov2 ho2 t2. simpl.
    destruct (decide (d = 0%Z)); [lia|].
    apply total_bind; [apply IH; lia|]. intros r. apply total_ret.
  - intros [w1 fr1]. apply total_ret.
Qed.

(** X11: with a depth limit [d], a generation call ends for every factory,
    every walker class and every model graph, cyclic or not, whatever the
    filters and the overrides: it returns or raises as soon as the fuel
    exceeds [d]. *)
Theorem X11_depth_limit_terminates self models fuel model incl excl ovr d :
  (Z.to_nat d < fuel)%nat →
  is_Some (__call__ self models fuel model incl excl ovr (Some d)).
Proof.
  intros Hfuel.
  assert (total (generate self models fuel model incl excl ovr (Some d)))
    as Hgen.
  { unfold generate. apply total_bind.
    { unfold new_walker. destruct (walker self); apply total_init. }
    intros w. apply total_bind; [by intros st|]. intros _.
    apply total_bind; [by apply build_total_depth|].
    intros [[props w'] ov']. apply quiet_total.
    apply quiet_bind; [apply quiet_get_root_schema|]. intros sch.
    apply quiet_bind; [apply quiet_put_root_schema|]. intros _.
    destruct (decide _); [apply quiet_raise|].
    apply quiet_bind; [apply quiet_get_root_schema|]. intros sch'.
    apply quiet_bind; [apply quiet_detect_required|]. intros [req w''].
    apply quiet_bind; [apply quiet_put_root_schema|]. intros _.
    destruct (_tablename model); [apply quiet_ret|apply quiet_raise]. }
  unfold __call__. destruct (Hgen empty_store) as [[[r st]|e] ->]; done.
Qed.

Lemma X11_depth_limit_terminates_witness :
  (Z.to_nat 2 < 3)%nat
  ∧ is_Some (__call__ (Fixtures.factory AlsoChildrenWalker RelationDesicion false)
               Fixtures.garage 3 Fixtures.Owner None None None (Some 2%Z)).
Proof.
  split; [lia|]. apply X11_depth_limit_terminates. lia.
Defined.

(** ** The root schema *)

Section root_schema_keys.
Variable P : string → Prop.

Lemma root_agrees_refl st : root_agrees P st st.
Proof. by intros k _. Qed.

Lemma root_agrees_same st st' :
  root_schema st' = root_schema st → root_agrees P st st'.
Proof. intros E k _. by rewrite E. Qed.

Lemma root_agrees_trans st1 st2 st3 :
  root_agrees P st1 st2 → root_agrees P st2 st3 → root_agrees P st1 st3.
Proof. intros H12 H23 k Hk. by rewrite H23, H12. Qed.

Lemma keeps_ret {A} (a : A) : keeps_root P (mret a).
Proof. intros st x st' [= _ <-]. apply root_agrees_refl. Qed.

Lemma keeps_raise {A} e : keeps_root P (raise (A:=A) e).
Proof. by intros st x st'. Qed.

Lemma keeps_lift {A} (r : result A) : keeps_root P (lift r).
Proof.
  intros st x st'. destruct r; [|done]. intros [= _ <-]. apply root_agrees_refl.
Qed.

Lemma keeps_bind {A B} (m : M A) (f : A → M B) :
  keeps_root P m → (∀ a, keeps_root P (f a)) → keeps_root P (m ≫= f).
Proof.
  intros Hm Hf st x st'. rewrite bind_unfold.
  destruct (m st) as [[[a st1]|e]|] eqn:E; [|done..].
  intros Hfa. eapply root_agrees_trans; [by eapply Hm|by eapply Hf].
Qed.

Lemma keeps_foldM {A S} (f : S → A → M S) l : ∀ s,
  (∀ s a, keeps_root P (f s a)) → keeps_root P (foldM f s l).
Proof.
  induction l as [|a l IH]; intros s Hf; [apply keeps_ret|].
  simpl. apply keeps_bind; [apply Hf|]. intros s'. by apply IH.
Qed.

Lemma keeps_same {A} (m : M A) :
  (∀ st x st', m st = Returns (x, st') → root_schema st' = root_schema st) →
  keeps_root P m.
Proof. intros Hm st x st' E. eapply root_agrees_same, Hm, E. Qed.

Lemma keeps_for_walk {S} (body : Walker → S → MapperProperty → M (Walker * S))
    w acc :
  (∀ w acc p, keeps_root P (body w acc p)) → keeps_root P (for_walk body w acc).
Proof.
  intros Hb. apply keeps_foldM. intros [w' acc'] [n|p|e]; simpl.
  - apply keeps_ret.
  - apply keeps_bind; [apply keeps_same; by intros st x st' [= _ <-]|].
    intros hist. destruct (walk w' hist p); [apply Hb|apply keeps_ret].
  - apply keeps_raise.
Qed.

Lemma keeps_detect_required w : keeps_root P (_detect_required w).
Proof.
  apply keeps_bind.
  - apply keeps_for_walk. intros w' acc p.
    destruct (any_required p); apply keeps_ret.
  - intros [w' r]. apply keeps_ret.
Qed.

Lemma keeps_init cls model inc exc hist ds :
  keeps_root P (BaseModelWalker.__init__ cls model inc exc hist ds).
Proof.
  apply keeps_bind.
  - apply keeps_same. intros st h st' E.
    destruct (history_or_new_Ok hist st) as (h' & st'' & E' & Hroot). congruence.
  - intros h. destruct (_ && _); [apply keeps_raise|apply keeps_ret].
Qed.

Lemma keeps_child_walker cf models r w hist :
  keeps_root P (ChildFactory.child_walker cf models r w hist).
Proof.
  unfold ChildFactory.child_walker.
  apply keeps_bind; [apply keeps_lift|]. intros exc.
  apply keeps_bind; [apply keeps_lift|]. intros inc.
  apply keeps_bind; [apply keeps_lift|]. intros target.
  unfold clone. destruct (w_class w); try apply keeps_init.
  apply keeps_bind; [apply keeps_lift|]. intros ds. apply keeps_init.
Qed.

Lemma keeps_set_definition clsname val :
  ¬ P "definitions" → keeps_root P (set_definition clsname val).
Proof.
  intros HP st x st'. unfold set_definition. rewrite bind_unfold. simpl.
  destruct (dict_get "definitions" (root_schema st)) as [[]|]; try done.
  intros [= _ <-] k Hk. simpl. apply dict_get_set_ne. by intros <-.
Qed.

Variable self : SchemaFactory.
Variable models : registry.

Hypothesis definitions_only : reference_files self = true ∨ ¬ P "definitions".

Lemma keeps_add_property_with_reference w cs prop val :
  keeps_root P (_add_property_with_reference self models w cs prop val).
Proof.
  unfold _add_property_with_reference.
  apply keeps_bind; [apply keeps_lift|]. intros target.
  destruct (reference_files self) eqn:Hfiles.
  - apply keeps_bind.
    + destruct (bool_decide _); [apply keeps_ret|].
      apply keeps_bind; [apply keeps_lift|]. intros t. apply keeps_ret.
    + intros many. apply keeps_bind; [apply keeps_detect_required|].
      intros [r w']. apply keeps_ret.
  - destruct definitions_only as [?|HP]; [done|].
    intros st x st'. rewrite bind_unfold. cbn [get_root_schema].
    rewrite bind_unfold. cbn [put_root_schema].
    match goal with
    | |- ?m ?st2 = _ → _ =>
        assert (root_agrees P st st2) as Hfirst; [|assert (keeps_root P m) as Hrest]
    end.
    + intros k Hk. simpl. destruct (dict_in "definitions" (root_schema st));
        [done|]. apply dict_get_set_ne. by intros <-.
    + apply keeps_bind; [apply keeps_lift|]. intros t.
      apply keeps_bind.
      * destruct (json_eq_str t "object"); [apply keeps_ret|].
        destruct (dict_get "items" val); [apply keeps_ret|apply keeps_raise].
      * intros [cs' val']. apply keeps_bind; [by apply keeps_set_definition|].
        intros _. apply keeps_bind; [apply keeps_detect_required|].
        intros [r w']. apply keeps_bind; [by apply keeps_set_definition|].
        intros _. apply keeps_ret.
    + intros E. eapply root_agrees_trans; [exact Hfirst|]. by eapply Hrest.
Qed.

Lemma keeps_on_walked build depth h toplevel w fr p :
  (∀ w ov d ho t, keeps_root P (build w ov d ho t)) →
  keeps_root P (on_walked self models build depth h toplevel w fr p).
Proof.
  intros Hbuild. unfold on_walked.
  apply keeps_bind; [apply keeps_same; by intros st x st' [= _ <-]|].
  intros hist. apply keeps_foldM. intros [w1 fr1] [[| |j] q opts|e]; simpl.
  - destruct q as [c|r]; [apply keeps_raise|].
    unfold relationship_action.
    apply keeps_bind; [apply keeps_same; by intros st x st' [= _ <-]|].
    intros _. apply keeps_bind; [apply keeps_child_walker|]. intros child.
    apply keeps_bind; [apply keeps_lift|]. intros subov.
    apply keeps_bind.
    + unfold ChildFactory.child_schema.
      apply keeps_bind; [apply Hbuild|]. intros sub.
      destruct (decide _); apply keeps_ret.
    + intros val. apply keeps_bind.
      * apply keeps_add_property_with_reference.
      * intros [ps w2]. apply keeps_ret.
  - apply keeps_bind; [apply keeps_lift|]. intros fr2. apply keeps_ret.
  - apply keeps_ret.
  - apply keeps_raise.
Qed.

(** Building the properties changes the root schema under the key
    [definitions] only, and not at all when definitions are referenced as
    files. *)
Lemma keeps_build_properties fuel : ∀ w ov depth ho t,
  keeps_root P (_build_properties self models fuel w ov depth ho t).
Proof.
  induction fuel as [|fuel IH]; intros w ov depth ho t; [by intros st x st'|].
  cbn [_build_properties].
  destruct (match depth with Some d => bool_decide (d ≤ 0)%Z | None => false end).
  { apply keeps_ret. }
  apply keeps_bind.
  { destruct ho; [apply keeps_ret|]. apply keeps_same.
    by intros st x st' [= _ <-]. }
  intros h. apply keeps_bind.
  - apply keeps_for_walk. intros w1 fr1 p. apply keeps_on_walked.
    intros w2 ov2 d2 ho2 t2. apply keeps_bind; [apply IH|].
    intros r. apply keeps_ret.
  - intros [w1 fr1]. apply keeps_ret.
Qed.
End root_schema_keys.

(** What a generation call that returns has done. *)
Lemma generate_Returns self models fuel model incl excl ovr depth st r st' :
  generate self models fuel model incl excl ovr depth st = Returns (r, st') →
  ∃ w st1 props w' ov' st3 required,
    new_walker self model incl (fmap (M:=list) Some <$> excl) st
    = Returns (w, st1)
    ∧ _build_properties self models fuel w
        (CollectionForOverrides.__init__ (from_option id [] ovr)) depth None true
        {| lists := lists st1; root_schema := initial_schema model |}
      = Returns ((props, w', ov'), st3)
    ∧ not_used_keys ov' = ∅
    ∧ _tablename model = Some (name r)
    ∧ schema r = finished_schema model props required (root_schema st3).
Proof.
  unfold generate. rewrite bind_unfold.
  destruct (new_walker _ _ _ _ st) as [[[w st1]|e]|]; [|done..].
  rewrite bind_unfold. cbn [put_root_schema]. rewrite bind_unfold.
  destruct (_build_properties _ _ _ _ _ _ _ _ _)
    as [[[[[props w'] ov'] st3]|e]|] eqn:Hb; [|done..].
  rewrite bind_unfold. cbn [get_root_schema]. rewrite bind_unfold.
  cbn [put_root_schema]. destruct (decide (not_used_keys ov' ≠ ∅)) as [|Hnu];
    [done|].
  apply dec_stable in Hnu.
  rewrite bind_unfold. cbn [get_root_schema root_schema]. rewrite bind_unfold.
  destruct (_detect_required w' _) as [[[[required w''] st4]|e]|]; [|done..].
  rewrite bind_unfold. cbn [put_root_schema].
  destruct (_tablename model) as [tablename|]; [|done].
  intros [= <- _]. by exists w, st1, props, w', ov', st3, required.
Qed.

Lemma call_Returns self models fuel model incl excl ovr depth r :
  __call__ self models fuel model incl excl ovr depth = Returns r →
  ∃ st', generate self models fuel model incl excl ovr depth empty_store
         = Returns (r, st').
Proof.
  unfold __call__.
  destruct (generate _ _ _ _ _ _ _ _ _) as [[[r' st']|e]|]; [|done..].
  intros [= ->]. eauto.
Qed.

Lemma finished_schema_other model props required root k :
  k ≠ "properties" → k ≠ "description" → k ≠ "required" →
  dict_get k (finished_schema model props required root) = dict_get k root.
Proof.
  intros Hp Hd Hr. unfold finished_schema.
  assert (dict_get k (dict_set "properties" (JDict props) root) = dict_get k root)
    as Hprops by (apply dict_get_set_ne; congruence).
  assert (dict_get k
            match class_doc model with
            | Some d => if decide (d = "")
                        then dict_set "properties" (JDict props) root
                        else dict_set "description" (JStr (_clean_doc d))
                               (dict_set "properties" (JDict props) root)
            | None => dict_set "properties" (JDict props) root
            end = dict_get k root) as Hdoc.
  { destruct (class_doc model) as [d|]; [|done].
    destruct (decide (d = "")); [done|].
    rewrite dict_get_set_ne by congruence. done. }
  destruct required; [done|]. rewrite dict_get_set_ne by congruence. done.
Qed.

(** X12: the document of a generation call that returns, whatever the
    factory, the model graph and the arguments: the model has a table name,
    which is [name]; [$schema], [title] and [type] are as the call first set
    them ([title] is the class name); [properties] is an object;
    [description] is the cleaned docstring of the model when that is not
    empty, and absent otherwise; [required] is never an empty list; and
    there is no other key but [definitions], the one key under which the
    build writes to the root schema. *)
Theorem X12_document_shape self models fuel model incl excl ovr depth r :
  __call__ self models fuel model incl excl ovr depth = Returns r →
  _tablename model = Some (name r)
  ∧ dict_get "$schema" (schema r)
    = Some (JStr "http://json-schema.org/draft-04/schema#")
  ∧ dict_get "title" (schema r) = Some (JStr (class_name model))
  ∧ dict_get "type" (schema r) = Some (JStr "object")
  ∧ (∃ props, dict_get "properties" (schema r) = Some (JDict props))
  ∧ dict_get "description" (schema r)
    = match class_doc model with
      | Some d => if decide (d = "") then None else Some (JStr (_clean_doc d))
      | None => None
      end
  ∧ dict_get "required" (schema r) ≠ Some (JList [])
  ∧ ∀ k, k ∉ ["$schema"; "title"; "type"; "properties"; "description";
              "required"; "definitions"] →
         dict_get k (schema r) = None.
Proof.
  intros [st' Hgen]%call_Returns.
  apply generate_Returns in Hgen
    as (w & st1 & props & w' & ov' & st3 & required & _ & Hb & _ & Hn & ->).
  apply (keeps_build_properties (λ k, k ≠ "definitions")) in Hb;
    [|right; intros Hk; by apply Hk].
  simpl in Hb. split; [done|].
  rewrite !finished_schema_other by done. rewrite !Hb by done.
  split_and!; try done.
  - exists props. unfold finished_schema.
    destruct required; [|rewrite dict_get_set_ne by done];
      (destruct (class_doc model) as [d|];
         [destruct (decide (d = "")); [|rewrite dict_get_set_ne by done]|]);
      apply dict_get_set_eq.
  - unfold finished_schema.
    destruct required; [|rewrite dict_get_set_ne by done];
      (destruct (class_doc model) as [d|];
         [destruct (decide (d = "")); [|by rewrite dict_get_set_eq]|]);
      (rewrite dict_get_set_ne by done); by rewrite Hb.
  - unfold finished_schema. destruct required as [|k ks].
    + destruct (class_doc model) as [d|];
        [destruct (decide (d = "")); [|rewrite dict_get_set_ne by done]|];
        (rewrite dict_get_set_ne by done); by rewrite Hb.
    + by rewrite dict_get_set_eq.
  - intros k Hk.
    assert (k ≠ "$schema" ∧ k ≠ "title" ∧ k ≠ "type" ∧ k ≠ "properties"
            ∧ k ≠ "description" ∧ k ≠ "required" ∧ k ≠ "definitions")
      as (H1 & H2 & H3 & H4 & H5 & H6 & H7).
    { split_and!; intros ->; apply Hk; set_solver. }
    rewrite finished_schema_other by done. rewrite Hb by done. simpl.
    repeat (destruct (decide _); [congruence|]). done.
Qed.

Lemma X12_document_shape_witness :
  ∃ r, __call__ (Fixtures.factory AlsoChildrenWalker RelationDesicion false)
         Fixtures.garage 5 Fixtures.Owner None None None None = Returns r
    ∧ _tablename Fixtures.Owner = Some (name r)
    ∧ dict_get "title" (schema r) = Some (JStr "Owner")
    ∧ dict_get "required" (schema r) ≠ Some (JList [])
    ∧ dict_get "name" (schema r) = None.
Proof.
  destruct (__call__ (Fixtures.factory AlsoChildrenWalker RelationDesicion false)
              Fixtures.garage 5 Fixtures.Owner None None None None)
    as [[r|e]|] eqn:Hcall; [|by vm_compute in Hcall..].
  exists r. split; [reflexivity|].
  destruct (X12_document_shape _ _ _ _ _ _ _ _ r Hcall)
    as (Hn & _ & Ht & _ & _ & _ & Hr & Hk).
  split_and!; [exact Hn|exact Ht|exact Hr|].
  apply Hk. intros Hin.
  repeat (apply elem_of_cons in Hin as [Hin|Hin]; [discriminate|]).
  by apply elem_of_nil in Hin.
Defined.

(** X13: a factory that references definitions as files never puts a
    [definitions] entry into the document. *)
Theorem X13_reference_files_no_definitions self models fuel model incl excl
    ovr depth r :
  reference_files self = true →
  __call__ self models fuel model incl excl ovr depth = Returns r →
  dict_get "definitions" (schema r) = None.
Proof.
  intros Hfiles [st' Hgen]%call_Returns.
  apply generate_Returns in Hgen
    as (w & st1 & props & w' & ov' & st3 & required & _ & Hb & _ & _ & ->).
  apply (keeps_build_properties (λ _, True)) in Hb; [|by left].
  rewrite finished_schema_other by done. by rewrite Hb.
Qed.

Lemma X13_reference_files_no_definitions_witness :
  ∃ r, __call__ (Fixtures.factory AlsoChildrenWalker RelationDesicion true)
         Fixtures.garage 5 Fixtures.Owner None None None None = Returns r
    ∧ dict_get "pets" (from_option (λ j, match j with JDict d => d | _ => [] end)
                         [] (dict_get "properties" (schema r)))
      = Some (JDict [("type", JStr "array");
                     ("items", JDict [("$ref", JStr "pets.json#")])])
    ∧ dict_get "definitions" (schema r) = None.
Proof.
  eexists. split; [by vm_compute|]. split; [by vm_compute|].
  by eapply (X13_reference_files_no_definitions
               (Fixtures.factory AlsoChildrenWalker RelationDesicion true)
               Fixtures.garage 5 Fixtures.Owner None None None None);
    vm_compute.
Defined.

(** X14: with a depth limit that is not positive no property is built: the
    document of a call that returns has an empty [properties] object and no
    [definitions]. *)
Theorem X14_depth_exhausted_document self models fuel model incl excl ovr d r :
  (d ≤ 0)%Z →
  __call__ self models fuel model incl excl ovr (Some d) = Returns r →
  dict_get "properties" (schema r) = Some (JDict [])
  ∧ dict_get "definitions" (schema r) = None.
Proof.
  intros Hd [st' Hgen]%call_Returns.
  apply generate_Returns in Hgen
    as (w & st1 & props & w' & ov' & st3 & required & _ & Hb & _ & _ & ->).
  destruct fuel as [|fuel]; [done|]. cbn [_build_properties] in Hb.
  rewrite bool_decide_eq_true_2 in Hb by done. injection Hb as <- _ _ <-.
  split; [|by rewrite finished_schema_other].
  unfold finished_schema. cbn [root_schema].
  destruct required; [|rewrite dict_get_set_ne by done];
    (destruct (class_doc model) as [doc|];
       [destruct (decide (doc = "")); [|rewrite dict_get_set_ne by done]|]);
    apply dict_get_set_eq.
Qed.

Lemma X14_depth_exhausted_document_witness :
  ∃ r, __call__ (Fixtures.factory AlsoChildrenWalker RelationDesicion false)
         Fixtures.garage 1 Fixtures.Owner None None None (Some 0%Z) = Returns r
    ∧ dict_get "properties" (schema r) = Some (JDict [])
    ∧ dict_get "definitions" (schema r) = None.
Proof.
  eexists. split; [by vm_compute|].
  eapply (X14_depth_exhausted_document
            (Fixtures.factory AlsoChildrenWalker RelationDesicion false)
            Fixtures.garage 1 Fixtures.Owner None None None 0%Z);
    [lia|by vm_compute].
Defined.

Lemma init_no_conflict cls model inc exc ds st :
  ¬ share_a_key inc exc →
  BaseModelWalker.__init__ cls model inc exc None ds st
  = Returns ({| w_class := cls; mapper := model; includes := inc;
                excludes := exc; history := length (lists st);
                decisions := ds; walking := [] |},
             {| lists := lists st ++ [[]]; root_schema := root_schema st |}).
Proof.
  intros Hno. unfold BaseModelWalker.__init__, BaseModelWalker.history_or_new.
  rewrite bind_unfold. unfold new_list.
  destruct (_ && _) eqn:Ht; [by apply conflict_test_spec in Ht|done].
Qed.

(** X15: with a depth limit that is not positive no override is ever
    consumed: a call with filters that share no key and with a non-empty
    override mapping raises [InvalidStatus] with all the keys of the
    mapping, whatever the model. *)
Theorem X15_depth_exhausted_overrides self models fuel model incl excl ps d :
  (d ≤ 0)%Z → ps ≠ [] →
  ¬ share_a_key incl (fmap (M:=list) Some <$> excl) →
  __call__ self models (S fuel) model incl excl (Some ps) (Some d)
  = Raises (InvalidStatus (InvalidOverrides (list_to_set (dict_keys ps)))).
Proof.
  intros Hd Hps Hno. unfold __call__, generate. rewrite bind_unfold.
  assert (∃ w st1, new_walker self model incl (fmap (M:=list) Some <$> excl)
                     empty_store = Returns (w, st1)) as (w & st1 & ->).
  { unfold new_walker. destruct (walker self); rewrite init_no_conflict by done;
      eauto. }
  rewrite bind_unfold. cbn [put_root_schema]. rewrite bind_unfold.
  cbn [_build_properties]. rewrite bool_decide_eq_true_2 by done.
  cbn [mret M_ret]. rewrite bind_unfold. cbn [get_root_schema].
  rewrite bind_unfold. cbn [put_root_schema].
  destruct (decide _) as [|Hempty]; [done|]. exfalso. apply Hempty.
  destruct ps as [|[k v] ps]; [done|]. simpl.
  intros Hset. assert (k ∈ (∅ : gset string)) as Hin; [|set_solver].
  rewrite <-Hset. set_solver.
Qed.

Lemma X15_depth_exhausted_overrides_witness :
  __call__ (Fixtures.factory SingleModelWalker RelationDesicion false) [] 1
    Fixtures.User None None
    (Some [("name", Value (JDict [("maxLength", JInt 10)]))]) (Some 0%Z)
  = Raises (InvalidStatus (InvalidOverrides {[ "name" ]})).
Proof.
  rewrite (X15_depth_exhausted_overrides _ _ 0); [|lia|done|].
  - reflexivity.
  - by intros (inc & exc & k & ? & _).
Defined.

(** ** Override collections *)

Lemma dict_get_None_iff {V} k (d : dict V) :
  dict_get k d = None ↔ k ∉ dict_keys d.
Proof.
  split; [|apply dict_get_None].
  induction d as [|[k' v'] d IH]; simpl; [intros _; apply not_elem_of_nil|].
  destruct (decide (k' = k)); [done|]. intros Hk.
  apply not_elem_of_cons. split; [done|]. by apply IH.
Qed.

Lemma dict_get_del_ne {V} k k' (d : dict V) :
  k ≠ k' → dict_get k' (dict_del k d) = dict_get k' d.
Proof.
  intros Hne. induction d as [|[k0 v0] d IH]; [done|]. simpl.
  destruct (decide (k0 = k)) as [->|Hk]; simpl.
  - by destruct (decide (k = k')).
  - by rewrite IH.
Qed.

Lemma dict_get_del_eq {V} k (d : dict V) :
  NoDup (dict_keys d) → dict_get k (dict_del k d) = None.
Proof.
  induction d as [|[k0 v0] d IH]; [done|]. rewrite dict_keys_cons.
  intros [Hk0 Hnd]%NoDup_cons. simpl.
  destruct (decide (k0 = k)) as [->|Hk]; simpl.
  - by apply dict_get_None.
  - destruct (decide (k0 = k)); [done|]. by apply IH.
Qed.

Lemma dict_set_NoDup {V} k (v : V) d :
  NoDup (dict_keys d) → NoDup (dict_keys (dict_set k v d)).
Proof.
  induction d as [|[k0 v0] d IH]; cbn [dict_set].
  - intros _. apply NoDup_singleton.
  - rewrite dict_keys_cons. intros [Hk0 Hnd]%NoDup_cons.
    destruct (decide (k0 = k)) as [->|Hk]; rewrite dict_keys_cons;
      apply NoDup_cons; (split; [|by auto]); [done|].
    apply dict_get_None_iff. rewrite dict_get_set_ne by done.
    by apply dict_get_None.
Qed.

Lemma dict_del_NoDup {V} k (d : dict V) :
  NoDup (dict_keys d) → NoDup (dict_keys (dict_del k d)).
Proof.
  induction d as [|[k0 v0] d IH]; cbn [dict_del]; [done|].
  rewrite dict_keys_cons. intros [Hk0 Hnd]%NoDup_cons.
  destruct (decide (k0 = k)) as [->|Hk]; [done|]. rewrite dict_keys_cons.
  apply NoDup_cons. split; [|by auto].
  apply dict_get_None_iff. rewrite dict_get_del_ne by done.
  by apply dict_get_None.
Qed.

Lemma dict_get_elem_of_pair {V} k (v : V) d :
  NoDup (dict_keys d) → (k, v) ∈ d → dict_get k d = Some v.
Proof.
  induction d as [|[k0 v0] d IH]; [by intros _ ?%elem_of_nil|].
  rewrite dict_keys_cons. intros [Hk0 Hnd]%NoDup_cons. simpl.
  intros [[= <- <-]|Hin]%elem_of_cons.
  - by destruct (decide (k = k)).
  - destruct (decide (k0 = k)) as [->|]; [|by apply IH].
    destruct Hk0. apply list_elem_of_fmap. by exists (k, v).
Qed.

(** Whatever the values, a run of the loop of [overrides] that succeeds has
    removed every key of the mapping from the unused keys. *)
Lemma overrides_items_consumed ps : ∀ d nu d' nu',
  fold_result CollectionForOverrides.overrides_item (d, nu) ps = Ok (d', nu') →
  nu' = nu ∖ list_to_set (dict_keys ps).
Proof.
  induction ps as [|[k v] ps IH]; intros d nu d' nu'.
  - intros [= _ <-]. simpl. set_solver.
  - cbn [fold_result]. intros ([d1 nu1] & Hitem & Hrest)%result_bind_Ok.
    apply IH in Hrest as ->. unfold CollectionForOverrides.overrides_item in Hitem.
    apply result_bind_Ok in Hitem as (d1' & _ & Hitem).
    destruct (decide (k ∈ nu)); [|done]. injection Hitem as _ <-.
    rewrite dict_keys_cons, list_to_set_cons. set_solver.
Qed.

(** X16: an override collection can be applied once.  After a call of
    [overrides] that succeeded, every further call on the collection raises
    [KeyError] for the first key of the mapping, whatever dictionary it is
    given. *)
Theorem X16_overrides_at_most_once self basedict basedict' self' k v rest d2 :
  params self = (k, v) :: rest →
  CollectionForOverrides.overrides self basedict = Ok (basedict', self') →
  CollectionForOverrides.overrides self' d2 = Raise (KeyError k).
Proof.
  intros Hps Hfirst. unfold CollectionForOverrides.overrides in *.
  apply result_bind_Ok in Hfirst as ([d1 nu1] & Hfold & [= _ <-]).
  apply overrides_items_consumed in Hfold as ->. simpl. rewrite Hps.
  cbn [fold_result CollectionForOverrides.overrides_item].
  assert (k ∉ not_used_keys self ∖ list_to_set (dict_keys ((k, v) :: rest)))
    as Hk by (rewrite dict_keys_cons, list_to_set_cons; set_solver).
  destruct v as [|j]; cbn [mbind result_bind].
  - destruct (dict_in k d2); [|done]. cbn [mbind result_bind].
    by destruct (decide _).
  - by destruct (decide _).
Qed.

Lemma X16_overrides_at_most_once_witness :
  let ps := [("maxLength", Value (JInt 10)); ("format", pop_marker)] in
  ∃ d' self',
    CollectionForOverrides.overrides (CollectionForOverrides.__init__ ps)
      [("type", JStr "string"); ("format", JStr "date")] = Ok (d', self')
    ∧ CollectionForOverrides.overrides self' [("type", JStr "string")]
      = Raise (KeyError "maxLength").
Proof.
  intros ps.
  destruct (CollectionForOverrides.overrides (CollectionForOverrides.__init__ ps)
              [("type", JStr "string"); ("format", JStr "date")])
    as [[d' self']|] eqn:Hfirst; [|by vm_compute in Hfirst].
  exists d', self'. split; [reflexivity|].
  apply (X16_overrides_at_most_once (CollectionForOverrides.__init__ ps)
           [("type", JStr "string"); ("format", JStr "date")] d' self'
           "maxLength" (Value (JInt 10)) [("format", pop_marker)]);
    [reflexivity|exact Hfirst].
Defined.

Lemma overrides_items_lookup ps : ∀ d nu,
  NoDup (dict_keys ps) → NoDup (dict_keys d) →
  list_to_set (dict_keys ps) ⊆ nu →
  (∀ k, (k, pop_marker) ∈ ps → is_Some (dict_get k d)) →
  ∃ d', fold_result CollectionForOverrides.overrides_item (d, nu) ps
        = Ok (d', nu ∖ list_to_set (dict_keys ps))
    ∧ NoDup (dict_keys d')
    ∧ ∀ k, dict_get k d' = match dict_get k ps with
                           | Some (Value j) => Some j
                           | Some pop_marker => None
                           | None => dict_get k d
                           end.
Proof.
  induction ps as [|[k v] ps IH]; intros d nu Hps Hd Hsub Hpop.
  - exists d. split; [|done]. simpl. do 2 f_equal. set_solver.
  - rewrite dict_keys_cons in Hps, Hsub. rewrite list_to_set_cons in Hsub.
    apply NoDup_cons in Hps as [Hk Hps].
    assert (k ∉ (list_to_set (dict_keys ps) : gset string)) as Hk'
      by by rewrite not_elem_of_list_to_set.
    cbn [fold_result CollectionForOverrides.overrides_item].
    assert (∃ d1, match v with
                  | pop_marker => if dict_in k d then Ok (dict_del k d)
                                  else Raise (KeyError k)
                  | Value j => Ok (dict_set k j d)
                  end = Ok d1
              ∧ NoDup (dict_keys d1)
              ∧ (∀ q, q ≠ k → dict_get q d1 = dict_get q d)
              ∧ dict_get k d1 = match v with
                                | Value j => Some j
                                | pop_marker => None
                                end) as (d1 & -> & Hd1 & Hother & Hthis).
    { destruct v as [|j].
      - exists (dict_del k d). split_and!.
        + unfold dict_in. rewrite bool_decide_eq_true_2; [done|].
          apply Hpop, list_elem_of_here.
        + by apply dict_del_NoDup.
        + intros q Hq. by apply dict_get_del_ne.
        + by apply dict_get_del_eq.
      - exists (dict_set k j d). split_and!; [done| | |].
        + by apply dict_set_NoDup.
        + intros q Hq. by apply dict_get_set_ne.
        + apply dict_get_set_eq. }
    cbn [mbind result_bind]. destruct (decide (k ∈ nu)); [|set_solver].
    cbn [mbind result_bind].
    destruct (IH d1 (nu ∖ {[k]})) as (d' & -> & Hd' & Hget); [done|done| | |].
    + set_solver.
    + intros q Hq. rewrite Hother; [apply Hpop; by apply list_elem_of_further|].
      intros ->. apply Hk, list_elem_of_fmap. by exists (k, pop_marker).
    + exists d'. split; [|split; [done|]].
      * rewrite dict_keys_cons, list_to_set_cons. do 2 f_equal. set_solver.
      * intros q. rewrite Hget. simpl. destruct (decide (k = q)) as [<-|Hq].
        -- rewrite (dict_get_None k ps) by done. rewrite Hthis. by destruct v.
        -- destruct (dict_get q ps) as [[]|]; [done..|]. by apply Hother.
Qed.

(** X17: [overrides] on a new collection, for a mapping that may hold pop
    markers.  When every key marked for removal is in the dictionary, the
    call succeeds and consumes every key; in the result a key mapped to a
    value has that value, a key marked for removal is absent, and every
    other key is as it was.  (Keys are unique, as in every Python
    dictionary.) *)
Theorem X17_overrides_with_pop_markers ps d :
  NoDup (dict_keys ps) → NoDup (dict_keys d) →
  (∀ k, (k, pop_marker) ∈ ps → is_Some (dict_get k d)) →
  ∃ d', CollectionForOverrides.overrides (CollectionForOverrides.__init__ ps) d
        = Ok (d', {| params := ps; not_used_keys := ∅ |})
    ∧ ∀ k, dict_get k d' = match dict_get k ps with
                           | Some (Value j) => Some j
                           | Some pop_marker => None
                           | None => dict_get k d
                           end.
Proof.
  intros Hps Hd Hpop. unfold CollectionForOverrides.overrides. simpl.
  destruct (overrides_items_lookup ps d (list_to_set (dict_keys ps)))
    as (d' & -> & _ & Hget); [done..|].
  exists d'. split; [|done]. simpl. do 3 f_equal. set_solver.
Qed.

Lemma X17_overrides_with_pop_markers_witness :
  let ps := [("maxLength", Value (JInt 10)); ("format", pop_marker)] in
  let d := [("type", JStr "string"); ("format", JStr "date")] in
  ∃ d', CollectionForOverrides.overrides (CollectionForOverrides.__init__ ps) d
        = Ok (d', {| params := ps; not_used_keys := ∅ |})
    ∧ dict_get "maxLength" d' = Some (JInt 10)
    ∧ dict_get "format" d' = None
    ∧ dict_get "type" d' = Some (JStr "string").
Proof.
  intros ps d. destruct (X17_overrides_with_pop_markers ps d)
    as (d' & Hrun & Hget).
  - repeat constructor; set_solver.
  - repeat constructor; set_solver.
  - intros k [[= ->]|[[= ->]|[]%elem_of_nil]%elem_of_cons]%elem_of_cons.
    by eexists.
  - exists d'. split; [exact Hrun|]. rewrite !Hget. done.
Defined.

Lemma fold_result_app {A S} (f : S → A → result S) l1 l2 : ∀ s,
  fold_result f s (l1 ++ l2) = fold_result f s l1 ≫= λ s', fold_result f s' l2.
Proof.
  induction l1 as [|a l1 IH]; intros s; [done|]. simpl.
  destruct (f s a) as [s1|e]; [|done]. apply IH.
Qed.

(** X18: the other outcome of [overrides] on a new collection: it raises
    [KeyError] for the first key marked for removal that the dictionary does
    not have.  (Keys are unique, as in every Python dictionary.) *)
Theorem X18_overrides_pop_missing ps1 k ps2 d :
  NoDup (dict_keys (ps1 ++ (k, pop_marker) :: ps2)) → NoDup (dict_keys d) →
  (∀ q, (q, pop_marker) ∈ ps1 → is_Some (dict_get q d)) →
  dict_get k d = None →
  CollectionForOverrides.overrides
    (CollectionForOverrides.__init__ (ps1 ++ (k, pop_marker) :: ps2)) d
  = Raise (KeyError k).
Proof.
  intros Hps Hd Hpop Hk. unfold CollectionForOverrides.overrides. simpl.
  rewrite fold_result_app. unfold dict_keys in Hps.
  rewrite fmap_app in Hps. apply NoDup_app in Hps as (Hps1 & Hdisj & _).
  destruct (overrides_items_lookup ps1 d
              (list_to_set (dict_keys (ps1 ++ (k, pop_marker) :: ps2))))
    as (d1 & -> & _ & Hget); [done|done| |done|].
  { unfold dict_keys. rewrite fmap_app, list_to_set_app. set_solver. }
  cbn [mbind result_bind fold_result CollectionForOverrides.overrides_item].
  unfold dict_in. rewrite Hget, Hk.
  rewrite (dict_get_None k ps1).
  - rewrite bool_decide_eq_false_2; [done|]. by intros [? ?].
  - intros Hin. apply (Hdisj k Hin). apply list_elem_of_here.
Qed.

Lemma X18_overrides_pop_missing_witness :
  CollectionForOverrides.overrides
    (CollectionForOverrides.__init__
       [("maxLength", Value (JInt 10)); ("format", pop_marker)])
    [("type", JStr "string")]
  = Raise (KeyError "format").
Proof.
  apply (X18_overrides_pop_missing [("maxLength", Value (JInt 10))] "format" []).
  - repeat constructor; set_solver.
  - repeat constructor; set_solver.
  - by intros q [[=]|[]%elem_of_nil]%elem_of_cons.
  - reflexivity.
Defined.

(** ** Restrictions *)

(** X19: [_add_restriction_if_found] stops at [TypeEngine]: its result
    depends only on the restrictions that are registered for the classes
    before [TypeEngine] in the method resolution order of the type.
    Restrictions registered for [TypeEngine] or for a class after it are
    never applied. *)
Theorem X19_restrictions_stop_at_TypeEngine self self' D column itype
    pre te post :
  mro itype = pre ++ te :: post →
  cls_name te = "sqlalchemy.sql.type_api.TypeEngine" →
  (∀ c, c ∈ pre → dict_get (cls_name c) (restriction_dict self')
                  = dict_get (cls_name c) (restriction_dict self)) →
  _add_restriction_if_found self' D column itype
  = _add_restriction_if_found self D column itype.
Proof.
  intros Hmro Hte. unfold _add_restriction_if_found. rewrite Hmro. clear Hmro.
  revert D. induction pre as [|c pre IH]; intros D Hsame; simpl.
  - by rewrite Hte.
  - destruct (decide (cls_name c = _)); [done|].
    rewrite (Hsame c) by apply list_elem_of_here.
    assert (∀ D1, restrict self' column D1 (pre ++ te :: post)
                  = restrict self column D1 (pre ++ te :: post)) as Hrest.
    { intros D1. apply IH. intros c' Hc'. by apply Hsame, list_elem_of_further. }
    destruct (dict_get (cls_name c) (restriction_dict self)) as [fn|]; [|done].
    destruct (fn column D) as [D1|e]; simpl; [apply Hrest|done].
Qed.

Lemma X19_restrictions_stop_at_TypeEngine_witness :
  let self := Fixtures.factory SingleModelWalker RelationDesicion false in
  let self' :=
    {| walker := walker self; classifier := classifier self;
       restriction_dict := (cls_name Fixtures.Visitable, date_format)
                           :: (cls_name Fixtures.TypeEngine_, time_format)
                           :: default_restriction_dict;
       child_factory := child_factory self;
       relation_decision := relation_decision self;
       reference_files := false |} in
  _add_restriction_if_found self' [("type", JStr "string")]
    Fixtures.users_name Fixtures.String_
  = Ok [("type", JStr "string"); ("maxLength", JInt 50)].
Proof.
  intros self self'.
  rewrite (X19_restrictions_stop_at_TypeEngine self self' _ _ _
             [Fixtures.String_; Fixtures.Concatenable] Fixtures.TypeEngine_
             [Fixtures.Visitable; Fixtures.object_]); [reflexivity..|].
  intros c [->|[->|[]%elem_of_nil]%elem_of_cons]%elem_of_cons; reflexivity.
Defined.

(** One restriction of the default table, applied once. *)
Lemma default_restriction_other_keys name fn column D D1 k :
  dict_get name default_restriction_dict = Some fn →
  fn column D = Ok D1 →
  k ≠ "maxLength" → k ≠ "enum" → k ≠ "format" →
  dict_get k D1 = dict_get k D.
Proof.
  intros Hfn Hfn1 Hm He Hf.
  unfold default_restriction_dict in Hfn. simpl in Hfn.
  repeat match type of Hfn with
         | (if decide ?P then _ else _) = _ => destruct (decide P)
         end; simplify_eq.
  - unfold string_max_length in Hfn1.
    apply result_bind_Ok in Hfn1 as (t & _ & Hfn1).
    destruct (ty_length t) as [[len|]|]; simplify_eq; [|done].
    by apply dict_get_set_ne.
  - unfold enum_one_of in Hfn1.
    apply result_bind_Ok in Hfn1 as (t & _ & Hfn1).
    destruct (ty_enums t); simplify_eq. by apply dict_get_set_ne.
  - injection Hfn1 as <-. by apply dict_get_set_ne.
  - injection Hfn1 as <-. by apply dict_get_set_ne.
  - injection Hfn1 as <-. by apply dict_get_set_ne.
Qed.

Lemma restrict_default_type self column tclss : ∀ D D2,
  restriction_dict self = default_restriction_dict →
  restrict self column D tclss = Ok D2 →
  dict_get "type" D2 = dict_get "type" D.
Proof.
  induction tclss as [|tcls tclss IH]; intros D D2 Hdict; simpl.
  - by intros [= ->].
  - destruct (decide (cls_name tcls = _)); [by intros [= ->]|].
    destruct (dict_get (cls_name tcls) (restriction_dict self)) as [fn|] eqn:Hfn;
      [|by apply IH].
    intros (D1 & Hfn1 & Hrest)%result_bind_Ok.
    rewrite (IH D1 D2) by done. rewrite Hdict in Hfn.
    by eapply default_restriction_other_keys.
Qed.

(** X20: the restrictions of the default table write the keys [maxLength],
    [enum] and [format] only: every other entry of the field schema, [type]
    among them, is as before. *)
Theorem X20_default_restrictions_keep_other_keys self column tclss : ∀ D D2 k,
  restriction_dict self = default_restriction_dict →
  restrict self column D tclss = Ok D2 →
  k ≠ "maxLength" → k ≠ "enum" → k ≠ "format" →
  dict_get k D2 = dict_get k D.
Proof.
  induction tclss as [|tcls tclss IH]; intros D D2 k Hdict; simpl.
  - by intros [= ->].
  - destruct (decide (cls_name tcls = _)); [by intros [= ->]|].
    destruct (dict_get (cls_name tcls) (restriction_dict self)) as [fn|] eqn:Hfn;
      [|by apply IH].
    intros (D1 & Hfn1 & Hrest)%result_bind_Ok Hm He Hf.
    rewrite (IH D1 D2 k) by done. rewrite Hdict in Hfn.
    by eapply default_restriction_other_keys.
Qed.

Lemma X20_default_restrictions_keep_other_keys_witness :
  ∃ D2, restrict (Fixtures.factory SingleModelWalker RelationDesicion false)
          Fixtures.users_name [("type", JStr "string")] (mro Fixtures.String_)
        = Ok D2
    ∧ dict_get "maxLength" D2 = Some (JInt 50)
    ∧ dict_get "type" D2 = Some (JStr "string").
Proof.
  eexists. split; [reflexivity|]. split; [reflexivity|].
  by rewrite (X20_default_restrictions_keep_other_keys
                (Fixtures.factory SingleModelWalker RelationDesicion false)
                Fixtures.users_name (mro Fixtures.String_)
                [("type", JStr "string")] _ "type" eq_refl eq_refl).
Defined.

(** ** Type classification *)

Lemma inheritance_first_match mapping scs sc v :
  Classifier.inheritance mapping scs = Some (sc, v) →
  ∃ pre post, scs = pre ++ sc :: post
    ∧ Forall (λ c, dict_get (cls_name c) mapping = None) pre
    ∧ dict_get (cls_name sc) mapping = Some v.
Proof.
  induction scs as [|c scs IH]; [done|]. simpl.
  destruct (dict_get (cls_name c) mapping) as [v1|] eqn:Hc.
  - intros [= <- <-]. by exists [], scs.
  - intros (pre & post & -> & Hpre & Hsc)%IH.
    exists (c :: pre), post. split_and!; [done| |done]. by constructor.
Qed.

Lemma inheritance_None mapping scs :
  Classifier.inheritance mapping scs = None
  ↔ Forall (λ c, dict_get (cls_name c) mapping = None) scs.
Proof.
  induction scs as [|c scs IH]; simpl; [by split; [constructor|]|].
  destruct (dict_get (cls_name c) mapping) as [v1|] eqn:Hc.
  - split; [done|]. intros [? _]%Forall_cons. congruence.
  - rewrite IH. split; [by constructor|]. by intros [_ ?]%Forall_cons.
Qed.

(** X21: the classifier, on a type that is not a decorator, answers with
    the first class of the method resolution order of the type's class that
    is in the mapping, and with the name mapped to that class; it raises
    exactly when no class of the order is in the mapping.  What it raises
    then is [InvalidStatus] with the text of the type in its message, unless
    rendering the type for the message raises: then that exception is the
    one the lookup raises. *)
Theorem X21_classifier_first_in_mro mapping k :
  isinstance_TypeDecorator k = false →
  (∀ sc v, Classifier.__getitem__ mapping k = Ok (sc, v) →
     ∃ pre post, mro (__class__ k) = pre ++ sc :: post
       ∧ Forall (λ c, dict_get (cls_name c) mapping = None) pre
       ∧ dict_get (cls_name sc) mapping = Some v)
  ∧ ((∃ e, Classifier.__getitem__ mapping k = Raise e)
     ↔ Forall (λ c, dict_get (cls_name c) mapping = None) (mro (__class__ k)))
  ∧ (∀ e, Classifier.__getitem__ mapping k = Raise e →
          match __str__ k with
          | Str text => e = InvalidStatus (NotFound text)
          | StrRaises exception => e = RaisedByStr exception
          end).
Proof.
  intros Hk. destruct k as [cls l en it s|? ?]; [|done].
  unfold Classifier.__getitem__. cbn [__class__ __str__].
  destruct (dict_get (cls_name cls) mapping) as [v0|] eqn:Hcls.
  - split_and!.
    + intros sc v [= <- <-]. exists [], (match cls with TClass _ a => a end).
      split_and!; [by destruct cls|constructor|done].
    + split; [by intros [e [=]]|]. destruct cls as [n anc]. simpl.
      intros [? _]%Forall_cons. simpl in *. congruence.
    + done.
  - destruct (Classifier.inheritance mapping (mro cls)) as [[sc0 v0]|] eqn:Hinh.
    + split_and!.
      * intros sc v [= <- <-]. by apply inheritance_first_match.
      * split; [by intros [e [=]]|]. intros Hall%inheritance_None. congruence.
      * done.
    + split_and!; [intros sc v; by destruct s| |].
      * split; [intros _; by apply inheritance_None|].
        intros _. destruct s; eauto.
      * intros e He. destruct s; by injection He as <-.
Qed.

Lemma X21_classifier_first_in_mro_witness :
  let NullType :=
    TClass "sqlalchemy.types.NullType"
      [Fixtures.TypeEngine_; Fixtures.Visitable; Fixtures.object_] in
  let null := TypeEngine NullType None None None (StrRaises "CompileError") in
  (∃ pre post,
     Classifier.__getitem__ default_column_to_schema
       (Fixtures.varchar (Some 32%Z)) = Ok (Fixtures.String_, "string")
     ∧ mro (__class__ (Fixtures.varchar (Some 32%Z)))
       = pre ++ Fixtures.String_ :: post
     ∧ Forall (λ c, dict_get (cls_name c) default_column_to_schema = None) pre)
  ∧ Classifier.__getitem__ default_column_to_schema null
    = Raise (RaisedByStr "CompileError").
Proof.
  intros NullType null. split.
  - destruct (X21_classifier_first_in_mro default_column_to_schema
                (Fixtures.varchar (Some 32%Z)) eq_refl) as (Hfirst & _ & _).
    destruct (Hfirst Fixtures.String_ "string" eq_refl)
      as (pre & post & Hmro & Hpre & _).
    by exists pre, post.
  - destruct (X21_classifier_first_in_mro default_column_to_schema null eq_refl)
      as (_ & _ & Hraise).
    destruct (Classifier.__getitem__ default_column_to_schema null)
      as [r|e] eqn:Hget; [by vm_compute in Hget|].
    f_equal. exact (Hraise e eq_refl).
Defined.

(** ** Decision policies *)

(** X22: the comfortable policy asks for a descent into one-to-many
    relationships only: whatever the walker, the history and the nesting
    level, a decision [RELATIONSHIP] is made for the walked property itself,
    with no options, and that property is a one-to-many relationship. *)
Theorem X22_comfortable_descends_one_to_many walker hist prop toplevel p opts :
  Decided RELATIONSHIP p opts
    ∈ ComfortableDesicion.desicion walker hist prop toplevel →
  p = prop ∧ opts = []
  ∧ ∃ r, prop = RelationshipProp r ∧ rp_direction r = ONETOMANY.
Proof.
  assert (∀ r, Decided RELATIONSHIP p opts ∉ ComfortableDesicion.flatten walker r)
    as Hflat.
  { intros r (c & Hc & _)%list_elem_of_fmap.
    by destruct (dict_get (c_name c) _). }
  unfold ComfortableDesicion.desicion. destruct prop as [c|r].
  { by intros [=]%list_elem_of_singleton. }
  destruct (decide (rp_direction r = MANYTOONE)) as [Hdir|Hdir].
  - destruct toplevel; [by intros ?%Hflat|].
    destruct hist as [|[c|rp] hist]; try by intros [=]%list_elem_of_singleton.
    destruct (decide _); [by intros ?%Hflat|by intros ?%elem_of_nil].
  - destruct (decide (rp_direction r = MANYTOMANY)) as [Hdir2|Hdir2];
      intros [= -> ->]%list_elem_of_singleton.
    split_and!; [done..|]. exists r. split; [done|].
    by destruct (rp_direction r).
Qed.

Lemma X22_comfortable_descends_one_to_many_witness :
  let w := {| w_class := AlsoChildrenWalker; mapper := Fixtures.Owner;
              includes := None; excludes := None; history := 0;
              decisions := None; walking := [] |} in
  ComfortableDesicion.desicion w [] (RelationshipProp Fixtures.Owner_pets) true
  = [Decided RELATIONSHIP (RelationshipProp Fixtures.Owner_pets) []]
  ∧ rp_direction Fixtures.Owner_pets = ONETOMANY.
Proof.
  intros w. split; [reflexivity|].
  destruct (X22_comfortable_descends_one_to_many w []
              (RelationshipProp Fixtures.Owner_pets) true
              (RelationshipProp Fixtures.Owner_pets) [])
    as (_ & _ & r & [= <-] & Hdir); [apply list_elem_of_here|exact Hdir].
Defined.

(** ** The entry of a relationship *)

(** What a descent into a relationship that returns has done: the
    relationship is appended to the history, the walker and the override
    collection of the related model are made, the schema of the related
    model is built with them, and the value that [child_schema] makes of
    it is registered. *)
Lemma relationship_action_Returns self models build depth h w fr r st w1 fr1 st1 :
  relationship_action self models build depth h w fr (RelationshipProp r) st
  = Returns ((w1, fr1), st1) →
  ∃ st_a child st_b subov sub st_c,
    list_append h (RelationshipProp r) st = Returns (tt, st_a)
    ∧ ChildFactory.child_walker (child_factory self) models r w (Some h) st_a
      = Returns (child, st_b)
    ∧ ChildFactory.child_overrides (child_factory self) r (fr_overrides fr)
      = Ok subov
    ∧ build child subov (ChildFactory.decrement depth) (Some h) false st_b
      = Returns (sub, st_c)
    ∧ _add_property_with_reference self models w (fr_prop_schema fr) r
        (if decide (rp_direction r = ONETOMANY)
         then [("type", JStr "array"); ("items", JDict sub)]
         else [("type", JStr "object"); ("properties", JDict sub)]) st_c
      = Returns ((fr_prop_schema fr1, w1), st1).
Proof.
  unfold relationship_action. rewrite bind_unfold. cbn [list_append].
  rewrite bind_unfold.
  destruct (ChildFactory.child_walker _ _ _ _ _ _) as [[[child st_b]|e]|]
    eqn:Hchild; [|done..].
  rewrite bind_unfold.
  destruct (ChildFactory.child_overrides _ _ _) as [subov|e] eqn:Hov; [|done].
  cbn [lift]. rewrite bind_unfold. unfold ChildFactory.child_schema at 1.
  rewrite bind_unfold.
  destruct (build child subov _ _ false st_b) as [[[sub st_c]|e]|] eqn:Hbuild;
    [|done..].
  intros Hrun.
  exists {| lists := alter (λ l, l ++ [RelationshipProp r]) h (lists st);
            root_schema := root_schema st |}, child, st_b, subov, sub, st_c.
  split; [reflexivity|]. split; [exact Hchild|]. split; [done|].
  split; [exact Hbuild|]. revert Hrun.
  destruct (decide (rp_direction r = ONETOMANY)); cbn [mret M_ret];
    rewrite bind_unfold;
    (destruct (_add_property_with_reference _ _ _ _ _ _ st_c)
       as [[[[ps w2] st_d]|e2]|]; [|done..]);
    by intros [= <- <- <-].
Qed.

(** [_detect_required] reads the history lists only, and leaves the store
    as it is. *)
Lemma foldM_detect_store steps : ∀ w r st w1 r1 st1,
  foldM (walk_step (λ w r prop, if any_required prop
                                then mret (w, r ++ [key prop])
                                else mret (w, r)))
        (w, r) steps st
  = Returns ((w1, r1), st1) →
  st1 = st
  ∧ ∀ st2, lists st2 = lists st →
      foldM (walk_step (λ w r prop, if any_required prop
                                    then mret (w, r ++ [key prop])
                                    else mret (w, r)))
            (w, r) steps st2
      = Returns ((w1, r1), st2).
Proof.
  induction steps as [|s steps IH]; intros w r st w1 r1 st1.
  - by intros [= <- <- <-].
  - rewrite foldM_cons. destruct s as [n|p|e]; [| |done].
    + rewrite walk_step_Mark. intros [-> Hrest]%IH. split; [done|].
      intros st2 Hl. rewrite foldM_cons, walk_step_Mark. by apply Hrest.
    + rewrite walk_step_Yield.
      assert (∀ st2, lists st2 = lists st →
                     deref (history w) st2 = deref (history w) st) as Hderef.
      { intros st2 Hl. unfold deref. by rewrite Hl. }
      destruct (walk w (deref (history w) st) p) eqn:Hw.
      * destruct (any_required p) eqn:Hp; intros [-> Hrest]%IH;
          (split; [done|]); intros st2 Hl;
          rewrite foldM_cons, walk_step_Yield, (Hderef st2 Hl), Hw, Hp;
          by apply Hrest.
      * intros [-> Hrest]%IH. split; [done|]. intros st2 Hl.
        rewrite foldM_cons, walk_step_Yield, (Hderef st2 Hl), Hw.
        by apply Hrest.
Qed.

Lemma detect_required_store w st req w1 st1 :
  _detect_required w st = Returns ((req, w1), st1) →
  st1 = st
  ∧ ∀ st2, lists st2 = lists st →
           _detect_required w st2 = Returns ((req, w1), st2).
Proof.
  unfold _detect_required, for_walk. rewrite bind_unfold.
  destruct (foldM _ _ _ st) as [[[[w2 r2] st2]|e]|] eqn:Hf; [|done..].
  intros [= <- <- <-]. apply foldM_detect_store in Hf as [-> Hrest].
  split; [done|]. intros st3 Hl. rewrite bind_unfold, (Hrest st3 Hl). done.
Qed.

(** X23: a factory that references definitions as files renders every
    relationship it descends into as an array of references to the file of
    the related table, whatever the direction of the relationship, and for
    every build of the related model's schema. *)
Theorem X23_reference_files_array self models build depth h w fr r st
    w1 fr1 st1 :
  reference_files self = true →
  relationship_action self models build depth h w fr (RelationshipProp r) st
  = Returns ((w1, fr1), st1) →
  ∃ target,
    rp_target models r = Ok target
    ∧ dict_get (rp_key r) (fr_prop_schema fr1)
      = Some (JDict [("type", JStr "array");
                     ("items",
                      JDict [("$ref",
                              JStr (String.app (mapped_table_name target)
                                      ".json#"))])]).
Proof.
  intros Hfiles (st_a & child & st_b & subov & sub & st_c & _ & _ & _ & _ & Hadd)
    %relationship_action_Returns.
  unfold _add_property_with_reference in Hadd. rewrite bind_unfold in Hadd.
  destruct (rp_target models r) as [target|e]; [|done].
  exists target. split; [done|]. cbn [lift] in Hadd. rewrite Hfiles in Hadd.
  rewrite bind_unfold in Hadd.
  assert ((if bool_decide (rp_direction r = MANYTOONE
                           ∨ rp_direction r = MANYTOMANY)
           then mret true
           else t ← lift (val_type
                            (if decide (rp_direction r = ONETOMANY)
                             then [("type", JStr "array"); ("items", JDict sub)]
                             else [("type", JStr "object");
                                   ("properties", JDict sub)]));
                mret (json_eq_str t "array")) st_c
          = Returns (true, st_c)) as Hmany.
  { destruct (rp_direction r); by vm_compute. }
  rewrite Hmany in Hadd. rewrite bind_unfold in Hadd.
  destruct (_detect_required w st_c) as [[[[req w2] st_d]|e]|]; [|done..].
  injection Hadd as <- _ _. apply dict_get_set_eq.
Qed.

Lemma X23_reference_files_array_witness :
  let self := Fixtures.factory AlsoChildrenWalker RelationDesicion true in
  let w := {| w_class := AlsoChildrenWalker; mapper := Fixtures.Car;
              includes := None; excludes := None; history := 0;
              decisions := None; walking := [] |} in
  let fr := {| fr_prop_schema := [];
               fr_overrides := CollectionForOverrides.__init__ [];
               fr_sub := None |} in
  ∃ w1 fr1 st1,
    relationship_action self Fixtures.garage
      (λ w o d h t, r ← _build_properties self Fixtures.garage 3 w o d h t;
                    mret r.1.1)
      None 1 w fr (RelationshipProp Fixtures.Car_owner)
      {| lists := [[]; []]; root_schema := initial_schema Fixtures.Car |}
    = Returns ((w1, fr1), st1)
    ∧ rp_direction Fixtures.Car_owner = MANYTOONE
    ∧ dict_get "owner" (fr_prop_schema fr1)
      = Some (JDict [("type", JStr "array");
                     ("items", JDict [("$ref", JStr "owners.json#")])]).
Proof.
  intros self w fr.
  destruct (relationship_action self Fixtures.garage
              (λ w o d h t, r ← _build_properties self Fixtures.garage 3 w o d h t;
                            mret r.1.1)
              None 1 w fr (RelationshipProp Fixtures.Car_owner)
              {| lists := [[]; []]; root_schema := initial_schema Fixtures.Car |})
    as [[[[w1 fr1] st1]|e]|] eqn:Hrun; [|by vm_compute in Hrun..].
  exists w1, fr1, st1. split; [reflexivity|]. split; [reflexivity|].
  destruct (X23_reference_files_array self _ _ _ _ _ _ _ _ _ _ _ eq_refl Hrun)
    as (target & Ht & Hget).
  injection Ht as <-. exact Hget.
Defined.

Lemma ret_unfold {A} (a : A) (st : store) :
  @mret M _ A a st = Returns (a, st).
Proof. reflexivity. Qed.

Lemma set_definition_Returns clsname val st x st' :
  set_definition clsname val st = Returns (x, st') →
  ∃ defs, dict_get "definitions" (root_schema st) = Some (JDict defs)
    ∧ dict_get "definitions" (root_schema st')
      = Some (JDict (dict_set clsname (JDict val) defs)).
Proof.
  unfold set_definition. rewrite bind_unfold. cbn [get_root_schema].
  destruct (dict_get "definitions" (root_schema st)) as [[| | | | |defs]|];
    try done.
  intros [= _ <-]. exists defs. split; [done|]. apply dict_get_set_eq.
Qed.

(** X24: a factory that keeps definitions in the document.  For every
    relationship it descends into, the entry of the relationship is a
    reference to the definition of the related class, inside an array for a
    one-to-many relationship.  The definition stored under the name of the
    related class is an object: its [properties] are the schema that the
    build returned for the walker and the overrides of the related model,
    and it carries a [required] list, even an empty one, which is the list
    that [_detect_required] gives for the walker of the model that has the
    relationship. *)
Theorem X24_definition_entry self models build depth h w fr r st w1 fr1 st1 :
  reference_files self = false →
  relationship_action self models build depth h w fr (RelationshipProp r) st
  = Returns ((w1, fr1), st1) →
  ∃ target st_a child st_b subov sub st_c required defs,
    rp_target models r = Ok target
    ∧ list_append h (RelationshipProp r) st = Returns (tt, st_a)
    ∧ ChildFactory.child_walker (child_factory self) models r w (Some h) st_a
      = Returns (child, st_b)
    ∧ ChildFactory.child_overrides (child_factory self) r (fr_overrides fr)
      = Ok subov
    ∧ build child subov (ChildFactory.decrement depth) (Some h) false st_b
      = Returns (sub, st_c)
    ∧ _detect_required w st_c = Returns ((required, w1), st_c)
    ∧ dict_get (rp_key r) (fr_prop_schema fr1)
      = Some (let ref := JDict [("$ref",
                                 JStr (String.app "#/definitions/"
                                         (class_name target)))] in
              if decide (rp_direction r = ONETOMANY)
              then JDict [("type", JStr "array"); ("items", ref)]
              else ref)
    ∧ dict_get "definitions" (root_schema st1) = Some (JDict defs)
    ∧ dict_get (class_name target) defs
      = Some (JDict [("type", JStr "object"); ("properties", JDict sub);
                     ("required", JList (JStr <$> required))]).
Proof.
  intros Hfiles
    (st_a & child & st_b & subov & sub & st_c & Happ & Hchild & Hov & Hbuild
     & Hadd)%relationship_action_Returns.
  unfold _add_property_with_reference in Hadd. rewrite bind_unfold in Hadd.
  destruct (rp_target models r) as [target|e]; [|done].
  cbn [lift] in Hadd. rewrite Hfiles in Hadd.
  rewrite bind_unfold in Hadd. cbn [get_root_schema] in Hadd.
  rewrite bind_unfold in Hadd. cbn [put_root_schema] in Hadd.
  rewrite bind_unfold in Hadd.
  assert (∀ (val : dict json) cs st_p,
            lists st_p = lists st_c →
            (set_definition (class_name target) val
             ≫= λ _ : (),
                  _detect_required w
                  ≫= λ '(required, walker),
                       set_definition (class_name target)
                         (dict_set "required" (JList (JStr <$> required)) val)
                       ≫= λ _ : (), mret (cs, walker)) st_p
            = Returns ((fr_prop_schema fr1, w1), st1) →
            cs = fr_prop_schema fr1
            ∧ ∃ req defs,
                _detect_required w st_c = Returns ((req, w1), st_c)
                ∧ dict_get "definitions" (root_schema st1) = Some (JDict defs)
                ∧ dict_get (class_name target) defs
                  = Some (JDict (dict_set "required" (JList (JStr <$> req)) val)))
    as Hstore.
  { intros val cs st_p Hlists. rewrite bind_unfold.
    destruct (set_definition _ _ st_p) as [[[[] st_d]|e]|] eqn:Hset1; [|done..].
    rewrite bind_unfold.
    destruct (_detect_required w st_d) as [[[[req w2] st_e]|e]|] eqn:Hreq;
      [|done..].
    rewrite bind_unfold.
    destruct (set_definition _ _ st_e) as [[[[] st_f]|e]|] eqn:Hset2; [|done..].
    intros [= <- <- <-]. split; [done|].
    apply set_definition_Returns in Hset2 as (defs & _ & Hdefs).
    eexists req, _. split; [|split; [exact Hdefs|apply dict_get_set_eq]].
    apply detect_required_store in Hreq as [_ Hreq]. apply Hreq.
    rewrite <-Hlists. symmetry.
    eapply quiet_Returns, Hset1. apply quiet_set_definition. }
  destruct (decide (rp_direction r = ONETOMANY)) as [Hdir|Hdir].
  - apply Hstore in Hadd as (Hcs & req & defs & Hreq & Hdefs & Hget); [|done].
    exists target, st_a, child, st_b, subov, sub, st_c, req, defs.
    split_and!; [done..| |done|exact Hget].
    rewrite <-Hcs. apply dict_get_set_eq.
  - apply Hstore in Hadd as (Hcs & req & defs & Hreq & Hdefs & Hget); [|done].
    exists target, st_a, child, st_b, subov, sub, st_c, req, defs.
    split_and!; [done..| |done|exact Hget].
    rewrite <-Hcs. apply dict_get_set_eq.
Qed.

Lemma X24_definition_entry_witness :
  let self := Fixtures.factory AlsoChildrenWalker RelationDesicion false in
  let build := λ w o d h t,
    r ← _build_properties self Fixtures.garage 3 w o d h t; mret r.1.1 in
  let w := {| w_class := AlsoChildrenWalker; mapper := Fixtures.Owner;
              includes := None; excludes := None; history := 0;
              decisions := None; walking := [] |} in
  let fr := {| fr_prop_schema := [];
               fr_overrides := CollectionForOverrides.__init__ [];
               fr_sub := None |} in
  ∃ w1 fr1 st1 child st_b subov st_c defs,
    relationship_action self Fixtures.garage build None 1 w fr
      (RelationshipProp Fixtures.Owner_pets)
      {| lists := [[]; []]; root_schema := initial_schema Fixtures.Owner |}
    = Returns ((w1, fr1), st1)
    ∧ build child subov None (Some 1) false st_b
      = Returns ([("tag", JDict [("type", JStr "integer")]);
                  ("nickname", JDict [("type", JStr "string");
                                      ("maxLength", JInt 20)])], st_c)
    ∧ _detect_required w st_c = Returns ((["id"], w1), st_c)
    ∧ dict_get "pets" (fr_prop_schema fr1)
      = Some (JDict [("type", JStr "array");
                     ("items", JDict [("$ref", JStr "#/definitions/Pet")])])
    ∧ dict_get "definitions" (root_schema st1) = Some (JDict defs)
    ∧ dict_get "Pet" defs
      = Some (JDict [("type", JStr "object");
                     ("properties",
                      JDict [("tag", JDict [("type", JStr "integer")]);
                             ("nickname", JDict [("type", JStr "string");
                                                 ("maxLength", JInt 20)])]);
                     ("required", JList [JStr "id"])]).
Proof.
  intros self build w fr.
  destruct (relationship_action self Fixtures.garage build None 1 w fr
              (RelationshipProp Fixtures.Owner_pets)
              {| lists := [[]; []]; root_schema := initial_schema Fixtures.Owner |})
    as [[[[w1 fr1] st1]|e]|] eqn:Hrun; [|by vm_compute in Hrun..].
  destruct (X24_definition_entry self _ _ _ _ _ _ _ _ _ _ _ eq_refl Hrun)
    as (target & st_a & child & st_b & subov & sub & st_c & required & defs
        & Ht & Happ & Hchild & Hov & Hbuild & Hreq & Hentry & Hdefs & Hget).
  injection Ht as <-. injection Happ as <-.
  vm_compute in Hchild. injection Hchild as <- <-.
  vm_compute in Hov. injection Hov as <-.
  pose proof Hbuild as Hsub. vm_compute in Hsub. injection Hsub as <- <-.
  pose proof Hreq as Hr. vm_compute in Hr. injection Hr as <- _.
  eexists w1, fr1, st1, _, _, _, _, defs.
  split; [reflexivity|]. split; [exact Hbuild|]. split; [exact Hreq|].
  split_and!; [exact Hentry|exact Hdefs|exact Hget].
Defined.

(** ** The schema of a column *)

Lemma array_items_type self t sub sub2 :
  array_items self t sub = Ok sub2 →
  dict_get "type" sub2 = dict_get "type" sub.
Proof.
  unfold array_items. destruct (ty_item_type t) as [item|]; [|by intros [= ->]].
  intros ([it s] & _ & Hrest)%result_bind_Ok.
  destruct (decide (s = "string")).
  - destruct (ty_length item) as [[len|]|]; [|done..].
    destruct (decide (0 < len)%Z); injection Hrest as <-;
      by apply dict_get_set_ne.
  - injection Hrest as <-. by apply dict_get_set_ne.
Qed.

(** X25: the [type] of a generated field.  With the default restrictions,
    for a column that no override names and options that do not set [type],
    a field schema that is produced has as its [type] the name that the
    classifier gives for the type of the column, and the override collection
    is as before. *)
Theorem X25_field_type self column t opts ov field ov2 :
  restriction_dict self = default_restriction_dict →
  c_type column = TypeObject t →
  CollectionForOverrides.__contains__ ov (c_name column) = false →
  dict_get "type" opts = None →
  column_schema self column opts ov = Ok (field, ov2) →
  ov2 = ov
  ∧ ∃ itype ty, Classifier.__getitem__ (classifier self) t = Ok (itype, ty)
      ∧ dict_get "type" field = Some (JStr ty).
Proof.
  intros Hdict Ht Hov Hopts. unfold column_schema. rewrite Ht.
  intros ([itype ty] & Hcls & Hrest)%result_bind_Ok.
  apply result_bind_Ok in Hrest as (sub1 & Harr & Hrest).
  apply result_bind_Ok in Hrest as (sub2 & Hres & Hrest).
  rewrite Hov in Hrest. simpl in Hrest. injection Hrest as <- <-.
  split; [done|]. exists itype, ty. split; [done|].
  assert (dict_get "type" sub1 = Some (JStr ty)) as Hsub1.
  { destruct (decide (ty = "array")); [|by injection Harr as <-].
    apply array_items_type in Harr. by rewrite Harr. }
  assert (dict_get "type" sub2 = Some (JStr ty)) as Hsub2.
  { rewrite <-Hsub1. by eapply restrict_default_type. }
  assert (dict_get "type"
            match doc column with
            | Some d => if decide (d = "") then sub2
                        else dict_set "description" (JStr (_clean_doc d)) sub2
            | None => sub2
            end = Some (JStr ty)) as Hdoc.
  { destruct (doc column) as [d|]; [|done].
    destruct (decide (d = "")); [done|]. by rewrite dict_get_set_ne. }
  destruct opts; [done|]. by rewrite dict_get_update_None.
Qed.

Lemma X25_field_type_witness :
  ∃ field ov2,
    column_schema (Fixtures.factory SingleModelWalker RelationDesicion false)
      Fixtures.users_name [("relation", JStr "owner")]
      (CollectionForOverrides.__init__ []) = Ok (field, ov2)
    ∧ ov2 = CollectionForOverrides.__init__ []
    ∧ ∃ itype ty,
        Classifier.__getitem__ default_column_to_schema
          (Fixtures.varchar (Some 50%Z)) = Ok (itype, ty)
        ∧ dict_get "type" field = Some (JStr ty).
Proof.
  eexists _, _. split; [reflexivity|].
  eapply (X25_field_type
            (Fixtures.factory SingleModelWalker RelationDesicion false)
            Fixtures.users_name (Fixtures.varchar (Some 50%Z))
            [("relation", JStr "owner")]); reflexivity.
Defined.

(** ** The filters of a child walker *)

Lemma init_Returns cls model inc exc hist ds st w st' :
  BaseModelWalker.__init__ cls model inc exc hist ds st = Returns (w, st') →
  w_class w = cls ∧ mapper w = model ∧ includes w = inc ∧ excludes w = exc
  ∧ decisions w = ds ∧ walking w = []
  ∧ truthy inc && truthy exc
    && intersects (from_option id [] inc) (from_option id [] exc) = false.
Proof.
  unfold BaseModelWalker.__init__. rewrite bind_unfold.
  destruct (history_or_new_Ok hist st) as (h & st1 & -> & _).
  destruct (_ && _); [done|]. by intros [= <- _].
Qed.

Lemma init_conflict cls model inc exc hist ds st :
  truthy inc && truthy exc
  && intersects (from_option id [] inc) (from_option id [] exc) = true →
  BaseModelWalker.__init__ cls model inc exc hist ds st
  = Raises (InvalidStatus (Conflict (from_option id [] inc)
                                    (from_option id [] exc))).
Proof.
  intros Ht. unfold BaseModelWalker.__init__. rewrite bind_unfold.
  destruct (history_or_new_Ok hist st) as (h & st1 & -> & _). by rewrite Ht.
Qed.

Lemma clone_Returns w name model inc exc hist st child st' :
  clone w name model inc exc hist st = Returns (child, st') →
  includes child = inc ∧ excludes child = exc
  ∧ truthy inc && truthy exc
    && intersects (from_option id [] inc) (from_option id [] exc) = false.
Proof.
  unfold clone. destruct (w_class w).
  1-3: by intros (_ & _ & ? & ? & _ & _ & ?)%init_Returns.
  rewrite bind_unfold.
  destruct (HandControlledWalker.clone_decisions w name) as [ds|e]; [|done].
  by intros (_ & _ & ? & ? & _ & _ & ?)%init_Returns.
Qed.

Lemma children_of_list_matching prefix splitter l e l2 :
  e ∈ l → startswith e prefix = true →
  children_of_list prefix splitter l = Ok l2 → l2 ≠ [].
Proof.
  intros Hin He. induction Hin as [e l|e e2 l _ IH]; simpl.
  - rewrite He. intros (e1 & _ & Hrest)%result_bind_Ok.
    by apply result_bind_Ok in Hrest as (rest & _ & [= <-]).
  - destruct (startswith e2 prefix); [|by apply IH].
    intros (e1 & _ & Hrest)%result_bind_Ok.
    by apply result_bind_Ok in Hrest as (rest & _ & [= <-]).
Qed.

Lemma conflict_of_shared_head k ks extra :
  truthy (Some (k :: ks)) && truthy (Some ((Some <$> k :: ks) ++ extra))
  && intersects (k :: ks) ((Some <$> k :: ks) ++ extra) = true.
Proof.
  simpl. apply orb_true_iff. left. apply bool_decide_eq_true.
  apply list_elem_of_here.
Qed.

(** X26: an entry of the parent's [includes] that is scoped to a
    relationship makes the construction of the walker for the related model
    raise: the scoped entries become both the [includes] and the [excludes]
    of the child walker, and the constructor rejects filters that share a
    key.  This holds for every walker class and every splitter that is not
    empty. *)
Theorem X26_scoped_include_conflicts cf models r w hist st l e target :
  splitter cf ≠ "" →
  includes w = Some l → e ∈ l →
  startswith e (String.app (rp_key r) (splitter cf)) = true →
  rp_target models r = Ok target →
  ∃ inc exc, ChildFactory.child_walker cf models r w hist st
             = Raises (InvalidStatus (Conflict inc exc)).
Proof.
  intros Hsplit Hinc He Hpre Htarget. unfold ChildFactory.child_walker.
  rewrite Hinc. cbn [ChildFactory.list_param]. unfold get_children.
  destruct (children_of_list_total (splitter cf) (rp_key r) l Hsplit)
    as [l2 Hl2].
  rewrite Hl2. cbn [fmap result_fmap]. rewrite bind_unfold. cbn [lift].
  rewrite bind_unfold. cbn [lift]. rewrite Htarget, bind_unfold. cbn [lift].
  pose proof (children_of_list_matching _ _ _ _ _ He Hpre Hl2) as Hne.
  destruct l2 as [|k ks]; [done|].
  assert (∀ extra cls ds,
    BaseModelWalker.__init__ cls target (Some (k :: ks))
      (Some ((Some <$> k :: ks) ++ extra)) hist ds st
    = Raises (InvalidStatus (Conflict (k :: ks) ((Some <$> k :: ks) ++ extra))))
    as Hinit.
  { intros extra cls ds.
    apply (init_conflict cls target (Some (k :: ks))
             (Some ((Some <$> k :: ks) ++ extra))).
    apply conflict_of_shared_head. }
  assert (∀ extra, ∃ inc exc,
    clone w (rp_key r) target (Some (k :: ks))
      (Some ((Some <$> k :: ks) ++ extra)) hist st
    = Raises (InvalidStatus (Conflict inc exc))) as Hclone.
  { intros extra. unfold clone. destruct (w_class w); try by eauto.
    rewrite bind_unfold. unfold HandControlledWalker.clone_decisions.
    unfold get_children. destruct (decisions w) as [ds|].
    - destruct (children_of_dict_total "." (rp_key r) ds) as [kvs ->]; [done|].
      eexists _, _. apply (Hinit extra).
    - eexists _, _. apply (Hinit extra). }
  destruct (bidirectional cf).
  - specialize (Hclone []). by rewrite app_nil_r in Hclone.
  - apply Hclone.
Qed.

Lemma X26_scoped_include_conflicts_witness :
  let w := {| w_class := AlsoChildrenWalker; mapper := Fixtures.Owner;
              includes := Some ["id"; "pets"; "pets.tag"]; excludes := None;
              history := 0; decisions := None; walking := [] |} in
  ∃ inc exc,
    ChildFactory.child_walker {| splitter := "."; bidirectional := false |}
      Fixtures.garage Fixtures.Owner_pets w (Some 1)
      {| lists := [[]; []]; root_schema := [] |}
    = Raises (InvalidStatus (Conflict inc exc)).
Proof.
  intros w.
  apply (X26_scoped_include_conflicts _ _ _ w _ _
           ["id"; "pets"; "pets.tag"] "pets.tag" Fixtures.Pet).
  - discriminate.
  - reflexivity.
  - do 2 apply list_elem_of_further. apply list_elem_of_here.
  - reflexivity.
  - reflexivity.
Defined.

(** X27: when the parent walker has [includes], a child walker that is
    constructed has the empty list as its [includes], and its walk yields
    nothing: the schema of the related model is built empty. *)
Theorem X27_child_of_including_parent_is_empty cf models r w hist st l
    child st1 :
  includes w = Some l →
  ChildFactory.child_walker cf models r w hist st = Returns (child, st1) →
  includes child = Some []
  ∧ ∀ st2 w2 ps st3, walk_all child st2 = Returns ((w2, ps), st3) → ps = [].
Proof.
  intros Hinc. unfold ChildFactory.child_walker.
  rewrite Hinc. cbn [ChildFactory.list_param]. unfold get_children.
  destruct (children_of_list _ _ l) as [l2|e]; [|done].
  cbn [fmap result_fmap]. rewrite bind_unfold. cbn [lift].
  rewrite bind_unfold. cbn [lift]. rewrite bind_unfold.
  destruct (rp_target models r) as [target|e]; [|done]. cbn [lift].
  intros (Hi & Hx & Htest)%clone_Returns.
  assert (l2 = []) as ->.
  { destruct l2 as [|k ks]; [done|].
    destruct (bidirectional cf).
    - pose proof (conflict_of_shared_head k ks []) as Hc.
      rewrite app_nil_r in Hc. simpl in *. congruence.
    - pose proof (conflict_of_shared_head k ks
                    (ChildFactory.default_excludes r)) as Hc.
      simpl in *. congruence. }
  split; [done|]. intros st2 w2 ps st3 Hrun.
  apply walk_all_collect in Hrun as (_ & ms & _ & _ & Hps).
  destruct ps as [|p ps]; [done|].
  apply Forall_cons in Hps as [(_ & ms0 & _ & Hw) _].
  apply walk_filters in Hw as [Hin _]. unfold included in Hin. simpl in Hin.
  rewrite Hi in Hin. apply bool_decide_eq_true in Hin.
  by apply elem_of_nil in Hin.
Qed.

Lemma X27_child_of_including_parent_is_empty_witness :
  let w := {| w_class := AlsoChildrenWalker; mapper := Fixtures.Owner;
              includes := Some ["id"; "pets"]; excludes := None;
              history := 0; decisions := None; walking := [] |} in
  let st := {| lists := [[]; [RelationshipProp Fixtures.Owner_pets]];
               root_schema := [] |} in
  ∃ child st1,
    ChildFactory.child_walker {| splitter := "."; bidirectional := false |}
      Fixtures.garage Fixtures.Owner_pets w (Some 1) st = Returns (child, st1)
    ∧ mapper child = Fixtures.Pet
    ∧ includes child = Some []
    ∧ ∀ st2 w2 ps st3, walk_all child st2 = Returns ((w2, ps), st3) → ps = [].
Proof.
  intros w st.
  destruct (ChildFactory.child_walker {| splitter := "."; bidirectional := false |}
              Fixtures.garage Fixtures.Owner_pets w (Some 1) st)
    as [[[child st1]|e]|] eqn:Hchild; [|by vm_compute in Hchild..].
  exists child, st1. split; [reflexivity|].
  split; [by vm_compute in Hchild; injection Hchild as <- _|].
  exact (X27_child_of_including_parent_is_empty _ _ _ w _ _ ["id"; "pets"]
           child st1 eq_refl Hchild).
Defined.
